(** * Package mirror: the bucket copy / transform xaction (XactTCB)

    A shallow embedding of the admission factory ([tcbFactory]), the
    per-object copy callback ([copyObject]), the receive handler ([recv])
    and the run-to-completion driver ([Run]) together with the pool of
    copy parameters.  Collaborators that live in other packages (target,
    data mover, jogger, capacity status, quiescence) are represented by the
    answers they give, which every operation takes as part of its input. *)

From Stdlib Require Import ZArith List String Bool Lia.
Import ListNotations.
Local Open Scope Z_scope.

(** ** Machine integers *)

(** Two's complement reduction to [w] bits, as Go's conversions and atomic
    counters do it. *)
Definition wrap (w : Z) (x : Z) : Z := (x + 2 ^ (w - 1)) mod 2 ^ w - 2 ^ (w - 1).
Definition int32 (x : Z) : Z := wrap 32 x.
Definition int64 (x : Z) : Z := wrap 64 x.

(** ** Constants *)

Definition doneSendingOpcode : Z := 27182.
Definition etlBucketParallelCnt : Z := 2.

(** Modelled from the spec: the admission phases [cmn.ActBegin] and
    [cmn.ActCommit] are declared in package cmn; the spec names them
    `begin` and `commit`. *)
Definition ActBegin : string := "begin".
Definition ActCommit : string := "commit".

(** Modelled from the spec: [cmn.ActETLBck], the kind of a transform job,
    is declared in package cmn; only its being a fixed kind name matters. *)
Definition ActETLBck : string := "etl-bck".

(** Modelled from the spec: [cos.ContentLengthUnknown] is the size a copy
    reports when the size is not known ahead of transformation. *)
Definition ContentLengthUnknown : Z := -1.

(** Modelled from the spec: [memsys.DefaultBufSize], the PDU size of a
    transform job's stream, is declared in package memsys. *)
Definition DefaultBufSize : Z := 32768.

(** ** Errors *)

Set Warnings "-register-all".
Inductive error : Type :=
| io_EOF                                       (* clean end of stream *)
| ErrOOS (msg : string)                        (* out of space *)
| ErrOther (msg : string)                      (* any other error value *)
| ErrQuiesceTimeout                            (* cmn.ErrQuiesceTimeout *)
| ErrAborted (what ctx : string) (cause : option error)
                                               (* cmn.NewErrAborted(what, ctx, cause) *)
| Errorf_sv (s : string) (v : error)           (* fmt.Errorf("%s: %v", s, v) *)
| Errorf_running (prev new : string).
      (* fmt.Errorf("%s is currently running - not starting new %q", prev, new) *)
Set Warnings "register-all".

(** Modelled from the spec: [cos.IsEOF], [cos.IsErrOOS] and
    [cmn.IsErrAborted] classify an error by its kind. *)
Definition IsEOF (e : error) : bool :=
  match e with io_EOF => true | _ => false end.
Definition IsErrOOS (e : error) : bool :=
  match e with ErrOOS _ => true | _ => false end.
Definition IsErrAborted (e : error) : bool :=
  match e with ErrAborted _ _ _ => true | _ => false end.
Definition IsErrQuiesceTimeout (e : error) : bool :=
  match e with Errorf_sv _ ErrQuiesceTimeout => true | _ => false end.
Definition AbortedCause (e : error) : option error :=
  match e with ErrAborted _ _ c => c | _ => None end.

(** Modelled from the spec: [cos.ErrValue] is a store-once cell, the first
    stored error is kept and later ones are discarded. *)
Definition ErrValue := option error.
Definition ErrValue_Store (cell : ErrValue) (e : error) : ErrValue :=
  match cell with
  | Some _ => cell
  | None => Some e
  end.
Definition ErrValue_Err (cell : ErrValue) : option error := cell.

(** ** Buckets, messages, arguments *)

Record Bck := {
  bck_Name : string;
  bck_Provider : string;
  bck_BID : Z;
  bck_Backend : option (string * string)
}.

Definition backend_eqb (a b : option (string * string)) : bool :=
  match a, b with
  | None, None => true
  | Some (n1, p1), Some (n2, p2) => String.eqb n1 n2 && String.eqb p1 p2
  | _, _ => false
  end.

(** Modelled from the spec: [cluster.Bck.Equal(other, sameID, sameBackend)]
    compares two buckets exactly: same name and provider, and on request the
    same bucket ID and the same backend. *)
Definition Bck_Equal (a b : Bck) (sameID sameBackend : bool) : bool :=
  String.eqb (bck_Name a) (bck_Name b)
  && String.eqb (bck_Provider a) (bck_Provider b)
  && (if sameID then bck_BID a =? bck_BID b else true)
  && (if sameBackend then backend_eqb (bck_Backend a) (bck_Backend b) else true).

Definition Bck_String (b : Bck) : string :=
  (bck_Provider b ++ "://" ++ bck_Name b)%string.

(** The copy/transform message: the renaming rule and the dry-run flag. *)
Record TCBMsg := {
  ToName : string -> string;
  DryRun : bool
}.

Record TCBArgs := {
  Phase : string;
  BckFrom : Bck;
  BckTo : Bck;
  DP : option string;          (* transform reader provider, None: plain copy *)
  Msg : TCBMsg
}.

Definition TCBArgs_set_Phase (a : TCBArgs) (p : string) : TCBArgs :=
  {| Phase := p; BckFrom := BckFrom a; BckTo := BckTo a; DP := DP a; Msg := Msg a |}.

(** ** The pool of copy parameters *)

(** Modelled from the spec: [cluster.CopyObjectParams] holds the per-object
    copy arguments: destination bucket, destination name, buffer, transfer
    handle, transform descriptor and dry-run flag. *)
Record CopyObjectParams := {
  p_BckTo : option Bck;
  p_ObjNameTo : string;
  p_Buf : list Z;
  p_DM : option string;
  p_DP : option string;
  p_DryRun : bool
}.

(** [var cpObj0 cluster.CopyObjectParams]: the zero value. *)
Definition cpObj0 : CopyObjectParams :=
  {| p_BckTo := None; p_ObjNameTo := EmptyString; p_Buf := []; p_DM := None;
     p_DP := None; p_DryRun := false |}.

Definition Pool := list CopyObjectParams.

(** [sync.Pool.Get]: the pool hands out one of its items or nothing; [pick]
    is the pool's choice ([None]: nothing, although items may be there). *)
Definition Pool_Get (pick : option nat) (pool : Pool) : option CopyObjectParams * Pool :=
  match pick with
  | None => (None, pool)
  | Some i =>
      match nth_error pool i with
      | Some a => (Some a, firstn i pool ++ skipn (S i) pool)
      | None => (None, pool)
      end
  end.

Definition Pool_Put (a : CopyObjectParams) (pool : Pool) : Pool := a :: pool.

Definition allocCpObjParams (pick : option nat) (pool : Pool) : CopyObjectParams * Pool :=
  match Pool_Get pick pool with
  | (Some v, pool') => (v, pool')
  | (None, pool') => (cpObj0, pool')
  end.

Definition freeCpObjParams (a : CopyObjectParams) (pool : Pool) : Pool :=
  let a := cpObj0 in
  Pool_Put a pool.

(** ** The xaction and its factory *)

(** [bundle.DataMover] as far as this package drives it. *)
Record DataMover := {
  dm_trname : string;
  dm_sizePDU : Z;
  dm_registered : bool;              (* RegRecv / UnregRecv *)
  dm_open : bool;                    (* Open / Close *)
  dm_closed : option (option error)  (* the error Close was called with *)
}.

Record XactTCB := {
  (* xaction.XactBckJog and the xaction.XactBase inside it *)
  xb_id : string;
  xb_kind : string;
  xb_bck : Bck;
  xb_name : string;                  (* XactBase.Name() *)
  xb_str : string;                   (* XactBase.String() *)
  xb_parallel : Z;                   (* mpather.JoggerGroupOpts.Parallel *)
  xb_objects : Z;                    (* ObjectsInc *)
  xb_bytes : Z;                      (* BytesAdd *)
  xb_finished : option (option error); (* Finish(err) *)
  (* XactTCB proper *)
  r_dm : option DataMover;
  r_args : TCBArgs;
  r_wg : Z;
  r_refc : Z;
  r_err : ErrValue
}.

Definition set_objects (r : XactTCB) (v : Z) : XactTCB :=
  {| xb_id := xb_id r; xb_kind := xb_kind r; xb_bck := xb_bck r; xb_name := xb_name r;
     xb_str := xb_str r; xb_parallel := xb_parallel r; xb_objects := v;
     xb_bytes := xb_bytes r; xb_finished := xb_finished r; r_dm := r_dm r;
     r_args := r_args r; r_wg := r_wg r; r_refc := r_refc r; r_err := r_err r |}.
Definition set_bytes (r : XactTCB) (v : Z) : XactTCB :=
  {| xb_id := xb_id r; xb_kind := xb_kind r; xb_bck := xb_bck r; xb_name := xb_name r;
     xb_str := xb_str r; xb_parallel := xb_parallel r; xb_objects := xb_objects r;
     xb_bytes := v; xb_finished := xb_finished r; r_dm := r_dm r;
     r_args := r_args r; r_wg := r_wg r; r_refc := r_refc r; r_err := r_err r |}.
Definition set_finished (r : XactTCB) (v : option (option error)) : XactTCB :=
  {| xb_id := xb_id r; xb_kind := xb_kind r; xb_bck := xb_bck r; xb_name := xb_name r;
     xb_str := xb_str r; xb_parallel := xb_parallel r; xb_objects := xb_objects r;
     xb_bytes := xb_bytes r; xb_finished := v; r_dm := r_dm r;
     r_args := r_args r; r_wg := r_wg r; r_refc := r_refc r; r_err := r_err r |}.
Definition set_dm (r : XactTCB) (v : option DataMover) : XactTCB :=
  {| xb_id := xb_id r; xb_kind := xb_kind r; xb_bck := xb_bck r; xb_name := xb_name r;
     xb_str := xb_str r; xb_parallel := xb_parallel r; xb_objects := xb_objects r;
     xb_bytes := xb_bytes r; xb_finished := xb_finished r; r_dm := v;
     r_args := r_args r; r_wg := r_wg r; r_refc := r_refc r; r_err := r_err r |}.
Definition set_wg (r : XactTCB) (v : Z) : XactTCB :=
  {| xb_id := xb_id r; xb_kind := xb_kind r; xb_bck := xb_bck r; xb_name := xb_name r;
     xb_str := xb_str r; xb_parallel := xb_parallel r; xb_objects := xb_objects r;
     xb_bytes := xb_bytes r; xb_finished := xb_finished r; r_dm := r_dm r;
     r_args := r_args r; r_wg := v; r_refc := r_refc r; r_err := r_err r |}.
Definition set_refc (r : XactTCB) (v : Z) : XactTCB :=
  {| xb_id := xb_id r; xb_kind := xb_kind r; xb_bck := xb_bck r; xb_name := xb_name r;
     xb_str := xb_str r; xb_parallel := xb_parallel r; xb_objects := xb_objects r;
     xb_bytes := xb_bytes r; xb_finished := xb_finished r; r_dm := r_dm r;
     r_args := r_args r; r_wg := r_wg r; r_refc := v; r_err := r_err r |}.
Definition set_err (r : XactTCB) (v : ErrValue) : XactTCB :=
  {| xb_id := xb_id r; xb_kind := xb_kind r; xb_bck := xb_bck r; xb_name := xb_name r;
     xb_str := xb_str r; xb_parallel := xb_parallel r; xb_objects := xb_objects r;
     xb_bytes := xb_bytes r; xb_finished := xb_finished r; r_dm := r_dm r;
     r_args := r_args r; r_wg := r_wg r; r_refc := r_refc r; r_err := v |}.

(** [XactTCB.String] and [XactTCB.Name]: "%s <= %s". *)
Definition XactTCB_String (r : XactTCB) : string :=
  (xb_str r ++ " <= " ++ Bck_String (BckFrom (r_args r)))%string.
Definition XactTCB_Name (r : XactTCB) : string :=
  (xb_name r ++ " <= " ++ Bck_String (BckFrom (r_args r)))%string.

(** The factory; [e_args] is the pointee of the [args] pointer, [e_UUID]
    and [e_Bck] come from the embedded [xreg.RenewBase]. *)
Record tcbFactory := {
  e_UUID : string;
  e_Bck : Bck;
  e_xact : option XactTCB;
  e_kind : string;
  e_phase : string;
  e_args : TCBArgs
}.

(** Modelled from the spec: [xreg.RenewBase.Str], the rendering of a request
    in the conflict error, is declared in package xreg. *)
Definition RenewBase_Str (e : tcbFactory) (kind : string) : string :=
  (kind ++ "[" ++ e_UUID e ++ "]")%string.

(** What "%s" prints for [prevEntry.Get()]. *)
Definition Get_String (e : tcbFactory) : string :=
  match e_xact e with
  | Some r => XactTCB_String r
  | None => "<nil>"%string
  end.

(** Modelled from the spec: [xreg.WPR], what the registry is told to do with
    the running entry; [WprUse] tells the caller to reuse the existing
    instance.  [WprUnset] stands for the zero value of the named result,
    which is what a rejection returns alongside its error. *)
Inductive WPR := WprUnset | WprAbort | WprUse | WprKeepAndStartNew.

(** Result of a call that may panic. *)
Inductive outcome (A : Type) : Type :=
| Returned (a : A)
| Panicked.
Arguments Returned {A} a.
Arguments Panicked {A}.

(** Modelled from the spec: [debug.Assert] is fatal in debug builds and does
    nothing otherwise; [dbg] tells whether the build is a debug build. *)
Definition debug_Assert (dbg : bool) (cond : bool) : bool := negb dbg || cond.

Definition New (e : tcbFactory) (uuid : string) (bck : Bck) (custom : TCBArgs) : tcbFactory :=
  {| e_UUID := uuid; e_Bck := bck; e_xact := None; e_kind := e_kind e;
     e_phase := Phase custom; e_args := custom |}.

(** [WhenPrevIsRunning]: returns the running entry as the call leaves it,
    the verdict and the error. *)
Definition WhenPrevIsRunning (dbg : bool) (e prev : tcbFactory)
  : outcome (tcbFactory * WPR * option error) :=
  if negb (String.eqb (e_UUID e) (e_UUID prev)) then
    Returned (prev, WprUnset,
              Some (Errorf_running (Get_String prev) (RenewBase_Str e (e_kind e))))
  else
    let bckEq := Bck_Equal (BckFrom (e_args prev)) (BckFrom (e_args e)) true true in
    if negb (debug_Assert dbg bckEq) then Panicked else
    if negb (debug_Assert dbg (String.eqb (e_phase prev) ActBegin
                               && String.eqb (e_phase e) ActCommit)) then Panicked else
    let prev' :=
      {| e_UUID := e_UUID prev; e_Bck := e_Bck prev; e_xact := e_xact prev;
         e_kind := e_kind prev; e_phase := e_phase prev;
         e_args := TCBArgs_set_Phase (e_args prev) ActCommit |} in
    Returned (prev', WprUse, None).

(** [newXactTCB]: the xaction takes a copy of the factory's arguments. *)
Definition newXactTCB (e : tcbFactory) (name str : string) : XactTCB :=
  let parallel := if String.eqb (e_kind e) ActETLBck then etlBucketParallelCnt else 0 in
  {| xb_id := e_UUID e; xb_kind := e_kind e; xb_bck := BckTo (e_args e);
     xb_name := name; xb_str := str; xb_parallel := parallel;
     xb_objects := 0; xb_bytes := 0; xb_finished := None;
     r_dm := None; r_args := e_args e; r_wg := 0; r_refc := 0; r_err := None |}.

(** What the collaborators answer during [Start]. *)
Record start_in := {
  si_slab_err : option error;        (* MMSA().GetSlab *)
  si_name : string;                  (* how XactBase names the new xaction *)
  si_str : string;
  si_CountTargets : Z;               (* Sowner().Get().CountTargets() *)
  si_newdm_err : option error;       (* bundle.NewDataMover *)
  si_regrecv_err : option error      (* dm.RegRecv *)
}.

(** [newDM]: on success the registered data mover is attached. *)
Definition newDM (r : XactTCB) (i : start_in) (uuid : string) (sizePDU : Z)
  : XactTCB * option error :=
  match si_newdm_err i with
  | Some err => (r, Some err)
  | None =>
      match si_regrecv_err i with
      | Some err => (r, Some err)
      | None =>
          (set_dm r (Some {| dm_trname := ("transcpy" ++ "_" ++ uuid)%string;
                             dm_sizePDU := sizePDU; dm_registered := true;
                             dm_open := false; dm_closed := None |}), None)
      end
  end.

Definition Start (e : tcbFactory) (i : start_in) : outcome (tcbFactory * option error) :=
  match si_slab_err i with
  | Some _ => Panicked                       (* cos.AssertNoErr *)
  | None =>
      let r := newXactTCB e (si_name i) (si_str i) in
      let sizePDU := if String.eqb (e_kind e) ActETLBck then DefaultBufSize else 0 in
      let r := set_refc r (int32 (si_CountTargets i - 1)) in
      let r := set_wg r (r_wg r + 1) in
      let '(r, err) := newDM r i (e_UUID e) sizePDU in
      Returned ({| e_UUID := e_UUID e; e_Bck := e_Bck e; e_xact := Some r;
                   e_kind := e_kind e; e_phase := e_phase e; e_args := e_args e |}, err)
  end.

(** ** The world an xaction runs in *)

(** A call made on the payload stream of a received record. *)
Inductive stream_call : Type :=
| CallRead (n : nat)                 (* n bytes were read off the stream *)
| CallDrainReader                    (* cos.DrainReader *)
| CallFreeRecv.                      (* transport.FreeRecv *)

(** The payload stream of a received record. *)
Record reader := {
  rd_unread : nat;                   (* bytes not yet read *)
  rd_freed : bool;                   (* transport.FreeRecv was called on it *)
  rd_calls : list stream_call        (* the calls made on it, in order *)
}.

Record LOM := {
  lom_ObjName : string;
  lom_SizeBytes : Z
}.

Record ObjAttrs := {
  attr_Size : Z;
  attr_Cksum : string
}.

Record ObjHdr := {
  Opcode : Z;
  hdr_Bck : Bck;
  ObjName : string;
  hdr_ObjAttrs : ObjAttrs
}.

(** What the local store holds after a successful [PutObject]. *)
Record put_record := {
  put_ObjName : string;
  put_Bck : Bck;
  put_Attrs : ObjAttrs
}.

(** Calls to the collaborators, in program order. *)
Inductive event : Type :=
| EvSetXact
| EvOpen
| EvCopyObject (objName : string) (params : CopyObjectParams)
| EvSend (objName : string)          (* a data record pushed to a peer *)
| EvBcast (opcode : Z)
| EvPutObject (objName : string)
| EvClose (err : option error)
| EvUnregRecv
| EvFinish (err : option error).

Inductive logline : Type :=
| LogError (e : error)
| LogInfo (s : string).

Record World := {
  job : XactTCB;
  cpObjPool : Pool;
  stored : list put_record;
  trace : list event;
  glog : list logline;
  rx : reader;                       (* the stream of the record being handled *)
  caller_wg : option Z               (* the wait group Run is handed: its counter,
                                        [None] for a nil pointer *)
}.

Definition set_job (w : World) (v : XactTCB) : World :=
  {| job := v; cpObjPool := cpObjPool w; stored := stored w; trace := trace w;
     glog := glog w; rx := rx w; caller_wg := caller_wg w |}.
Definition set_cpObjPool (w : World) (v : Pool) : World :=
  {| job := job w; cpObjPool := v; stored := stored w; trace := trace w;
     glog := glog w; rx := rx w; caller_wg := caller_wg w |}.
Definition set_stored (w : World) (v : list put_record) : World :=
  {| job := job w; cpObjPool := cpObjPool w; stored := v; trace := trace w;
     glog := glog w; rx := rx w; caller_wg := caller_wg w |}.
Definition set_trace (w : World) (v : list event) : World :=
  {| job := job w; cpObjPool := cpObjPool w; stored := stored w; trace := v;
     glog := glog w; rx := rx w; caller_wg := caller_wg w |}.
Definition set_glog (w : World) (v : list logline) : World :=
  {| job := job w; cpObjPool := cpObjPool w; stored := stored w; trace := trace w;
     glog := v; rx := rx w; caller_wg := caller_wg w |}.
Definition set_rx (w : World) (v : reader) : World :=
  {| job := job w; cpObjPool := cpObjPool w; stored := stored w; trace := trace w;
     glog := glog w; rx := v; caller_wg := caller_wg w |}.
Definition set_caller_wg (w : World) (v : option Z) : World :=
  {| job := job w; cpObjPool := cpObjPool w; stored := stored w; trace := trace w;
     glog := glog w; rx := rx w; caller_wg := v |}.

(** ** A state monad with panics *)

(** A computation transforms the world and returns a value, or panics
    ([None]) leaving the world as it was when the panic was raised. *)
Definition M (A : Type) : Type := World -> World * option A.

Definition ret {A : Type} (a : A) : M A := fun w => (w, Some a).
Definition panic {A : Type} : M A := fun w => (w, None).
Definition bind {A B : Type} (c : M A) (k : A -> M B) : M B :=
  fun w =>
    match c w with
    | (w', Some a) => k a w'
    | (w', None) => (w', None)
    end.

(** [defer d; body]: [d] runs when [body] is left, also by a panic. *)
Definition defer {A : Type} (d : M unit) (body : M A) : M A :=
  fun w =>
    let '(w1, a) := body w in
    let '(w2, u) := d w1 in
    (w2, match u with Some _ => a | None => None end).

Declare Scope m_scope.
Delimit Scope m_scope with m.
Notation "x <- c ;; k" := (bind c (fun x => k))
  (at level 61, c at next level, right associativity) : m_scope.
Notation "c ;;; k" := (bind c (fun _ => k))
  (at level 61, right associativity) : m_scope.
Local Open Scope m_scope.

Definition get_job : M XactTCB := fun w => (w, Some (job w)).
Definition modify_job (f : XactTCB -> XactTCB) : M unit :=
  fun w => (set_job w (f (job w)), Some tt).
Definition emit (ev : event) : M unit :=
  fun w => (set_trace w (trace w ++ [ev]), Some tt).
Definition emits (evs : list event) : M unit :=
  fun w => (set_trace w (trace w ++ evs), Some tt).
Definition glog_Error (e : error) : M unit :=
  fun w => (set_glog w (glog w ++ [LogError e]), Some tt).
Definition glog_Infoln (s : string) : M unit :=
  fun w => (set_glog w (glog w ++ [LogInfo s]), Some tt).
Definition assert_dbg (dbg : bool) (cond : bool) : M unit :=
  if debug_Assert dbg cond then ret tt else panic.

(** Modelled from the spec: [XactBase.ObjectsInc] and [XactBase.BytesAdd]
    (package xaction) add one to the object counter and the given size to the
    byte counter; both are 64-bit atomic counters. *)
Definition ObjectsInc : M unit :=
  modify_job (fun r => set_objects r (int64 (xb_objects r + 1))).
Definition BytesAdd (size : Z) : M unit :=
  modify_job (fun r => set_bytes r (int64 (xb_bytes r + size))).
(** [atomic.Int32.Dec]: takes one off and returns the new value. *)
Definition refc_Dec : M Z :=
  fun w =>
    let n := int32 (r_refc (job w) - 1) in
    (set_job w (set_refc (job w) n), Some n).
Definition err_Store (e : error) : M unit :=
  modify_job (fun r => set_err r (ErrValue_Store (r_err r) e)).
Definition err_Err : M (option error) :=
  fun w => (w, Some (ErrValue_Err (r_err (job w)))).

(** The data mover; a nil [dm] makes the call panic. *)
Definition with_dm (f : DataMover -> DataMover) (ev : event) : M unit :=
  r <- get_job ;;
  match r_dm r with
  | None => panic
  | Some d => modify_job (fun r => set_dm r (Some (f d))) ;;; emit ev
  end.
Definition dm_SetXact : M unit := with_dm (fun d => d) EvSetXact.
Definition dm_Open : M unit :=
  with_dm (fun d => {| dm_trname := dm_trname d; dm_sizePDU := dm_sizePDU d;
                       dm_registered := dm_registered d; dm_open := true;
                       dm_closed := dm_closed d |}) EvOpen.
Definition dm_Bcast (opcode : Z) : M unit := with_dm (fun d => d) (EvBcast opcode).
Definition dm_Close (err : option error) : M unit :=
  with_dm (fun d => {| dm_trname := dm_trname d; dm_sizePDU := dm_sizePDU d;
                       dm_registered := dm_registered d; dm_open := false;
                       dm_closed := Some err |}) (EvClose err).
Definition dm_UnregRecv : M unit :=
  with_dm (fun d => {| dm_trname := dm_trname d; dm_sizePDU := dm_sizePDU d;
                       dm_registered := false; dm_open := dm_open d;
                       dm_closed := dm_closed d |}) EvUnregRecv.
Definition Finish (err : option error) : M unit :=
  modify_job (fun r => set_finished r (Some err)) ;;; emit (EvFinish err).
(** [sync.WaitGroup.Done] on [r.wg]: the counter goes down by one, and the
    call panics when that leaves it negative. *)
Definition wg_Done : M unit :=
  fun w =>
    let n := r_wg (job w) - 1 in
    (set_job w (set_wg (job w) n), if n <? 0 then None else Some tt).

(** [wg.Done()] on the wait group [Run] is handed: a nil pointer panics, and
    so does a counter that would go negative. *)
Definition caller_wg_Done : M unit :=
  fun w =>
    match caller_wg w with
    | None => (w, None)
    | Some c =>
        let n := c - 1 in
        (set_caller_wg w (Some n), if n <? 0 then None else Some tt)
    end.

(** The pool, inside the world. *)
Definition alloc (pick : option nat) : M CopyObjectParams :=
  fun w =>
    let '(a, pool) := allocCpObjParams pick (cpObjPool w) in
    (set_cpObjPool w pool, Some a).
Definition free (a : CopyObjectParams) : M unit :=
  fun w => (set_cpObjPool w (freeCpObjParams a (cpObjPool w)), Some tt).

(** The payload stream.  Modelled from the spec: [cos.DrainReader] reads the
    stream to its end and [transport.FreeRecv] releases the receive resources
    of the stream; neither is declared in this package. *)
Definition reader_read (n : nat) : M unit :=
  fun w => (set_rx w {| rd_unread := rd_unread (rx w) - Nat.min n (rd_unread (rx w));
                        rd_freed := rd_freed (rx w);
                        rd_calls := rd_calls (rx w) ++ [CallRead n] |}, Some tt).
Definition DrainReader : M unit :=
  fun w => (set_rx w {| rd_unread := 0; rd_freed := rd_freed (rx w);
                        rd_calls := rd_calls (rx w) ++ [CallDrainReader] |}, Some tt).
Definition FreeRecv : M unit :=
  fun w => (set_rx w {| rd_unread := rd_unread (rx w); rd_freed := true;
                        rd_calls := rd_calls (rx w) ++ [CallFreeRecv] |}, Some tt).

(** ** The local copy callback *)

(** One visit of the jogger: the object, the buffer, and what the pool, the
    target's [CopyObject] and the capacity status answer. *)
Record visit := {
  v_lom : LOM;
  v_buf : list Z;
  v_pick : option nat;               (* cpObjPool.Get *)
  v_copy_size : Z;                   (* size returned by CopyObject *)
  v_copy_err : option error;         (* error returned by CopyObject *)
  v_copy_sent : list string;         (* records CopyObject pushed through the DM *)
  v_cap_err : option error           (* fs.GetCapStatus().Err *)
}.

Definition Target_CopyObject (v : visit) (params : CopyObjectParams)
  : M (Z * option error) :=
  emit (EvCopyObject (lom_ObjName (v_lom v)) params) ;;;
  emits (map EvSend (v_copy_sent v)) ;;;
  ret (v_copy_size v, v_copy_err v).

Definition copyObject (v : visit) : M (option error) :=
  r <- get_job ;;
  let lom := v_lom v in
  let objNameTo := ToName (Msg (r_args r)) (lom_ObjName lom) in
  params <- alloc (v_pick v) ;;
  let params :=
    {| p_BckTo := Some (BckTo (r_args r));
       p_ObjNameTo := objNameTo;
       p_Buf := v_buf v;
       p_DM := option_map dm_trname (r_dm r);
       p_DP := DP (r_args r);
       p_DryRun := DryRun (Msg (r_args r)) |} in
  res <- Target_CopyObject v params ;;
  let '(size, err) := res in
  err <- match err with
         | Some e =>
             ret (Some (if IsErrOOS e
                        then ErrAborted (XactTCB_Name r) "copy-obj" (Some e)
                        else e))
         | None =>
             ObjectsInc ;;;
             let size := if size =? ContentLengthUnknown then lom_SizeBytes lom else size in
             BytesAdd size ;;;
             match v_cap_err v with
             | Some ce => ret (Some (ErrAborted (XactTCB_Name r) "copy-obj" (Some ce)))
             | None => ret None
             end
         end ;;
  (* ret: *)
  free params ;;;
  ret err.

(** ** The receive handler *)

(** One invocation of the handler: header, stream, transport error, and what
    [lom.Init] and the target's [PutObject] answer. *)
Record recv_in := {
  m_hdr : ObjHdr;
  m_reader : reader;
  m_err : option error;
  m_init_err : option error;         (* lom.Init(hdr.Bck) *)
  m_put_reads : nat;                 (* bytes PutObject reads off the stream *)
  m_put_err : option error           (* error returned by PutObject *)
}.

Definition Target_PutObject (m : recv_in) : M (option error) :=
  emit (EvPutObject (ObjName (m_hdr m))) ;;;
  reader_read (m_put_reads m) ;;;
  match m_put_err m with
  | Some e => ret (Some e)
  | None =>
      (fun w => (set_stored w (stored w ++
                   [{| put_ObjName := ObjName (m_hdr m); put_Bck := hdr_Bck (m_hdr m);
                       put_Attrs := hdr_ObjAttrs (m_hdr m) |}]), Some tt)) ;;;
      ret None
  end.

Definition transport_failed (err : option error) : bool :=
  match err with
  | Some e => negb (IsEOF e)
  | None => false
  end.

Definition recv (dbg : bool) (m : recv_in) : M unit :=
  (* objReader: the stream the handler is given *)
  (fun w => (set_rx w (m_reader m), Some tt)) ;;;
  defer FreeRecv (
    if transport_failed (m_err m) then
      match m_err m with Some e => glog_Error e | None => ret tt end
    else if Opcode (m_hdr m) =? doneSendingOpcode then
      refc <- refc_Dec ;;
      assert_dbg dbg (0 <=? refc)
    else
      assert_dbg dbg (Opcode (m_hdr m) =? 0) ;;;
      defer DrainReader (
        e <- err_Err ;;
        match e with
        | Some _ => ret tt
        | None =>
            (* AllocLOM; defer FreeLOM *)
            match m_init_err m with
            | Some e => err_Store e ;;; glog_Error e
            | None =>
                (* lom.CopyAttrs(&hdr.ObjAttrs, true) *)
                perr <- Target_PutObject m ;;
                match perr with
                | Some e => err_Store e ;;; glog_Error e
                | None => ret tt
                end
            end
        end)).

(** ** The jogger, quiescence and Run *)

Inductive step : Type :=
| Visit (v : visit)
| Recv (m : recv_in).

(** Modelled from the spec: [XactBckJog.Run] followed by [XactBckJog.Wait]
    (package xaction) walks the local objects calling the visit callback on
    each, stops enumerating at the first error a visit returns, and [Wait]
    returns that error.  Receive handlers run in between; [jerr] is the
    jogger's error so far. *)
Fixpoint walk (dbg : bool) (jerr : option error) (steps : list step) : M (option error) :=
  match steps with
  | [] => ret jerr
  | Visit v :: rest =>
      match jerr with
      | Some _ => walk dbg jerr rest
      | None => e <- copyObject v ;; walk dbg e rest
      end
  | Recv m :: rest => recv dbg m ;;; walk dbg jerr rest
  end.

Fixpoint recvs (dbg : bool) (ms : list recv_in) : M unit :=
  match ms with
  | [] => ret tt
  | m :: rest => recv dbg m ;;; recvs dbg rest
  end.

(** Modelled from the spec: [cluster.QuiRes] as [Quiesce] resolves it:
    quiesced, aborted or timed out. *)
Inductive QuiRes := Quiescent | QuiAborted | QuiTimeout.

(** Modelled from the spec: [XactBase.Quiesce] (package xaction) waits while
    handlers keep arriving and resolves to [q]. *)
Definition Quiesce (dbg : bool) (arrivals : list recv_in) (q : QuiRes) : M QuiRes :=
  recvs dbg arrivals ;;; ret q.

(** The terminal error [Run] computes from the jogger's error, the stored
    error and the outcome of the wait. *)
Definition final_err (r : XactTCB) (jerr : option error) (q : QuiRes) : option error :=
  let err := jerr in
  let err := match err with
             | None => ErrValue_Err (r_err r)
             | Some _ => err
             end in
  match err with
  | None =>
      match q with
      | QuiAborted => Some (ErrAborted (XactTCB_Name r) "" None)
      | QuiTimeout => Some (Errorf_sv (XactTCB_String r) ErrQuiesceTimeout)
      | Quiescent => None
      end
  | Some _ => err
  end.

Definition Run (dbg : bool) (during_jog : list step) (during_wait : list recv_in)
  (q : QuiRes) : M unit :=
  dm_SetXact ;;;
  dm_Open ;;;
  (* wg.Done() *)
  caller_wg_Done ;;;
  (* r.wg.Done() *)
  wg_Done ;;;
  (* XactBckJog.Run(); glog.Infoln(r.Name()); err := XactBckJog.Wait() *)
  r <- get_job ;;
  glog_Infoln (XactTCB_Name r) ;;;
  err <- walk dbg None during_jog ;;
  dm_Bcast doneSendingOpcode ;;;
  q <- Quiesce dbg during_wait q ;;
  r <- get_job ;;
  let err := final_err r err q in
  (* close *)
  dm_Close err ;;;
  dm_UnregRecv ;;;
  Finish err.

(** [TxnAbort]: limited pre-run abort. *)
Definition TxnAbort : M unit :=
  r <- get_job ;;
  let err := Some (ErrAborted (XactTCB_Name r) "txn-abort" None) in
  match r_dm r with
  | None => panic
  | Some d =>
      (if dm_open d then dm_Close err else ret tt) ;;;
      dm_UnregRecv ;;;
      Finish err
  end.


(** * Package certloader: loading and reloading the X.509 certificate

    The loader keeps the certificate it loaded last together with the
    modification time and size of its file; a housekeeping callback
    reloads the file when it changed and raises the node's certificate
    alerts.  The file system, the TLS library and the clock are represented
    by the answers they give. *)

Module CertLoader.

Definition name : string := "tls-cert-loader".

(** ** Time: instants and durations in nanoseconds *)

Definition Second : Z := 1000000000.
Definition Minute : Z := 60 * Second.
Definition Hour : Z := 60 * Minute.

Definition dfltTimeInvalid : Z := Hour.

Definition minDuration : Z := - 2 ^ 63.
Definition maxDuration : Z := 2 ^ 63 - 1.

(** [time.Time.Sub]: the difference [t - u], saturated to a Duration. *)
Definition Time_Sub (t u : Z) : Z :=
  if t - u >? maxDuration then maxDuration
  else if t - u <? minDuration then minDuration
  else t - u.

(** [time.Until(t)] when the clock reads [now]. *)
Definition time_Until (now t : Z) : Z := Time_Sub t now.

(** [t.After(u)] and [t.Before(u)]. *)
Definition Time_After (t u : Z) : bool := u <? t.
Definition Time_Before (t u : Z) : bool := t <? u.

(** ** Data *)

Record FileInfo := {
  fi_ModTime : Z;
  fi_Size : Z
}.

(** [x509.Certificate] as far as the loader reads it. *)
Record x509Certificate := {
  NotBefore : Z;
  NotAfter : Z
}.

(** [tls.Certificate]: the chain (one name per DER block) and the parsed
    leaf, if the TLS library filled it in. *)
Record tlsCertificate := {
  Chain : list string;
  Leaf : option x509Certificate
}.

Record xcert := {
  Certificate : tlsCertificate;
  modTime : Z;
  notBefore : Z;
  notAfter : Z;
  size : Z
}.

(** [cos.NodeAlerts] as far as this package reads and writes it: the two
    certificate flags of the node's state flags. *)
Record alerts := {
  CertificateExpired : bool;
  CertificateInvalid : bool
}.

Inductive cl_error : Type :=
| ErrFstat (certFile cause : string)
      (* "%s: failed to fstat %q, err: %w" *)
| ErrLoad (certFile keyFile cause : string)
      (* "%s: failed to load (%s, %s), err: %w" *)
| ErrParse (certFile cause : string)
      (* "%s: failed to parse %q, err: %w" *)
| ErrInvalid (certFile keyFile : string)
      (* "%s: (%s, %s) is invalid" *)
| errExpired (certFile : string) (validUntil : Z).
      (* &errExpired{fmt.Sprintf(fmtErrExpired, name, certFile, notAfter)} *)

Definition isExpired (err : cl_error) : bool :=
  match err with
  | errExpired _ _ => true
  | _ => false
  end.

Inductive cl_log : Type :=
| Errorln_fatal (err : cl_error)              (* nlog.Errorln("FATAL:", err) *)
| Errorln (err : cl_error)                    (* nlog.Errorln(err) *)
| Warningln_not_yet (certFile : string) (nb na : Z)
| Warningln_soon (certFile : string) (rem : Z)
| Errorln_soon (certFile : string) (rem : Z)
| Infoln (x : xcert).                         (* nlog.Infoln(xcert.String()) *)

(** The loader; [cl_xcert] is the atomic pointer ([None]: nothing stored),
    [cl_tstats] the alerts behind the stats updater, [cl_nlog] what the
    package logged so far. *)
Record certLoader := {
  cl_tstats : alerts;
  cl_certFile : string;
  cl_keyFile : string;
  cl_xcert : option xcert;
  cl_nlog : list cl_log
}.

Definition set_tstats (cl : certLoader) (a : alerts) : certLoader :=
  {| cl_tstats := a; cl_certFile := cl_certFile cl; cl_keyFile := cl_keyFile cl;
     cl_xcert := cl_xcert cl; cl_nlog := cl_nlog cl |}.
Definition set_xcert (cl : certLoader) (x : option xcert) : certLoader :=
  {| cl_tstats := cl_tstats cl; cl_certFile := cl_certFile cl; cl_keyFile := cl_keyFile cl;
     cl_xcert := x; cl_nlog := cl_nlog cl |}.
Definition nlog (cl : certLoader) (l : list cl_log) : certLoader :=
  {| cl_tstats := cl_tstats cl; cl_certFile := cl_certFile cl; cl_keyFile := cl_keyFile cl;
     cl_xcert := cl_xcert cl; cl_nlog := cl_nlog cl ++ l |}.

(** [SetFlag] and [ClrFlag] on the alerts. *)
Definition SetFlag_Expired (cl : certLoader) : certLoader :=
  set_tstats cl {| CertificateExpired := true;
                   CertificateInvalid := CertificateInvalid (cl_tstats cl) |}.
Definition SetFlag_Invalid (cl : certLoader) : certLoader :=
  set_tstats cl {| CertificateExpired := CertificateExpired (cl_tstats cl);
                   CertificateInvalid := true |}.
Definition ClrFlag_Expired_Invalid (cl : certLoader) : certLoader :=
  set_tstats cl {| CertificateExpired := false; CertificateInvalid := false |}.

(** What the file system, the TLS library and the clock answer during one
    [do]. *)
Record do_in := {
  os_Stat : FileInfo + string;               (* os.Stat(certFile) *)
  LoadX509KeyPair : tlsCertificate + string; (* tls.LoadX509KeyPair *)
  ParseCertificate : x509Certificate + string; (* x509.ParseCertificate *)
  Now : Z                                    (* time.Now() in ini *)
}.

(** ** xcert.ini

    Returns the xcert as the call leaves it, what it logged and the error.
    Indexing an empty chain panics. *)
Definition ini (certFile : string) (i : do_in) (finfo : FileInfo) (x : xcert)
  : outcome (xcert * list cl_log * option cl_error) :=
  let filled (leaf : x509Certificate) :=
    let x := {| Certificate := {| Chain := Chain (Certificate x); Leaf := Some leaf |};
                modTime := fi_ModTime finfo;
                notBefore := NotBefore leaf;
                notAfter := NotAfter leaf;
                size := fi_Size finfo |} in
    let now := Now i in
    if Time_After now (notAfter x) then
      Returned (x, [], Some (errExpired certFile (notAfter x)))
    else if Time_Before now (notBefore x) then
      Returned (x, [Warningln_not_yet certFile (notBefore x) (notAfter x)], None)
    else
      Returned (x, [], None) in
  match Leaf (Certificate x) with
  | Some leaf => filled leaf
  | None =>
      match Chain (Certificate x) with
      | [] => Panicked
      | _ :: _ =>
          match ParseCertificate i with
          | inr cause => Returned (x, [], Some (ErrParse certFile cause))
          | inl leaf => filled leaf
          end
      end
  end.

(** ** certLoader.do *)

(** Steps 3 and 4 of [do]: read and parse the pair, then store it. *)
Definition do_reload (cl : certLoader) (i : do_in) (finfo : FileInfo)
  : outcome (certLoader * option cl_error) :=
  (* 3. read and parse *)
  match LoadX509KeyPair i with
  | inr cause => Returned (cl, Some (ErrLoad (cl_certFile cl) (cl_keyFile cl) cause))
  | inl c =>
      let x := {| Certificate := c; modTime := 0; notBefore := 0; notAfter := 0;
                  size := 0 |} in
      match ini (cl_certFile cl) i finfo x with
      | Panicked => Panicked
      | Returned (x, logged, Some err) => Returned (nlog cl logged, Some err)
      | Returned (x, logged, None) =>
          (* 4. ok *)
          let cl := nlog cl logged in
          let cl := ClrFlag_Expired_Invalid cl in
          let cl := set_xcert cl (Some x) in
          Returned (nlog cl [Infoln x], None)
      end
  end.

Definition do (cl : certLoader) (compare : bool) (i : do_in)
  : outcome (certLoader * option cl_error) :=
  (* 1. fstat *)
  match os_Stat i with
  | inr cause => Returned (cl, Some (ErrFstat (cl_certFile cl) cause))
  | inl finfo =>
      (* 2. updated? *)
      if compare then
        match cl_xcert cl with
        | None => Panicked
        | Some loaded =>
            if (fi_ModTime finfo =? modTime loaded) && (fi_Size finfo =? size loaded)
            then Returned (cl, None)
            else do_reload cl i finfo
        end
      else do_reload cl i finfo
  end.

(** ** Load, hktime, hk *)

Definition Load (gcl : certLoader) (i : do_in) : outcome (certLoader * option cl_error) :=
  match do gcl false i with
  | Panicked => Panicked
  | Returned (gcl, None) => Returned (gcl, None)
  | Returned (gcl, Some err) =>
      if isExpired err
      then Returned (SetFlag_Expired gcl, Some err)
      else Returned (SetFlag_Invalid gcl, Some err)
  end.

(** [now] is what the clock reads when [time.Until] is evaluated. *)
Definition hktime (cl : certLoader) (now : Z) : outcome (certLoader * Z) :=
  if CertificateExpired (cl_tstats cl) || CertificateInvalid (cl_tstats cl) then
    Returned (cl, dfltTimeInvalid)
  else
    (* (still) valid *)
    match cl_xcert cl with
    | None => Panicked
    | Some x =>
        let rem := time_Until now (notAfter x) in
        if rem >? 24 * Hour then Returned (cl, 6 * Hour)
        else if rem >? 6 * Hour then Returned (cl, Hour)
        else if rem >? Hour then Returned (cl, 10 * Minute)
        else if rem >? 10 * Minute then
          Returned (nlog cl [Warningln_soon (cl_certFile cl) rem], Minute)
        else if rem >? 0 then
          Returned (nlog cl [Errorln_soon (cl_certFile cl) rem], Minute)
        else (* expired *)
          Returned (SetFlag_Expired cl, dfltTimeInvalid)
    end.

Definition hk (cl : certLoader) (i : do_in) (now : Z) : outcome (certLoader * Z) :=
  match do cl true i with
  | Panicked => Panicked
  | Returned (cl, Some err) => hktime (nlog cl [Errorln err]) now
  | Returned (cl, None) => hktime cl now
  end.

(** ** errorf and the callbacks *)

Definition errorf (cl : certLoader) : outcome (option cl_error) :=
  if CertificateInvalid (cl_tstats cl) then
    Returned (Some (ErrInvalid (cl_certFile cl) (cl_keyFile cl)))
  else if CertificateExpired (cl_tstats cl) then
    match cl_xcert cl with
    | None => Panicked
    | Some x => Returned (Some (errExpired (cl_certFile cl) (notAfter x)))
    end
  else Returned None.

Definition _get (cl : certLoader) : outcome tlsCertificate :=
  match cl_xcert cl with
  | None => Panicked
  | Some x => Returned (Certificate x)
  end.

(** The callbacks are bound to the loader, not to a certificate: each call
    reads what the loader holds then. *)
Inductive callback := bound_hello | bound_info.

Definition _hello (cl : certLoader) : outcome (tlsCertificate * option cl_error) :=
  match _get cl with
  | Panicked => Panicked
  | Returned c => Returned (c, None)
  end.

Definition _info (cl : certLoader) : outcome (tlsCertificate * option cl_error) :=
  match _get cl with
  | Panicked => Panicked
  | Returned c => Returned (c, None)
  end.

(** [gcl] is the package's loader, [None] before [Init]. *)
Definition GetCert (gcl : option certLoader) : outcome (option callback * option cl_error) :=
  match gcl with
  | None => Panicked
  | Some cl =>
      match errorf cl with
      | Panicked => Panicked
      | Returned (Some err) => Returned (None, Some err)
      | Returned None => Returned (Some bound_hello, None)
      end
  end.

Definition GetClientCert (gcl : option certLoader)
  : outcome (option callback * option cl_error) :=
  match gcl with
  | None => Panicked
  | Some cl =>
      match errorf cl with
      | Panicked => Panicked
      | Returned (Some err) => Returned (None, Some err)
      | Returned None => Returned (Some bound_info, None)
      end
  end.

(** ** Init

    Returns the package's loader as the call leaves it, the error, and the
    interval the housekeeper was registered with, if it was. *)
Definition Init (dbg : bool) (gcl : option certLoader) (certFile keyFile : string)
  (tstats : alerts) (i : do_in) (now : Z)
  : outcome (option certLoader * option cl_error * option Z) :=
  if String.eqb certFile "" && String.eqb keyFile "" then Returned (gcl, None, None)
  else if negb (debug_Assert dbg (match gcl with None => true | Some _ => false end))
  then Panicked
  else
    let gcl := {| cl_tstats := tstats; cl_certFile := certFile; cl_keyFile := keyFile;
                  cl_xcert := None; cl_nlog := match gcl with
                                               | Some old => cl_nlog old
                                               | None => []
                                               end |} in
    match Load gcl i with
    | Panicked => Panicked
    | Returned (gcl, Some err) =>
        Returned (Some (nlog gcl [Errorln_fatal err]), Some err, None)
    | Returned (gcl, None) =>
        match hktime gcl now with
        | Panicked => Panicked
        | Returned (gcl, d) => Returned (Some gcl, None, Some d)
        end
    end.

End CertLoader.
(** * Properties *)

(** ** Admission *)

(** The condition the admission protocol expects of a continuation: same
    job, same source bucket (same BID, same backend), begin then commit. *)
Definition commit_continuation (e prev : tcbFactory) : bool :=
  String.eqb (e_UUID e) (e_UUID prev)
  && Bck_Equal (BckFrom (e_args prev)) (BckFrom (e_args e)) true true
  && (String.eqb (e_phase prev) ActBegin && String.eqb (e_phase e) ActCommit).

Definition transitioned (prev : tcbFactory) : tcbFactory :=
  {| e_UUID := e_UUID prev; e_Bck := e_Bck prev; e_xact := e_xact prev;
     e_kind := e_kind prev; e_phase := e_phase prev;
     e_args := TCBArgs_set_Phase (e_args prev) ActCommit |}.

Module Sample.

Definition bckA : Bck :=
  {| bck_Name := "A"; bck_Provider := "ais"; bck_BID := 7; bck_Backend := None |}.
Definition bckB : Bck :=
  {| bck_Name := "B"; bck_Provider := "ais"; bck_BID := 8; bck_Backend := None |}.
Definition msg : TCBMsg :=
  {| ToName := fun n => ("copy-" ++ n)%string; DryRun := false |}.
Definition args (phase : string) (from : Bck) : TCBArgs :=
  {| Phase := phase; BckFrom := from; BckTo := bckB; DP := None; Msg := msg |}.
Definition factory (uuid phase : string) (from : Bck) : tcbFactory :=
  {| e_UUID := uuid; e_Bck := bckB; e_xact := None; e_kind := "copy-bck";
     e_phase := phase; e_args := args phase from |}.

Definition started (ntargets : Z) : start_in :=
  {| si_slab_err := None; si_name := "copy-bck[u1]"; si_str := "copy-bck[u1]";
     si_CountTargets := ntargets; si_newdm_err := None; si_regrecv_err := None |}.

(** The xaction as [Start] leaves it in a cluster of [ntargets] targets. *)
Definition xact (ntargets : Z) : XactTCB :=
  match Start (factory "u1" ActBegin bckA) (started ntargets) with
  | Returned ({| e_xact := Some r |}, _) => r
  | _ => newXactTCB (factory "u1" ActBegin bckA) "" ""
  end.

Definition world (ntargets : Z) : World :=
  {| job := xact ntargets; cpObjPool := []; stored := []; trace := []; glog := [];
     rx := {| rd_unread := 0; rd_freed := false; rd_calls := [] |};
     caller_wg := Some 1 |}.

Definition hdr (opcode : Z) (name : string) (size : Z) : ObjHdr :=
  {| Opcode := opcode; hdr_Bck := bckB; ObjName := name;
     hdr_ObjAttrs := {| attr_Size := size; attr_Cksum := "" |} |}.

Definition done_marker : recv_in :=
  {| m_hdr := hdr doneSendingOpcode "" 0;
     m_reader := {| rd_unread := 0; rd_freed := false; rd_calls := [] |};
     m_err := None; m_init_err := None; m_put_reads := 0; m_put_err := None |}.

Definition data (name : string) (size : nat) (put_err : option error) : recv_in :=
  {| m_hdr := hdr 0 name (Z.of_nat size);
     m_reader := {| rd_unread := size; rd_freed := false; rd_calls := [] |};
     m_err := None; m_init_err := None; m_put_reads := size; m_put_err := put_err |}.

Definition obj (name : string) (size : Z) (copy_size : Z) (copy_err cap_err : option error)
  : visit :=
  {| v_lom := {| lom_ObjName := name; lom_SizeBytes := size |}; v_buf := [];
     v_pick := Some 0%nat; v_copy_size := copy_size; v_copy_err := copy_err;
     v_copy_sent := [name]; v_cap_err := cap_err |}.

(** The factory as [Start] leaves it. *)
Definition started_factory (ntargets : Z) : tcbFactory :=
  match Start (factory "u1" ActBegin bckA) (started ntargets) with
  | Returned (e', _) => e'
  | Panicked => factory "u1" ActBegin bckA
  end.

(** A record whose transport failed half way through its payload. *)
Definition broken (name : string) (unread : nat) : recv_in :=
  {| m_hdr := hdr 0 name 0;
     m_reader := {| rd_unread := unread; rd_freed := false; rd_calls := [] |};
     m_err := Some (ErrOther "connection reset"); m_init_err := None;
     m_put_reads := 0; m_put_err := None |}.

Definition E1 : error := ErrOther "put failed".
Definition E2 : error := ErrOther "copy failed".

End Sample.


(** ** Vocabulary of the properties *)

(** A data event: the target copies an object or pushes a record to a peer. *)
Definition is_data (ev : event) : bool :=
  match ev with
  | EvSend _ | EvCopyObject _ _ => true
  | _ => false
  end.

(** The done-sending marker going out. *)
Definition is_marker (ev : event) : bool :=
  match ev with
  | EvBcast op => op =? doneSendingOpcode
  | _ => false
  end.

Definition is_put (ev : event) : bool :=
  match ev with
  | EvPutObject _ => true
  | _ => false
  end.

(** A record the handler counts as a peer's done marker: it arrives without
    a transport failure and carries the done-sending opcode. *)
Definition is_done (m : recv_in) : bool :=
  negb (transport_failed (m_err m)) && (Opcode (m_hdr m) =? doneSendingOpcode).

(** A record the handler takes for data. *)
Definition is_payload (m : recv_in) : bool :=
  negb (transport_failed (m_err m)) && negb (Opcode (m_hdr m) =? doneSendingOpcode).

Fixpoint done_markers (steps : list step) : Z :=
  match steps with
  | [] => 0
  | Recv m :: rest => (if is_done m then 1 else 0) + done_markers rest
  | Visit _ :: rest => done_markers rest
  end.

(** Every record carries one of the two opcodes of the protocol. *)
Definition known_opcode (m : recv_in) : Prop :=
  Opcode (m_hdr m) = 0 \/ Opcode (m_hdr m) = doneSendingOpcode.

Fixpoint known_opcodes (steps : list step) : Prop :=
  match steps with
  | [] => True
  | Recv m :: rest => known_opcode m /\ known_opcodes rest
  | Visit _ :: rest => known_opcodes rest
  end.

(** What [copyObject] returns for a visit, by the answers of the target and
    of the capacity status. *)
Definition visit_error (r : XactTCB) (v : visit) : option error :=
  match v_copy_err v with
  | Some e =>
      Some (if IsErrOOS e then ErrAborted (XactTCB_Name r) "copy-obj" (Some e) else e)
  | None =>
      match v_cap_err v with
      | Some ce => Some (ErrAborted (XactTCB_Name r) "copy-obj" (Some ce))
      | None => None
      end
  end.

(** The error of the first visit that fails, in the order of the schedule. *)
Fixpoint first_visit_error (r : XactTCB) (steps : list step) : option error :=
  match steps with
  | [] => None
  | Visit v :: rest =>
      match visit_error r v with
      | Some e => Some e
      | None => first_visit_error r rest
      end
  | Recv _ :: rest => first_visit_error r rest
  end.

(** The bytes a successful visit adds to the byte counter. *)
Definition visit_bytes (v : visit) : Z :=
  if v_copy_size v =? ContentLengthUnknown then lom_SizeBytes (v_lom v) else v_copy_size v.

(** The copy reports a size or that the size is unknown, and sizes are not
    negative. *)
Definition sane_sizes (v : visit) : Prop :=
  0 <= lom_SizeBytes (v_lom v)
  /\ (v_copy_size v = ContentLengthUnknown \/ 0 <= v_copy_size v).

Fixpoint visits_of (steps : list step) : list visit :=
  match steps with
  | [] => []
  | Visit v :: rest => v :: visits_of rest
  | Recv _ :: rest => visits_of rest
  end.

Fixpoint recvs_of (steps : list step) : list recv_in :=
  match steps with
  | [] => []
  | Visit _ :: rest => recvs_of rest
  | Recv m :: rest => m :: recvs_of rest
  end.

Definition total_bytes (vs : list visit) : Z :=
  fold_right (fun v acc => visit_bytes v + acc) 0 vs.

Definition pool_zeroed (pool : Pool) : Prop := Forall (fun a => a = cpObj0) pool.

(** Fields of the xaction that no operation of a running job changes. *)
Definition same_identity (r r' : XactTCB) : Prop :=
  xb_name r' = xb_name r /\ xb_str r' = xb_str r /\ r_args r' = r_args r
  /\ xb_id r' = xb_id r /\ xb_kind r' = xb_kind r.

(** Unfolding the monadic operations. *)
Ltac unfold_m :=
  cbv [recv copyObject Target_CopyObject Target_PutObject Quiesce
       bind ret panic defer get_job modify_job emit emits
       glog_Error glog_Infoln assert_dbg ObjectsInc BytesAdd refc_Dec err_Store err_Err
       with_dm dm_SetXact dm_Open dm_Bcast dm_Close dm_UnregRecv Finish wg_Done
       caller_wg_Done alloc free
       reader_read DrainReader FreeRecv].

(** Case analysis on the tests a hypothesis or the goal still branches on. *)
Ltac split_tests :=
  repeat match goal with
         | |- context [if negb ?c then _ else _] => destruct c eqn:?; simpl
         | |- context [if ?c then _ else _] => destruct c eqn:?; simpl
         | |- context [match ?c with Some _ => _ | None => _ end] => destruct c eqn:?; simpl
         end.

(** The xaction after a visit: a successful copy counts the object and its
    bytes, a failed one counts nothing. *)
Definition counted (v : visit) (r : XactTCB) : XactTCB :=
  match v_copy_err v with
  | Some _ => r
  | None =>
      set_bytes (set_objects r (int64 (xb_objects r + 1)))
                (int64 (xb_bytes r + visit_bytes v))
  end.

(** The parameters [copyObject] hands to the target. *)
Definition params_of (r : XactTCB) (v : visit) : CopyObjectParams :=
  {| p_BckTo := Some (BckTo (r_args r));
     p_ObjNameTo := ToName (Msg (r_args r)) (lom_ObjName (v_lom v));
     p_Buf := v_buf v;
     p_DM := option_map dm_trname (r_dm r);
     p_DP := DP (r_args r);
     p_DryRun := DryRun (Msg (r_args r)) |}.

Ltac split_and := repeat match goal with |- _ /\ _ => split end.

(** The two ends of [Run]: what it does before the jogger starts and after
    the wait resolves. *)
Definition opening : M unit :=
  (dm_SetXact ;;;
   dm_Open ;;;
   caller_wg_Done ;;;
   wg_Done ;;;
   r <- get_job ;;
   glog_Infoln (XactTCB_Name r))%m.

Definition closing (err : option error) : M unit :=
  (dm_Close err ;;;
   dm_UnregRecv ;;;
   Finish err)%m.

(** The job is over: the data mover is closed with [err] and unregistered,
    and the xaction finished with [err]. *)
Definition finished_with (err : option error) (r : XactTCB) : Prop :=
  xb_finished r = Some err
  /\ exists d, r_dm r = Some d /\ dm_open d = false /\ dm_registered d = false
               /\ dm_closed d = Some err.

(** No debug assertion of the handler can fail along [steps]: the build is
    not a debug build, or the records carry known opcodes and no more done
    markers arrive than the counter expects. *)
Definition no_assertion_fails (dbg : bool) (w : World) (steps : list step) : Prop :=
  dbg = false
  \/ (known_opcodes steps
      /\ 0 <= r_refc (job w) < 2 ^ 31
      /\ done_markers steps <= r_refc (job w)).

(** The terminal error the outcome of the wait stands for when nothing
    failed before. *)
Definition outcome_error (r : XactTCB) (q : QuiRes) : option error :=
  match q with
  | Quiescent => None
  | QuiAborted => Some (ErrAborted (XactTCB_Name r) "" None)
  | QuiTimeout => Some (Errorf_sv (XactTCB_String r) ErrQuiesceTimeout)
  end.

(** ** Vocabulary of the further properties *)

(** The error a data record leaves in the error slot when the slot is
    empty: the local object is not resolved, or persisting fails. *)
Definition recv_failure (m : recv_in) : option error :=
  if is_payload m then
    match m_init_err m with
    | Some e => Some e
    | None => m_put_err m
    end
  else None.

Fixpoint first_recv_failure (ms : list recv_in) : option error :=
  match ms with
  | [] => None
  | m :: rest =>
      match recv_failure m with
      | Some e => Some e
      | None => first_recv_failure rest
      end
  end.

Definition put_record_of (m : recv_in) : put_record :=
  {| put_ObjName := ObjName (m_hdr m); put_Bck := hdr_Bck (m_hdr m);
     put_Attrs := hdr_ObjAttrs (m_hdr m) |}.

(** The data records that arrive before the first failing one. *)
Fixpoint persisted (ms : list recv_in) : list put_record :=
  match ms with
  | [] => []
  | m :: rest =>
      match recv_failure m with
      | Some _ => []
      | None => (if is_payload m then [put_record_of m] else []) ++ persisted rest
      end
  end.

(** What the walk asks of the target: copies, sends and puts. *)
Definition is_target_call (ev : event) : bool := is_data ev || is_put ev.

Module CertSample.

Definition leaf : CertLoader.x509Certificate :=
  {| CertLoader.NotBefore := 1000; CertLoader.NotAfter := 1000 + 48 * CertLoader.Hour |}.

Definition pair : CertLoader.tlsCertificate :=
  {| CertLoader.Chain := ["leaf.der"%string]; CertLoader.Leaf := None |}.

Definition fresh : CertLoader.certLoader :=
  {| CertLoader.cl_tstats := {| CertLoader.CertificateExpired := false;
                                CertLoader.CertificateInvalid := false |};
     CertLoader.cl_certFile := "server.crt"; CertLoader.cl_keyFile := "server.key";
     CertLoader.cl_xcert := None; CertLoader.cl_nlog := [] |}.

(** The file as it is on disk at [mtime], read when the clock shows [now]. *)
Definition disk (mtime now : Z) : CertLoader.do_in :=
  {| CertLoader.os_Stat := inl {| CertLoader.fi_ModTime := mtime; CertLoader.fi_Size := 1200 |};
     CertLoader.LoadX509KeyPair := inl pair;
     CertLoader.ParseCertificate := inl leaf;
     CertLoader.Now := now |}.

Definition missing (now : Z) : CertLoader.do_in :=
  {| CertLoader.os_Stat := inr "no such file"%string;
     CertLoader.LoadX509KeyPair := inr "no such file"%string;
     CertLoader.ParseCertificate := inr "no data"%string;
     CertLoader.Now := now |}.

(** The loader after a first successful load at instant 2000. *)
Definition loaded : CertLoader.certLoader :=
  match CertLoader.Load fresh (disk 500 2000) with
  | Returned (cl, _) => cl
  | Panicked => fresh
  end.

End CertSample.

(** The interval the housekeeper asks for, by the lifetime the certificate
    has left. *)
Definition hk_interval (rem : Z) : Z :=
  if rem >? 24 * CertLoader.Hour then 6 * CertLoader.Hour
  else if rem >? 6 * CertLoader.Hour then CertLoader.Hour
  else if rem >? CertLoader.Hour then 10 * CertLoader.Minute
  else if rem >? 0 then CertLoader.Minute
  else CertLoader.dfltTimeInvalid.

Definition no_alert (cl : CertLoader.certLoader) : Prop :=
  CertLoader.cl_tstats cl
  = {| CertLoader.CertificateExpired := false; CertLoader.CertificateInvalid := false |}.

(** The file on disk is not the one the loader holds. *)
Definition file_changed (finfo : CertLoader.FileInfo) (x : CertLoader.xcert) : Prop :=
  CertLoader.fi_ModTime finfo <> CertLoader.modTime x
  \/ CertLoader.fi_Size finfo <> CertLoader.size x.

(** What an error of [do] says about the answers it got. *)
Definition certloader_error_cause (cl : CertLoader.certLoader) (i : CertLoader.do_in)
  (err : CertLoader.cl_error) : Prop :=
  match err with
  | CertLoader.ErrFstat f cause =>
      f = CertLoader.cl_certFile cl /\ CertLoader.os_Stat i = inr cause
  | CertLoader.ErrLoad f k cause =>
      f = CertLoader.cl_certFile cl /\ k = CertLoader.cl_keyFile cl
      /\ CertLoader.LoadX509KeyPair i = inr cause
  | CertLoader.ErrParse f cause =>
      f = CertLoader.cl_certFile cl /\ CertLoader.ParseCertificate i = inr cause
  | CertLoader.errExpired f t =>
      f = CertLoader.cl_certFile cl /\ t < CertLoader.Now i
  | CertLoader.ErrInvalid _ _ => False
  end.

(** The loader after a reload stored [x]. *)
Definition certloader_stored (cl : CertLoader.certLoader) (logged : list CertLoader.cl_log)
  (x : CertLoader.xcert) : CertLoader.certLoader :=
  CertLoader.nlog
    (CertLoader.set_xcert
       (CertLoader.ClrFlag_Expired_Invalid (CertLoader.nlog cl logged)) (Some x))
    [CertLoader.Infoln x].


(** The leaf [ini] works with: the one the TLS library filled in, else the
    one parsed from the head of the chain. *)
Definition leaf_of (i : CertLoader.do_in) (c : CertLoader.tlsCertificate)
  : option CertLoader.x509Certificate :=
  match CertLoader.Leaf c with
  | Some leaf => Some leaf
  | None =>
      match CertLoader.Chain c with
      | [] => None
      | _ :: _ =>
          match CertLoader.ParseCertificate i with
          | inl leaf => Some leaf
          | inr _ => None
          end
      end
  end.

(** * Lemmas *)

(** ** Machine integers *)

Lemma int32_small (x : Z) : - 2 ^ 31 <= x < 2 ^ 31 -> int32 x = x.
Proof.
  intros H. unfold int32, wrap.
  change (2 ^ (32 - 1)) with (2 ^ 31). rewrite Z.mod_small; lia.
Qed.

Lemma int64_small (x : Z) : - 2 ^ 63 <= x < 2 ^ 63 -> int64 x = x.
Proof.
  intros H. unfold int64, wrap.
  change (2 ^ (64 - 1)) with (2 ^ 63). rewrite Z.mod_small; lia.
Qed.

(** ** The pool *)



Lemma free_zeroed (a : CopyObjectParams) (pool : Pool) :
  pool_zeroed pool -> pool_zeroed (freeCpObjParams a pool).
Proof.
  intros H. unfold freeCpObjParams, Pool_Put. now constructor.
Qed.

(** ** What one visit does *)

Lemma copyObject_post (v : visit) (w : World) :
  let w' := fst (copyObject v w) in
  snd (copyObject v w) = Some (visit_error (job w) v)
  /\ job w' = counted v (job w)
  /\ cpObjPool w' = cpObj0 :: snd (allocCpObjParams (v_pick v) (cpObjPool w))
  /\ trace w' = trace w ++ EvCopyObject (lom_ObjName (v_lom v)) (params_of (job w) v)
                             :: map EvSend (v_copy_sent v)
  /\ stored w' = stored w
  /\ glog w' = glog w
  /\ rx w' = rx w.
Proof.
  unfold_m. unfold visit_error, counted, params_of, visit_bytes, freeCpObjParams, Pool_Put.
  destruct (allocCpObjParams (v_pick v) (cpObjPool w)) as [a pool]. simpl.
  destruct (v_copy_err v) as [e|]; simpl.
  - rewrite <- app_assoc. split_and; reflexivity.
  - destruct (v_cap_err v); simpl; rewrite <- app_assoc; split_and; reflexivity.
Qed.

Lemma counted_identity (v : visit) (r : XactTCB) :
  same_identity r (counted v r) /\ r_refc (counted v r) = r_refc r
  /\ r_err (counted v r) = r_err r /\ r_dm (counted v r) = r_dm r.
Proof.
  unfold counted, same_identity. destruct (v_copy_err v); simpl; split_and; reflexivity.
Qed.

(** ** What one invocation of the handler does *)

(** A failed transport: the record is logged and dropped. *)
Lemma recv_transport_failed (dbg : bool) (m : recv_in) (w : World) :
  transport_failed (m_err m) = true ->
  let w' := fst (recv dbg m w) in
  snd (recv dbg m w) = Some tt
  /\ job w' = job w /\ cpObjPool w' = cpObjPool w /\ stored w' = stored w
  /\ trace w' = trace w
  /\ rx w' = {| rd_unread := rd_unread (m_reader m); rd_freed := true;
                rd_calls := rd_calls (m_reader m) ++ [CallFreeRecv] |}.
Proof.
  intros H. unfold_m. rewrite H.
  destruct (m_err m); [|discriminate]. simpl. split_and; reflexivity.
Qed.

(** A done marker: the counter goes down by one, nothing else changes. *)
Lemma recv_done (dbg : bool) (m : recv_in) (w : World) :
  is_done m = true ->
  let w' := fst (recv dbg m w) in
  let n := int32 (r_refc (job w) - 1) in
  snd (recv dbg m w) = (if debug_Assert dbg (0 <=? n) then Some tt else None)
  /\ job w' = set_refc (job w) n
  /\ cpObjPool w' = cpObjPool w /\ stored w' = stored w
  /\ trace w' = trace w /\ glog w' = glog w
  /\ rx w' = {| rd_unread := rd_unread (m_reader m); rd_freed := true;
                rd_calls := rd_calls (m_reader m) ++ [CallFreeRecv] |}.
Proof.
  unfold is_done. rewrite andb_true_iff, negb_true_iff. intros [H1 H2].
  unfold_m. rewrite H1, H2. simpl.
  destruct (debug_Assert _ _); simpl; split_and; reflexivity.
Qed.

(** A data record: only the error slot, the store and the stream change. *)
Lemma recv_payload (dbg : bool) (m : recv_in) (w : World) :
  is_payload m = true ->
  let w' := fst (recv dbg m w) in
  snd (recv dbg m w) = (if debug_Assert dbg (Opcode (m_hdr m) =? 0) then Some tt else None)
  /\ same_identity (job w) (job w')
  /\ r_refc (job w') = r_refc (job w)
  /\ r_dm (job w') = r_dm (job w)
  /\ xb_objects (job w') = xb_objects (job w)
  /\ xb_bytes (job w') = xb_bytes (job w)
  /\ xb_finished (job w') = xb_finished (job w)
  /\ (forall e, r_err (job w) = Some e -> r_err (job w') = Some e)
  /\ cpObjPool w' = cpObjPool w
  /\ (exists evs, trace w' = trace w ++ evs /\ forallb is_put evs = true)
  /\ rd_freed (rx w') = true
  /\ (debug_Assert dbg (Opcode (m_hdr m) =? 0) = true -> rd_unread (rx w') = 0%nat).
Proof.
  unfold is_payload. rewrite andb_true_iff, !negb_true_iff. intros [H1 H2].
  unfold_m. rewrite H1, H2. unfold same_identity, ErrValue_Err, ErrValue_Store. simpl.
  assert (Hnil : forall l : list event, exists evs, l = l ++ evs /\ forallb is_put evs = true).
  { intros l. exists nil. now rewrite app_nil_r. }
  destruct (debug_Assert _ _); simpl.
  2:{ split_and; auto; discriminate. }
  destruct (r_err (job w)) as [e0|] eqn:He; simpl.
  { split_and; auto. intros e <-. exact He. }
  destruct (m_init_err m); simpl.
  { rewrite He. split_and; auto; discriminate. }
  destruct (m_put_err m); simpl.
  - rewrite He. split_and; auto; try discriminate. eexists; split; reflexivity.
  - split_and; auto; try discriminate. eexists; split; reflexivity.
Qed.

Lemma recv_kinds (m : recv_in) :
  transport_failed (m_err m) = true \/ is_done m = true \/ is_payload m = true.
Proof.
  unfold is_done, is_payload.
  destruct (transport_failed (m_err m)); simpl; auto.
  destruct (Opcode (m_hdr m) =? doneSendingOpcode); auto.
Qed.

(** ** The walk, one step at a time *)

Lemma walk_visit (dbg : bool) (v : visit) (rest : list step) (w : World) :
  walk dbg None (Visit v :: rest) w
  = walk dbg (visit_error (job w) v) rest (fst (copyObject v w)).
Proof.
  simpl. unfold bind at 1.
  destruct (copyObject_post v w) as [Hs _].
  destruct (copyObject v w) as [w' o]. simpl in *. now subst o.
Qed.

Lemma walk_skip (dbg : bool) (e : error) (v : visit) (rest : list step) (w : World) :
  walk dbg (Some e) (Visit v :: rest) w = walk dbg (Some e) rest w.
Proof. reflexivity. Qed.

Lemma walk_recv (dbg : bool) (jerr : option error) (m : recv_in) (rest : list step)
  (w : World) :
  walk dbg jerr (Recv m :: rest) w
  = match snd (recv dbg m w) with
    | Some _ => walk dbg jerr rest (fst (recv dbg m w))
    | None => (fst (recv dbg m w), None)
    end.
Proof.
  simpl. unfold bind at 1. destruct (recv dbg m w) as [w' [u|]]; reflexivity.
Qed.

Lemma recvs_walk (dbg : bool) (ms : list recv_in) (w : World) :
  recvs dbg ms w
  = (fst (walk dbg None (map Recv ms) w),
     match snd (walk dbg None (map Recv ms) w) with
     | Some _ => Some tt
     | None => None
     end).
Proof.
  revert w. induction ms as [|m ms IH]; intros w.
  - reflexivity.
  - cbn [map]. rewrite walk_recv. simpl. unfold bind at 1.
    destruct (recv dbg m w) as [w' [u|]]; simpl; [apply IH | reflexivity].
Qed.

(** A relation between worlds that every visit and every handler invocation
    respects holds between the two ends of a walk. *)
Lemma walk_preserves (R : World -> World -> Prop) :
  (forall w, R w w) ->
  (forall a b c, R a b -> R b c -> R a c) ->
  (forall v w, R w (fst (copyObject v w))) ->
  (forall dbg m w, R w (fst (recv dbg m w))) ->
  forall dbg steps jerr w, R w (fst (walk dbg jerr steps w)).
Proof.
  intros Hrefl Htrans Hcopy Hrecv dbg steps.
  induction steps as [|[v|m] rest IH]; intros jerr w.
  - apply Hrefl.
  - destruct jerr as [e|].
    + rewrite walk_skip. apply IH.
    + rewrite walk_visit. eapply Htrans; [apply Hcopy | apply IH].
  - rewrite walk_recv. destruct (snd (recv dbg m w)).
    + eapply Htrans; [apply Hrecv | apply IH].
    + simpl. apply Hrecv.
Qed.

Lemma same_identity_refl (r : XactTCB) : same_identity r r.
Proof. unfold same_identity. auto. Qed.

Lemma same_identity_trans (a b c : XactTCB) :
  same_identity a b -> same_identity b c -> same_identity a c.
Proof. unfold same_identity. intuition congruence. Qed.

Lemma same_identity_names (r r' : XactTCB) :
  same_identity r r' ->
  XactTCB_Name r' = XactTCB_Name r /\ XactTCB_String r' = XactTCB_String r.
Proof.
  unfold same_identity, XactTCB_Name, XactTCB_String.
  intros (-> & -> & -> & _). auto.
Qed.

(** What a handler invocation never touches, whatever the record. *)
Lemma recv_frame (dbg : bool) (m : recv_in) (w : World) :
  let w' := fst (recv dbg m w) in
  same_identity (job w) (job w')
  /\ r_dm (job w') = r_dm (job w)
  /\ xb_objects (job w') = xb_objects (job w)
  /\ xb_bytes (job w') = xb_bytes (job w)
  /\ xb_finished (job w') = xb_finished (job w)
  /\ (forall e, r_err (job w) = Some e -> r_err (job w') = Some e)
  /\ cpObjPool w' = cpObjPool w
  /\ (exists evs, trace w' = trace w ++ evs /\ forallb is_put evs = true)
  /\ rd_freed (rx w') = true.
Proof.
  destruct (recv_kinds m) as [H|[H|H]].
  - destruct (recv_transport_failed dbg m w H) as (_ & Hj & Hp & _ & Ht & Hr).
    cbv zeta. rewrite Hj, Hp, Ht, Hr. split_and; auto using same_identity_refl.
    exists nil. now rewrite app_nil_r.
  - destruct (recv_done dbg m w H) as (_ & Hj & Hp & _ & Ht & _ & Hr).
    cbv zeta. rewrite Hj, Hp, Ht, Hr. split_and; auto.
    + unfold same_identity. simpl. auto.
    + exists nil. now rewrite app_nil_r.
  - destruct (recv_payload dbg m w H) as (_ & H1 & _ & H2 & H3 & H4 & H5 & H6 & H7 & H8 & H9 & _).
    cbv zeta. split_and; auto.
Qed.

(** The walk keeps the identity of the job and its data mover. *)
Lemma walk_identity (dbg : bool) (steps : list step) (jerr : option error) (w : World) :
  same_identity (job w) (job (fst (walk dbg jerr steps w)))
  /\ r_dm (job (fst (walk dbg jerr steps w))) = r_dm (job w)
  /\ xb_finished (job (fst (walk dbg jerr steps w))) = xb_finished (job w).
Proof.
  apply (walk_preserves
           (fun a b => same_identity (job a) (job b) /\ r_dm (job b) = r_dm (job a)
                       /\ xb_finished (job b) = xb_finished (job a))).
  - intros. auto using same_identity_refl.
  - intros a b c (H1 & H2 & H3) (H4 & H5 & H6).
    split_and; [eapply same_identity_trans; eauto | congruence | congruence].
  - intros v w0. destruct (copyObject_post v w0) as (_ & -> & _).
    destruct (counted_identity v (job w0)) as (H1 & _ & _ & H2).
    split_and; auto. unfold counted. destruct (v_copy_err v); reflexivity.
  - intros dbg0 m w0. destruct (recv_frame dbg0 m w0) as (H1 & H2 & _ & _ & H3 & _).
    auto.
Qed.

(** Store-once: an error held by the error slot stays there. *)
Lemma walk_err_kept (dbg : bool) (steps : list step) (jerr : option error) (w : World)
  (e : error) :
  r_err (job w) = Some e -> r_err (job (fst (walk dbg jerr steps w))) = Some e.
Proof.
  revert e.
  apply (walk_preserves
           (fun a b => forall e, r_err (job a) = Some e -> r_err (job b) = Some e)).
  - auto.
  - auto.
  - intros v w0 e. destruct (copyObject_post v w0) as (_ & -> & _).
    destruct (counted_identity v (job w0)) as (_ & _ & -> & _). auto.
  - intros dbg0 m w0. destruct (recv_frame dbg0 m w0) as (_ & _ & _ & _ & _ & H & _).
    exact H.
Qed.


(** The walk broadcasts no marker. *)
Lemma walk_trace (dbg : bool) (steps : list step) (jerr : option error) (w : World) :
  exists evs, trace (fst (walk dbg jerr steps w)) = trace w ++ evs
              /\ forallb (fun ev => negb (is_marker ev)) evs = true.
Proof.
  apply (walk_preserves
           (fun a b => exists evs, trace b = trace a ++ evs
                                   /\ forallb (fun ev => negb (is_marker ev)) evs = true)).
  - intros w0. exists nil. now rewrite app_nil_r.
  - intros a b c (e1 & H1 & F1) (e2 & H2 & F2). exists (e1 ++ e2).
    rewrite H2, H1, app_assoc, forallb_app, F1, F2. auto.
  - intros v w0. destruct (copyObject_post v w0) as (_ & _ & _ & -> & _).
    eexists; split; [reflexivity|]. simpl.
    induction (v_copy_sent v); simpl; auto.
  - intros dbg0 m w0.
    destruct (recv_frame dbg0 m w0) as (_ & _ & _ & _ & _ & _ & _ & (evs & H & F) & _).
    exists evs. split; [exact H|].
    clear H. induction evs as [|ev evs IH]; simpl in *; auto.
    apply andb_true_iff in F. destruct F as [F1 F2].
    rewrite (IH F2). destruct ev; simpl in *; try discriminate; reflexivity.
Qed.

(** Handlers alone emit no data event and no marker. *)
Lemma recvs_trace (dbg : bool) (ms : list recv_in) (w : World) :
  exists evs, trace (fst (recvs dbg ms w)) = trace w ++ evs
              /\ forallb is_put evs = true.
Proof.
  revert w. induction ms as [|m ms IH]; intros w.
  - exists nil. simpl. now rewrite app_nil_r.
  - simpl. unfold bind at 1.
    destruct (recv_frame dbg m w) as (_ & _ & _ & _ & _ & _ & _ & (e1 & H1 & F1) & _).
    destruct (recv dbg m w) as [w1 [u|]]; simpl in *.
    + destruct (IH w1) as (e2 & H2 & F2). exists (e1 ++ e2).
      rewrite H2, H1, app_assoc, forallb_app, F1, F2. auto.
    + exists e1. auto.
Qed.

(** What [Wait] returns: the error of the first failing visit. *)
Lemma walk_result (dbg : bool) (steps : list step) (jerr : option error) (w : World)
  (res : option error) :
  snd (walk dbg jerr steps w) = Some res ->
  res = match jerr with
        | Some e => Some e
        | None => first_visit_error (job w) steps
        end.
Proof.
  revert jerr w. induction steps as [|[v|m] rest IH]; intros jerr w H.
  - simpl in H. inversion H. destruct res; reflexivity.
  - destruct jerr as [e|].
    + rewrite walk_skip in H. apply IH in H. exact H.
    + rewrite walk_visit in H. apply IH in H. subst res. simpl.
      destruct (visit_error (job w) v) as [e|] eqn:He; [reflexivity|].
      destruct (copyObject_post v w) as (_ & Hj & _).
      destruct (counted_identity v (job w)) as (Hid & _).
      rewrite Hj. clear - Hid.
      induction rest as [|[v'|m'] rest IH]; simpl; auto.
      assert (Hv : visit_error (counted v (job w)) v' = visit_error (job w) v').
      { unfold visit_error. destruct (same_identity_names _ _ Hid) as [-> _]. reflexivity. }
      rewrite Hv, IH. reflexivity.
  - rewrite walk_recv in H. destruct (snd (recv dbg m w)) eqn:Hs; [|discriminate].
    apply IH in H. subst res. destruct jerr as [e|]; [reflexivity|]. simpl.
    destruct (recv_frame dbg m w) as (Hid & _).
    clear - Hid. induction rest as [|[v'|m'] rest IH]; simpl; auto.
    assert (Hv : visit_error (job (fst (recv dbg m w))) v' = visit_error (job w) v').
    { unfold visit_error. destruct (same_identity_names _ _ Hid) as [-> _]. reflexivity. }
    rewrite Hv, IH. reflexivity.
Qed.

(** ** The stages of Run *)

Lemma Run_stages (dbg : bool) (jog : list step) (wait : list recv_in) (q : QuiRes)
  (w : World) :
  Run dbg jog wait q w
  = (opening ;;;
     err <- walk dbg None jog ;;
     dm_Bcast doneSendingOpcode ;;;
     q <- Quiesce dbg wait q ;;
     r <- get_job ;;
     closing (final_err r err q))%m w.
Proof.
  unfold Run, opening, closing, bind.
  destruct (dm_SetXact w) as [w1 [[]|]]; [|reflexivity].
  destruct (dm_Open w1) as [w2 [[]|]]; [|reflexivity].
  destruct (caller_wg_Done w2) as [w2' [[]|]]; [|reflexivity].
  destruct (wg_Done w2') as [w3 [[]|]]; [|reflexivity].
  destruct (get_job w3) as [w4 [r|]]; [|reflexivity].
  destruct (glog_Infoln (XactTCB_Name r) w4) as [w5 [[]|]]; reflexivity.
Qed.

Lemma set_dm_same (r : XactTCB) (d : DataMover) :
  r_dm r = Some d -> set_dm r (Some d) = r.
Proof. destruct r; simpl; intros ->; reflexivity. Qed.

Lemma set_job_same (w : World) : set_job w (job w) = w.
Proof. destruct w; reflexivity. Qed.

(** The opening returns when the data mover is there and both wait groups
    have a count to give. *)
Lemma opening_post (w : World) (d : DataMover) (n : Z) :
  r_dm (job w) = Some d ->
  caller_wg w = Some n ->
  1 <= n ->
  1 <= r_wg (job w) ->
  exists w0,
    opening w = (w0, Some tt)
    /\ same_identity (job w) (job w0)
    /\ (exists d0, r_dm (job w0) = Some d0)
    /\ r_refc (job w0) = r_refc (job w)
    /\ r_err (job w0) = r_err (job w)
    /\ xb_objects (job w0) = xb_objects (job w)
    /\ xb_bytes (job w0) = xb_bytes (job w)
    /\ cpObjPool w0 = cpObjPool w
    /\ trace w0 = trace w ++ [EvSetXact; EvOpen].
Proof.
  intros Hd Hn Hn1 Hwg.
  assert (E1 : (n - 1 <? 0) = false) by (apply Z.ltb_ge; lia).
  assert (E2 : (r_wg (job w) - 1 <? 0) = false) by (apply Z.ltb_ge; lia).
  unfold opening. unfold_m. rewrite Hd. simpl. rewrite Hn, E1. simpl. rewrite E2.
  eexists. split; [reflexivity|]. simpl. unfold same_identity. simpl.
  rewrite <- app_assoc. split_and; eauto.
Qed.

(** What the opening does to the wait groups. *)
Lemma opening_wg (w w0 : World) (d : DataMover) (n : Z) :
  r_dm (job w) = Some d ->
  caller_wg w = Some n ->
  opening w = (w0, Some tt) ->
  r_wg (job w0) = r_wg (job w) - 1 /\ caller_wg w0 = Some (n - 1)
  /\ stored w0 = stored w.
Proof.
  intros Hd Hn. unfold opening. unfold_m. rewrite Hd. simpl. rewrite Hn.
  destruct (n - 1 <? 0); simpl; [discriminate|].
  destruct (r_wg (job w) - 1 <? 0); simpl; [discriminate|].
  intros H. inversion H. simpl. auto.
Qed.

(** With a data mover the opening either returns, and then both wait groups
    had a count to give, or panics at one of them, after the data mover was
    opened. *)
Lemma opening_cases (w : World) (d : DataMover) :
  r_dm (job w) = Some d ->
  (exists n w0, caller_wg w = Some n /\ 1 <= n /\ 1 <= r_wg (job w)
                /\ opening w = (w0, Some tt))
  \/ (exists w0, opening w = (w0, None) /\ trace w0 = trace w ++ [EvSetXact; EvOpen]).
Proof.
  intros Hd. unfold opening. unfold_m. rewrite Hd. simpl.
  destruct (caller_wg w) as [n|] eqn:Hn.
  2:{ right. eexists. split; [reflexivity|]. simpl. now rewrite <- app_assoc. }
  destruct (Z.ltb_spec (n - 1) 0); simpl.
  { right. eexists. split; [reflexivity|]. simpl. now rewrite <- app_assoc. }
  destruct (Z.ltb_spec (r_wg (job w) - 1) 0); simpl.
  { right. eexists. split; [reflexivity|]. simpl. now rewrite <- app_assoc. }
  left. exists n. eexists. split_and; try reflexivity; lia.
Qed.

(** A run that returned had a data mover and a count to give in both wait
    groups. *)
Lemma opening_returned (w w0 : World) :
  opening w = (w0, Some tt) ->
  exists d n, r_dm (job w) = Some d /\ caller_wg w = Some n /\ 1 <= n
              /\ 1 <= r_wg (job w).
Proof.
  intros Ho. destruct (r_dm (job w)) as [d|] eqn:Hd.
  - destruct (opening_cases w d Hd) as [(n & w1 & Hn & Hn1 & Hwg & _)|(w1 & H & _)].
    + exists d, n. auto.
    + rewrite Ho in H. discriminate.
  - revert Ho. unfold opening. unfold_m. rewrite Hd. simpl. discriminate.
Qed.

Lemma dm_Bcast_post (w : World) (d : DataMover) (op : Z) :
  r_dm (job w) = Some d ->
  dm_Bcast op w = (set_trace w (trace w ++ [EvBcast op]), Some tt).
Proof.
  intros Hd. unfold dm_Bcast. unfold_m. rewrite Hd. simpl.
  rewrite (set_dm_same _ _ Hd), set_job_same. reflexivity.
Qed.

Lemma closing_post (w : World) (d : DataMover) (err : option error) :
  r_dm (job w) = Some d ->
  exists w',
    closing err w = (w', Some tt)
    /\ finished_with err (job w')
    /\ same_identity (job w) (job w')
    /\ r_refc (job w') = r_refc (job w)
    /\ r_err (job w') = r_err (job w)
    /\ xb_objects (job w') = xb_objects (job w)
    /\ xb_bytes (job w') = xb_bytes (job w)
    /\ cpObjPool w' = cpObjPool w
    /\ trace w' = trace w ++ [EvClose err; EvUnregRecv; EvFinish err].
Proof.
  intros Hd. unfold closing. unfold_m. rewrite Hd. simpl.
  eexists. split; [reflexivity|]. simpl. unfold same_identity, finished_with. simpl.
  rewrite <- !app_assoc. split_and; eauto.
Qed.

(** A completed [Run], stage by stage. *)
Lemma Run_inv (dbg : bool) (jog : list step) (wait : list recv_in) (q : QuiRes)
  (w w' : World) :
  Run dbg jog wait q w = (w', Some tt) ->
  exists w0 w1 jerr w2,
    opening w = (w0, Some tt)
    /\ walk dbg None jog w0 = (w1, Some jerr)
    /\ recvs dbg wait (set_trace w1 (trace w1 ++ [EvBcast doneSendingOpcode])) = (w2, Some tt)
    /\ closing (final_err (job w2) jerr q) w2 = (w', Some tt)
    /\ (exists d, r_dm (job w) = Some d)
    /\ (exists d, r_dm (job w2) = Some d).
Proof.
  rewrite Run_stages. unfold bind at 1.
  destruct (opening w) as [w0 [[]|]] eqn:Ho; [|discriminate].
  destruct (opening_returned w w0 Ho) as (d & n & Hd & Hn & Hn1 & Hwg).
  destruct (opening_post w d n Hd Hn Hn1 Hwg) as (w0' & Ho' & _ & (d0 & Hd0) & _).
  rewrite Ho in Ho'. inversion Ho'; subst w0'. clear Ho'.
  unfold bind at 1.
  destruct (walk dbg None jog w0) as [w1 [jerr|]] eqn:Hw; [|discriminate].
  assert (Hd1 : r_dm (job w1) = Some d0).
  { destruct (walk_identity dbg jog None w0) as (_ & H & _).
    rewrite Hw in H. simpl in H. congruence. }
  unfold bind at 1. rewrite (dm_Bcast_post w1 d0 _ Hd1).
  unfold Quiesce. unfold bind at 1. unfold bind at 1.
  destruct (recvs dbg wait _) as [w2 [[]|]] eqn:Hr; [|discriminate].
  unfold ret. unfold bind at 1. unfold get_job.
  intros Hc. exists w0, w1, jerr, w2. split_and; eauto.
  exists d0. rewrite recvs_walk in Hr. inversion Hr as [[H1 H2]].
  destruct (walk_identity dbg (map Recv wait) None
              (set_trace w1 (trace w1 ++ [EvBcast doneSendingOpcode]))) as (_ & H & _).
  rewrite H. exact Hd1.
Qed.

(** A run that returned had a count to give in both wait groups. *)
Lemma Run_wait_groups (dbg : bool) (jog : list step) (wait : list recv_in) (q : QuiRes)
  (w w' : World) :
  Run dbg jog wait q w = (w', Some tt) ->
  exists n, caller_wg w = Some n /\ 1 <= n /\ 1 <= r_wg (job w).
Proof.
  intros HR. destruct (Run_inv _ _ _ _ _ _ HR) as (w0 & _ & _ & _ & Ho & _).
  destruct (opening_returned w w0 Ho) as (d & n & _ & Hn & Hn1 & Hwg). eauto.
Qed.

(** ** The peer-ack counter along a walk *)

Lemma done_markers_nonneg (steps : list step) : 0 <= done_markers steps.
Proof.
  induction steps as [|[v|m] rest IH]; simpl; try lia.
  destruct (is_done m); lia.
Qed.

Lemma walk_refc (dbg : bool) (steps : list step) :
  forall (jerr : option error) (w : World),
    0 <= r_refc (job w) < 2 ^ 31 ->
    done_markers steps <= r_refc (job w) ->
    let w' := fst (walk dbg jerr steps w) in
    0 <= r_refc (job w') <= r_refc (job w)
    /\ (snd (walk dbg jerr steps w) <> None ->
        r_refc (job w') = r_refc (job w) - done_markers steps)
    /\ (known_opcodes steps -> snd (walk dbg jerr steps w) <> None).
Proof.
  induction steps as [|[v|m] rest IH]; intros jerr w Hr Hm; cbv zeta.
  - simpl. split_and; [lia | lia | intros; lia | intros; discriminate].
  - simpl in Hm. destruct jerr as [e|].
    + rewrite walk_skip. apply IH; assumption.
    + rewrite walk_visit.
      destruct (copyObject_post v w) as (_ & Hj & _).
      destruct (counted_identity v (job w)) as (_ & Hc & _).
      rewrite <- Hc, <- Hj in Hr, Hm |- *.
      exact (IH _ _ Hr Hm).
  - rewrite walk_recv. simpl in Hm.
    pose proof (done_markers_nonneg rest) as Hnn.
    destruct (recv_kinds m) as [H|[H|H]].
    + destruct (recv_transport_failed dbg m w H) as (Hs & Hj & _).
      assert (Hd : is_done m = false).
      { unfold is_done. now rewrite H. }
      rewrite Hd in Hm. rewrite Hs.
      rewrite <- Hj in Hr, Hm |- *.
      destruct (IH jerr _ Hr Hm) as (I1 & I2 & I3). simpl. rewrite Hd.
      split_and; try lia; auto; intros [_ K]; auto.
    + destruct (recv_done dbg m w H) as (Hs & Hj & _).
      rewrite H in Hm.
      assert (Hn : int32 (r_refc (job w) - 1) = r_refc (job w) - 1).
      { apply int32_small. lia. }
      rewrite Hn in Hs, Hj.
      assert (Ha : debug_Assert dbg (0 <=? r_refc (job w) - 1) = true).
      { unfold debug_Assert. replace (0 <=? r_refc (job w) - 1) with true.
        - apply orb_true_r.
        - symmetry. apply Z.leb_le. lia. }
      rewrite Ha in Hs. rewrite Hs.
      assert (Hr' : 0 <= r_refc (job (fst (recv dbg m w))) < 2 ^ 31).
      { rewrite Hj. simpl. lia. }
      assert (Hm' : done_markers rest <= r_refc (job (fst (recv dbg m w)))).
      { rewrite Hj. simpl. lia. }
      destruct (IH jerr _ Hr' Hm') as (I1 & I2 & I3).
      rewrite Hj in I1, I2. simpl in I1, I2. simpl. rewrite H.
      split_and; [lia | lia | intros K; rewrite (I2 K); lia | intros [_ K]; auto].
    + destruct (recv_payload dbg m w H) as (Hs & _ & Hc & _).
      assert (Hd : is_done m = false).
      { unfold is_done, is_payload in *.
        destruct (transport_failed (m_err m)); simpl in *; [discriminate|].
        now apply negb_true_iff in H. }
      rewrite Hd in Hm. rewrite Hs.
      destruct (debug_Assert dbg (Opcode (m_hdr m) =? 0)) eqn:Ha.
      * rewrite <- Hc in Hr, Hm |- *.
        destruct (IH jerr _ Hr Hm) as (I1 & I2 & I3). simpl. rewrite Hd.
        split_and; try lia; auto; intros [_ K]; auto.
      * simpl. rewrite Hc, Hd. split_and; [lia | lia | congruence |].
        intros [[K|K] _]; exfalso.
        -- unfold debug_Assert in Ha. rewrite K in Ha. simpl in Ha.
           rewrite orb_true_r in Ha. discriminate.
        -- unfold is_payload in H. rewrite K, Z.eqb_refl, andb_false_r in H. discriminate.
Qed.

(** Outside debug builds no handler and no visit panics. *)
Lemma walk_release_returns (steps : list step) (jerr : option error) (w : World) :
  snd (walk false jerr steps w) <> None.
Proof.
  revert jerr w. induction steps as [|[v|m] rest IH]; intros jerr w.
  - discriminate.
  - destruct jerr as [e|]; [rewrite walk_skip | rewrite walk_visit]; apply IH.
  - rewrite walk_recv.
    assert (Hs : snd (recv false m w) = Some tt).
    { destruct (recv_kinds m) as [H|[H|H]].
      - now destruct (recv_transport_failed false m w H) as (Hs & _).
      - now destruct (recv_done false m w H) as (Hs & _).
      - now destruct (recv_payload false m w H) as (Hs & _). }
    rewrite Hs. apply IH.
Qed.

(** ** The object and byte counters along a walk *)

Lemma visit_bytes_nonneg (v : visit) : sane_sizes v -> 0 <= visit_bytes v.
Proof.
  unfold sane_sizes, visit_bytes. intros [H1 [H2|H2]].
  - rewrite H2, Z.eqb_refl. exact H1.
  - destruct (v_copy_size v =? ContentLengthUnknown); assumption.
Qed.

Lemma total_bytes_nonneg (vs : list visit) : Forall sane_sizes vs -> 0 <= total_bytes vs.
Proof.
  induction 1 as [|v vs Hv _ IH]; simpl; [lia|].
  pose proof (visit_bytes_nonneg v Hv). lia.
Qed.

Lemma walk_counters (dbg : bool) (steps : list step) :
  forall (jerr : option error) (w : World),
    Forall sane_sizes (visits_of steps) ->
    0 <= xb_objects (job w) ->
    xb_objects (job w) + Z.of_nat (List.length (visits_of steps)) < 2 ^ 63 ->
    0 <= xb_bytes (job w) ->
    xb_bytes (job w) + total_bytes (visits_of steps) < 2 ^ 63 ->
    let w' := fst (walk dbg jerr steps w) in
    xb_objects (job w) <= xb_objects (job w')
      <= xb_objects (job w) + Z.of_nat (List.length (visits_of steps))
    /\ xb_bytes (job w) <= xb_bytes (job w')
      <= xb_bytes (job w) + total_bytes (visits_of steps).
Proof.
  induction steps as [|[v|m] rest IH]; intros jerr w Hs Ho1 Ho2 Hb1 Hb2; cbv zeta.
  - simpl. lia.
  - cbn [visits_of] in Hs, Ho2, Hb2 |- *. inversion Hs as [|? ? Hv Hrest]; subst.
    pose proof (visit_bytes_nonneg v Hv) as Hvb.
    pose proof (total_bytes_nonneg _ Hrest) as Htb.
    cbn [List.length total_bytes fold_right] in Ho2, Hb2 |- *.
    fold (total_bytes (visits_of rest)) in Hb2 |- *.
    rewrite Nat2Z.inj_succ in Ho2 |- *.
    destruct jerr as [e|].
    + rewrite walk_skip.
      assert (H := IH (Some e) w Hrest Ho1 ltac:(lia) Hb1 ltac:(lia)).
      cbv zeta in H. lia.
    + rewrite walk_visit.
      destruct (copyObject_post v w) as (_ & Hj & _).
      set (w1 := fst (copyObject v w)) in *.
      assert (Hc : xb_objects (job w) <= xb_objects (job w1) <= xb_objects (job w) + 1
                   /\ xb_bytes (job w) <= xb_bytes (job w1)
                      <= xb_bytes (job w) + visit_bytes v).
      { rewrite Hj. unfold counted. destruct (v_copy_err v); simpl; [lia|].
        rewrite !int64_small; lia. }
      assert (H := IH (visit_error (job w) v) w1 Hrest ltac:(lia) ltac:(lia)
                      ltac:(lia) ltac:(lia)).
      cbv zeta in H. lia.
  - cbn [visits_of] in Hs, Ho2, Hb2 |- *. rewrite walk_recv.
    destruct (recv_frame dbg m w) as (_ & _ & Ho & Hb & _).
    destruct (snd (recv dbg m w)).
    + assert (H := IH jerr (fst (recv dbg m w)) Hs).
      rewrite Ho, Hb in H. exact (H Ho1 Ho2 Hb1 Hb2).
    + simpl. rewrite Ho, Hb.
      pose proof (total_bytes_nonneg _ Hs). lia.
Qed.

(** ** Assertions that cannot fail *)

Lemma done_markers_app (a b : list step) :
  done_markers (a ++ b) = done_markers a + done_markers b.
Proof.
  induction a as [|[v|m] a IH]; simpl; rewrite ?IH; lia.
Qed.

Lemma known_opcodes_app (a b : list step) :
  known_opcodes (a ++ b) <-> known_opcodes a /\ known_opcodes b.
Proof.
  induction a as [|[v|m] a IH]; simpl; tauto.
Qed.

Lemma walk_returns (dbg : bool) (steps : list step) (jerr : option error) (w : World) :
  no_assertion_fails dbg w steps -> snd (walk dbg jerr steps w) <> None.
Proof.
  intros [->|(Hk & Hr & Hm)].
  - apply walk_release_returns.
  - destruct (walk_refc dbg steps jerr w Hr Hm) as (_ & _ & H). auto.
Qed.

(** After part of the schedule has run, the rest still cannot fail. *)
Lemma no_assertion_fails_rest (dbg : bool) (a b : list step) (jerr : option error)
  (w w1 : World) :
  no_assertion_fails dbg w (a ++ b) ->
  r_refc (job w1) = r_refc (job (fst (walk dbg jerr a w))) ->
  no_assertion_fails dbg w1 b.
Proof.
  intros [->|(Hk & Hr & Hm)] H1; [now left|right].
  apply known_opcodes_app in Hk. destruct Hk as [Ka Kb].
  rewrite done_markers_app in Hm.
  pose proof (done_markers_nonneg a). pose proof (done_markers_nonneg b).
  destruct (walk_refc dbg a jerr w Hr ltac:(lia)) as (I1 & I2 & I3).
  specialize (I2 (I3 Ka)). cbv zeta in I1, I2. rewrite <- H1 in I1, I2.
  split_and; auto; lia.
Qed.

Lemma no_assertion_fails_head (dbg : bool) (a b : list step) (w w0 : World) :
  no_assertion_fails dbg w (a ++ b) ->
  r_refc (job w0) = r_refc (job w) ->
  no_assertion_fails dbg w0 a.
Proof.
  intros [->|(Hk & Hr & Hm)] H1; [now left|right].
  apply known_opcodes_app in Hk. destruct Hk as [Ka Kb].
  rewrite done_markers_app in Hm.
  pose proof (done_markers_nonneg b). rewrite H1. split_and; auto; lia.
Qed.

(** [Run] returns: with a data mover in place, a count to give in both wait
    groups and no failing assertion the job runs through all its stages and
    finishes. *)
Lemma Run_completes (dbg : bool) (jog : list step) (wait : list recv_in) (q : QuiRes)
  (w : World) (d : DataMover) (n : Z) :
  r_dm (job w) = Some d ->
  caller_wg w = Some n ->
  1 <= n ->
  1 <= r_wg (job w) ->
  no_assertion_fails dbg w (jog ++ map Recv wait) ->
  exists w', Run dbg jog wait q w = (w', Some tt).
Proof.
  intros Hd Hn Hn1 Hwg Hna. rewrite Run_stages. unfold bind at 1.
  destruct (opening_post w d n Hd Hn Hn1 Hwg) as (w0 & Ho & _ & (d0 & Hd0) & Hrefc & _).
  rewrite Ho. unfold bind at 1.
  pose proof (walk_returns dbg jog None w0
                (no_assertion_fails_head dbg _ _ w w0 Hna Hrefc)) as Hw.
  destruct (walk dbg None jog w0) as [w1 [jerr|]] eqn:Ew; [|now elim Hw].
  assert (Hd1 : r_dm (job w1) = Some d0).
  { destruct (walk_identity dbg jog None w0) as (_ & H & _).
    rewrite Ew in H. simpl in H. congruence. }
  unfold bind at 1. rewrite (dm_Bcast_post w1 d0 _ Hd1).
  unfold Quiesce. unfold bind at 1. unfold bind at 1.
  set (w1' := set_trace w1 (trace w1 ++ [EvBcast doneSendingOpcode])).
  assert (Hna1 : no_assertion_fails dbg w1' (map Recv wait)).
  { destruct Hna as [->|(Hk & Hr & Hm)]; [now left|].
    apply (no_assertion_fails_rest dbg jog (map Recv wait) None w0 w1').
    - right. rewrite Hrefc. auto.
    - rewrite Ew. reflexivity. }
  pose proof (walk_returns dbg (map Recv wait) None w1' Hna1) as Hr.
  rewrite recvs_walk.
  destruct (snd (walk dbg None (map Recv wait) w1')) as [o|] eqn:Es; [|now elim Hr].
  unfold ret. unfold bind at 1. unfold get_job.
  set (w2 := fst (walk dbg None (map Recv wait) w1')).
  assert (Hd2 : r_dm (job w2) = Some d0).
  { destruct (walk_identity dbg (map Recv wait) None w1') as (_ & H & _).
    unfold w2. rewrite H. exact Hd1. }
  destruct (closing_post w2 d0 (final_err (job w2) jerr q) Hd2) as (w' & Hc & _).
  exists w'. exact Hc.
Qed.

(** ** How a run ends *)

Lemma forallb_weaken {A : Type} (f g : A -> bool) (l : list A) :
  (forall x, f x = true -> g x = true) -> forallb f l = true -> forallb g l = true.
Proof.
  intros H. induction l as [|a l IH]; simpl; [auto|].
  rewrite !andb_true_iff. intros [H1 H2]. auto.
Qed.

Lemma first_visit_error_identity (r r' : XactTCB) (steps : list step) :
  same_identity r r' -> first_visit_error r' steps = first_visit_error r steps.
Proof.
  intros Hid. destruct (same_identity_names _ _ Hid) as [Hn _].
  induction steps as [|[v|m] rest IH]; simpl; auto.
  assert (Hv : visit_error r' v = visit_error r v).
  { unfold visit_error. now rewrite Hn. }
  now rewrite Hv, IH.
Qed.

Lemma final_err_cases (r : XactTCB) (jerr : option error) (q : QuiRes) :
  final_err r jerr q
  = match jerr with
    | Some e => Some e
    | None =>
        match r_err r with
        | Some e => Some e
        | None => outcome_error r q
        end
    end.
Proof.
  unfold final_err, outcome_error, ErrValue_Err.
  destruct jerr; [reflexivity|]. destruct (r_err r); [reflexivity|].
  destruct q; reflexivity.
Qed.

Lemma outcome_error_identity (r r' : XactTCB) (q : QuiRes) :
  same_identity r r' -> outcome_error r' q = outcome_error r q.
Proof.
  intros Hid. destruct (same_identity_names _ _ Hid) as [Hn Hs].
  unfold outcome_error. now rewrite Hn, Hs.
Qed.

(** A run that returns has finished the job with the jogger's error if there
    is one, else with the stored error if there is one, else with what the
    outcome of the wait stands for. *)
Lemma Run_finish (dbg : bool) (jog : list step) (wait : list recv_in) (q : QuiRes)
  (w w' : World) :
  Run dbg jog wait q w = (w', Some tt) ->
  finished_with
    (match first_visit_error (job w) jog with
     | Some e => Some e
     | None =>
         match r_err (job w') with
         | Some e => Some e
         | None => outcome_error (job w) q
         end
     end) (job w')
  /\ (forall e, r_err (job w) = Some e -> r_err (job w') = Some e)
  /\ (exists pre err, trace w' = pre ++ [EvClose err; EvUnregRecv; EvFinish err]
                      /\ xb_finished (job w') = Some err).
Proof.
  intros HR.
  destruct (Run_inv _ _ _ _ _ _ HR)
    as (w0 & w1 & jerr & w2 & Ho & Hw & Hr & Hc & (d & Hd) & (d2 & Hd2)).
  destruct (Run_wait_groups _ _ _ _ _ _ HR) as (n & Hn & Hn1 & Hwg).
  destruct (opening_post w d n Hd Hn Hn1 Hwg) as (w0' & Ho' & Hid0 & _ & _ & He0 & _).
  rewrite Ho in Ho'. inversion Ho'; subst w0'. clear Ho'.
  pose proof (walk_identity dbg jog None w0) as (Hid1 & _).
  rewrite Hw in Hid1. simpl in Hid1.
  set (w1' := set_trace w1 (trace w1 ++ [EvBcast doneSendingOpcode])) in *.
  rewrite recvs_walk in Hr. inversion Hr as [[Hw2 Hs2]]. clear Hr.
  pose proof (walk_identity dbg (map Recv wait) None w1') as (Hid2 & _).
  rewrite Hw2 in Hid2. change (job w1') with (job w1) in Hid2.
  destruct (closing_post w2 d2 (final_err (job w2) jerr q) Hd2)
    as (w'' & Hc' & Hfin & Hid3 & _ & He3 & _ & _ & _ & Ht3).
  rewrite Hc in Hc'. inversion Hc'; subst w''. clear Hc'.
  assert (Hidw2 : same_identity (job w) (job w2)).
  { eapply same_identity_trans; [exact Hid0|].
    eapply same_identity_trans; [exact Hid1| exact Hid2]. }
  assert (Hj : jerr = first_visit_error (job w) jog).
  { rewrite <- (first_visit_error_identity _ _ jog Hid0).
    apply (walk_result dbg jog None w0). now rewrite Hw. }
  split_and.
  - rewrite final_err_cases in Hfin. rewrite <- Hj, He3.
    rewrite <- (outcome_error_identity _ _ q Hidw2). exact Hfin.
  - intros e He. rewrite He3, <- Hw2.
    apply walk_err_kept. change (job w1') with (job w1).
    replace w1 with (fst (walk dbg None jog w0)) by now rewrite Hw.
    apply walk_err_kept. now rewrite He0.
  - destruct Hfin as (Hf & _). eauto.
Qed.

(** ** Two end-to-end scenarios *)

(** A single target copies three objects of 10, 20 and 30 bytes: three
    objects, sixty bytes, the peer-ack counter starts and stays at zero, and
    the job finishes without an error. *)
Example scenario_single_target :
  let jog := [Visit (Sample.obj "a" 10 10 None None);
              Visit (Sample.obj "b" 20 20 None None);
              Visit (Sample.obj "c" 30 30 None None)] in
  let w' := fst (Run true jog [] Quiescent (Sample.world 1)) in
  r_refc (job (Sample.world 1)) = 0
  /\ xb_objects (job w') = 3
  /\ xb_bytes (job w') = 60
  /\ r_refc (job w') = 0
  /\ xb_finished (job w') = Some None.
Proof. vm_compute. split_and; reflexivity. Qed.

(** The capacity status reports an error after the second of three objects:
    two objects are counted, the third is not visited, and the job finishes
    with an error classified as aborted. *)
Example scenario_capacity_abort :
  let jog := [Visit (Sample.obj "a" 10 10 None None);
              Visit (Sample.obj "b" 20 20 None (Some (ErrOther "capacity")));
              Visit (Sample.obj "c" 30 30 None None)] in
  let w' := fst (Run true jog [] Quiescent (Sample.world 1)) in
  xb_objects (job w') = 2
  /\ xb_bytes (job w') = 30
  /\ exists e, xb_finished (job w') = Some (Some e) /\ IsErrAborted e = true.
Proof. vm_compute. split_and; try reflexivity. eexists. split; reflexivity. Qed.

(** ** The error slot along a walk *)

(** A data record that finds an error latched is dropped: nothing is asked of
    the target and nothing is persisted. *)
Lemma recv_latched (dbg : bool) (m : recv_in) (w : World) (e : error) :
  r_err (job w) = Some e ->
  let w' := fst (recv dbg m w) in
  r_err (job w') = Some e /\ stored w' = stored w /\ trace w' = trace w.
Proof.
  intros He. cbv zeta.
  destruct (recv_kinds m) as [H|[H|H]].
  - destruct (recv_transport_failed dbg m w H) as (_ & -> & _ & -> & -> & _). auto.
  - destruct (recv_done dbg m w H) as (_ & -> & _ & -> & -> & _). auto.
  - revert H. unfold is_payload. rewrite andb_true_iff, !negb_true_iff. intros [H1 H2].
    unfold_m. rewrite H1, H2. unfold ErrValue_Err. simpl.
    destruct (debug_Assert _ _); simpl; [|auto].
    rewrite He. simpl. auto.
Qed.

(** A data record that finds the error slot empty. *)
Lemma recv_unlatched (dbg : bool) (m : recv_in) (w : World) :
  r_err (job w) = None ->
  is_payload m = true ->
  debug_Assert dbg (Opcode (m_hdr m) =? 0) = true ->
  let w' := fst (recv dbg m w) in
  r_err (job w') = recv_failure m
  /\ stored w' = stored w ++ match recv_failure m with
                             | Some _ => []
                             | None => [put_record_of m]
                             end.
Proof.
  intros He Hp Ha. cbv zeta. unfold recv_failure. rewrite Hp.
  revert Hp. unfold is_payload. rewrite andb_true_iff, !negb_true_iff. intros [H1 H2].
  unfold_m. rewrite H1, H2, Ha. unfold ErrValue_Err, ErrValue_Store, put_record_of. simpl.
  rewrite He. simpl.
  destruct (m_init_err m); simpl.
  { rewrite He, app_nil_r. auto. }
  destruct (m_put_err m); simpl.
  - rewrite He, app_nil_r. auto.
  - auto.
Qed.

Lemma sends_are_data (l : list string) : forallb is_data (map EvSend l) = true.
Proof. induction l as [|a l IH]; simpl; auto. Qed.

(** With an error latched, a walk persists nothing and asks the target for
    no put. *)
Lemma walk_latched (dbg : bool) (steps : list step) (jerr : option error) (w : World)
  (e : error) :
  r_err (job w) = Some e ->
  r_err (job (fst (walk dbg jerr steps w))) = Some e
  /\ stored (fst (walk dbg jerr steps w)) = stored w
  /\ exists evs, trace (fst (walk dbg jerr steps w)) = trace w ++ evs
                 /\ forallb is_data evs = true.
Proof.
  revert e.
  apply (walk_preserves
           (fun a b => forall e, r_err (job a) = Some e ->
                       r_err (job b) = Some e /\ stored b = stored a
                       /\ exists evs, trace b = trace a ++ evs
                                      /\ forallb is_data evs = true)).
  - intros w0 e He. split_and; auto. exists nil. now rewrite app_nil_r.
  - intros a b c Hab Hbc e He.
    destruct (Hab e He) as (H1 & H2 & e1 & H3 & F1).
    destruct (Hbc e H1) as (H4 & H5 & e2 & H6 & F2).
    split_and; [exact H4 | congruence |].
    exists (e1 ++ e2). rewrite H6, H3, app_assoc, forallb_app, F1, F2. auto.
  - intros v w0 e He.
    destruct (copyObject_post v w0) as (_ & Hj & _ & Ht & Hs & _).
    destruct (counted_identity v (job w0)) as (_ & _ & Hc & _).
    rewrite Hj, Hc, Hs, Ht. split_and; auto.
    eexists; split; [reflexivity|]. cbn [forallb is_data andb]. apply sends_are_data.
  - intros dbg0 m w0 e He.
    destruct (recv_latched dbg0 m w0 e He) as (H1 & H2 & H3).
    split_and; auto. exists nil. now rewrite app_nil_r.
Qed.


Lemma first_recv_failure_app (a b : list recv_in) :
  first_recv_failure (a ++ b)
  = match first_recv_failure a with
    | Some e => Some e
    | None => first_recv_failure b
    end.
Proof.
  induction a as [|m a IH]; simpl; [reflexivity|].
  destruct (recv_failure m); [reflexivity | exact IH].
Qed.

Lemma recvs_of_map_Recv (ms : list recv_in) : recvs_of (map Recv ms) = ms.
Proof. induction ms as [|m ms IH]; simpl; [reflexivity | now rewrite IH]. Qed.

(** Starting with an empty slot, a walk that returns leaves in it the error
    of the first data record that failed. *)
Lemma walk_first_recv_failure (dbg : bool) (steps : list step) :
  forall (jerr : option error) (w : World),
    r_err (job w) = None ->
    snd (walk dbg jerr steps w) <> None ->
    r_err (job (fst (walk dbg jerr steps w))) = first_recv_failure (recvs_of steps).
Proof.
  induction steps as [|[v|m] rest IH]; intros jerr w He Hs.
  - exact He.
  - cbn [recvs_of]. destruct jerr as [e|].
    + rewrite walk_skip in Hs |- *. now apply IH.
    + rewrite walk_visit in Hs |- *. apply IH; [|exact Hs].
      destruct (copyObject_post v w) as (_ & -> & _).
      destruct (counted_identity v (job w)) as (_ & _ & -> & _). exact He.
  - cbn [recvs_of first_recv_failure]. rewrite walk_recv in Hs |- *.
    destruct (snd (recv dbg m w)) eqn:Hr; [|now elim Hs].
    destruct (recv_kinds m) as [H|[H|H]].
    + assert (Hp : is_payload m = false) by (unfold is_payload; now rewrite H).
      destruct (recv_transport_failed dbg m w H) as (_ & Hj & _).
      unfold recv_failure. rewrite Hp. apply IH; [now rewrite Hj | exact Hs].
    + assert (Hp : is_payload m = false).
      { unfold is_done, is_payload in *.
        destruct (transport_failed (m_err m)); simpl in *; [reflexivity|].
        now rewrite H. }
      destruct (recv_done dbg m w H) as (_ & Hj & _).
      unfold recv_failure. rewrite Hp. apply IH; [now rewrite Hj | exact Hs].
    + destruct (recv_payload dbg m w H) as (Hsnd & _).
      rewrite Hr in Hsnd.
      destruct (debug_Assert dbg (Opcode (m_hdr m) =? 0)) eqn:Ha; [|discriminate].
      destruct (recv_unlatched dbg m w He H Ha) as (Hj & _).
      destruct (recv_failure m) as [e|] eqn:Hf.
      * now destruct (walk_latched dbg rest jerr _ e Hj) as (L1 & _).
      * now apply IH.
Qed.

(** The error slot at the end of a run that returns: what it held at the
    start, else the error of the first data record that failed, during the
    walk or during the wait. *)
Lemma Run_received (dbg : bool) (jog : list step) (wait : list recv_in) (q : QuiRes)
  (w w' : World) :
  Run dbg jog wait q w = (w', Some tt) ->
  r_err (job w')
  = match r_err (job w) with
    | Some e => Some e
    | None => first_recv_failure (recvs_of jog ++ wait)
    end.
Proof.
  intros HR.
  destruct (Run_finish _ _ _ _ _ _ HR) as (_ & Hkept & _).
  destruct (r_err (job w)) as [e|] eqn:He; [now apply Hkept|].
  destruct (Run_inv _ _ _ _ _ _ HR)
    as (w0 & w1 & jerr & w2 & Ho & Hw & Hr & Hc & (d & Hd) & (d2 & Hd2)).
  destruct (Run_wait_groups _ _ _ _ _ _ HR) as (n & Hn & Hn1 & Hwg).
  destruct (opening_post w d n Hd Hn Hn1 Hwg) as (w0' & Ho' & _ & _ & _ & He0 & _).
  rewrite Ho in Ho'. inversion Ho'; subst w0'. clear Ho'.
  destruct (closing_post w2 d2 (final_err (job w2) jerr q) Hd2)
    as (w'' & Hc' & _ & _ & _ & He3 & _).
  rewrite Hc in Hc'. inversion Hc'; subst w''. clear Hc'.
  rewrite He3, first_recv_failure_app.
  pose proof (walk_first_recv_failure dbg jog None w0 ltac:(now rewrite He0)) as H1.
  rewrite Hw in H1. simpl in H1. specialize (H1 ltac:(discriminate)).
  set (w1' := set_trace w1 (trace w1 ++ [EvBcast doneSendingOpcode])) in *.
  rewrite recvs_walk in Hr. inversion Hr as [[Hw2 Hs2]]. clear Hr.
  destruct (first_recv_failure (recvs_of jog)) as [e|] eqn:Hf.
  - now destruct (walk_latched dbg (map Recv wait) None w1' e H1) as (L1 & _).
  - pose proof (walk_first_recv_failure dbg (map Recv wait) None w1' H1) as H2.
    rewrite recvs_of_map_Recv in H2. apply H2.
    destruct (snd (walk dbg None (map Recv wait) w1')); discriminate.
Qed.

(** ** The calls made on the payload stream *)

(** A data record: the stream is read by the put, if a put is attempted,
    then drained, then released; when the opcode assertion fails it is only
    released. *)
Lemma recv_payload_stream (dbg : bool) (m : recv_in) (w : World) :
  is_payload m = true ->
  rx (fst (recv dbg m w))
  = if debug_Assert dbg (Opcode (m_hdr m) =? 0) then
      {| rd_unread := 0; rd_freed := true;
         rd_calls := rd_calls (m_reader m)
                     ++ match r_err (job w), m_init_err m with
                        | None, None => [CallRead (m_put_reads m)]
                        | _, _ => []
                        end
                     ++ [CallDrainReader; CallFreeRecv] |}
    else
      {| rd_unread := rd_unread (m_reader m); rd_freed := true;
         rd_calls := rd_calls (m_reader m) ++ [CallFreeRecv] |}.
Proof.
  unfold is_payload. rewrite andb_true_iff, !negb_true_iff. intros [H1 H2].
  unfold_m. rewrite H1, H2. unfold ErrValue_Err, ErrValue_Store. simpl.
  destruct (debug_Assert _ _); simpl; [|reflexivity].
  destruct (r_err (job w)) as [e0|] eqn:He; simpl.
  { now rewrite <- app_assoc. }
  destruct (m_init_err m); simpl.
  { now rewrite <- app_assoc. }
  destruct (m_put_err m); simpl; rewrite <- !app_assoc; reflexivity.
Qed.

(** * The claims *)

(** C1, as stated, fails: a request with the running job's ID but in the
    wrong phase order (begin after begin) is not rejected with a conflict
    error.  Outside debug builds it is accepted and told to reuse the running
    instance; in a debug build the assertion panics. *)
Lemma WhenPrevIsRunning_wrong_phase_not_rejected :
  let e := Sample.factory "u1" ActBegin Sample.bckA in
  let prev := Sample.factory "u1" ActBegin Sample.bckA in
  commit_continuation e prev = false
  /\ WhenPrevIsRunning false e prev = Returned (transitioned prev, WprUse, None)
  /\ WhenPrevIsRunning true e prev = Panicked.
Proof. repeat split. Qed.

(** C1, amended: the request is rejected with the conflict error exactly when
    its job ID differs from the running job's, and then the running entry is
    left as it was.  With equal IDs the bucket identity and the phase order
    are debug assertions: outside debug builds the request is accepted
    whatever they are, in a debug build it is accepted when they hold and the
    call panics when they do not.  On acceptance the phase in the running
    entry's arguments becomes commit in place, the running instance is kept
    and the caller is told to reuse it. *)
Theorem WhenPrevIsRunning_admission (dbg : bool) (e prev : tcbFactory) :
  (String.eqb (e_UUID e) (e_UUID prev) = false ->
     WhenPrevIsRunning dbg e prev =
       Returned (prev, WprUnset,
                 Some (Errorf_running (Get_String prev) (RenewBase_Str e (e_kind e)))))
  /\ (String.eqb (e_UUID e) (e_UUID prev) = true -> dbg = false ->
        WhenPrevIsRunning dbg e prev = Returned (transitioned prev, WprUse, None))
  /\ (dbg = true -> commit_continuation e prev = true ->
        WhenPrevIsRunning dbg e prev = Returned (transitioned prev, WprUse, None))
  /\ (String.eqb (e_UUID e) (e_UUID prev) = true -> dbg = true ->
        commit_continuation e prev = false ->
        WhenPrevIsRunning dbg e prev = Panicked)
  /\ (forall prev' wpr, WhenPrevIsRunning dbg e prev = Returned (prev', wpr, None) ->
        wpr = WprUse
        /\ String.eqb (e_UUID e) (e_UUID prev) = true
        /\ Phase (e_args prev') = ActCommit
        /\ e_xact prev' = e_xact prev
        /\ e_phase prev' = e_phase prev
        /\ e_UUID prev' = e_UUID prev).
Proof.
  unfold WhenPrevIsRunning, commit_continuation, debug_Assert, transitioned.
  destruct (String.eqb (e_UUID e) (e_UUID prev)) eqn:Hid; simpl.
  - split_and; try discriminate.
    + intros _ ->. reflexivity.
    + intros -> H. simpl. rewrite andb_true_iff in H. destruct H as [-> ->]. reflexivity.
    + intros _ -> H. simpl.
      destruct (Bck_Equal _ _ true true); simpl in *; [rewrite H|]; reflexivity.
    + intros prev' wpr H.
      destruct dbg; simpl in H;
        repeat match type of H with
               | context [if negb ?c then _ else _] => destruct c; simpl in H
               end; try discriminate; inversion H; split_and; reflexivity.
  - split_and; try discriminate; intros; congruence.
Qed.

(** A commit for the running job in a debug build is accepted, and a request
    with another ID is rejected. *)
Lemma WhenPrevIsRunning_admission_witness :
  let prev := Sample.factory "u1" ActBegin Sample.bckA in
  WhenPrevIsRunning true (Sample.factory "u1" ActCommit Sample.bckA) prev
    = Returned (transitioned prev, WprUse, None)
  /\ WhenPrevIsRunning true (Sample.factory "u2" ActBegin Sample.bckA) prev
    = Returned (prev, WprUnset,
                Some (Errorf_running "<nil>" "copy-bck[u2]")).
Proof.
  intros prev. split.
  - exact (proj1 (proj2 (proj2 (WhenPrevIsRunning_admission true
             (Sample.factory "u1" ActCommit Sample.bckA) prev))) eq_refl eq_refl).
  - exact (proj1 (WhenPrevIsRunning_admission true
             (Sample.factory "u2" ActBegin Sample.bckA) prev) eq_refl).
Defined.

(** C2: [Start] sets the peer-ack counter to the number of targets minus
    one.  Every record that arrives without a transport failure and carries
    the done-sending opcode takes exactly one off it, whatever else the job
    does in between.  With no more than N-1 such markers the counter is never
    negative (so the handler's assertion holds in a debug build), it equals
    N-1 less the markers received, and after N-1 markers it is zero. *)
Theorem refc_counts_done_markers (dbg : bool) (e e' : tcbFactory) (i : start_in)
  (err : option error) (r : XactTCB) :
  1 <= si_CountTargets i <= 2 ^ 31 ->
  Start e i = Returned (e', err) ->
  e_xact e' = Some r ->
  r_refc r = si_CountTargets i - 1
  /\ (forall (m : recv_in) (w : World),
        is_done m = true -> 0 <= r_refc (job w) < 2 ^ 31 ->
        r_refc (job (fst (recv dbg m w))) = r_refc (job w) - 1)
  /\ (forall (w : World) (steps : list step) (jerr : option error),
        job w = r ->
        done_markers steps <= si_CountTargets i - 1 ->
        let w' := fst (walk dbg jerr steps w) in
        0 <= r_refc (job w')
        /\ (known_opcodes steps -> snd (walk dbg jerr steps w) <> None)
        /\ (snd (walk dbg jerr steps w) <> None ->
            r_refc (job w') = si_CountTargets i - 1 - done_markers steps)
        /\ (snd (walk dbg jerr steps w) <> None ->
            done_markers steps = si_CountTargets i - 1 ->
            r_refc (job w') = 0)).
Proof.
  intros HN HS Hx.
  assert (Hr : r_refc r = si_CountTargets i - 1).
  { unfold Start in HS. destruct (si_slab_err i); [discriminate|].
    unfold newDM in HS.
    destruct (si_newdm_err i); [|destruct (si_regrecv_err i)];
      inversion HS; subst e'; simpl in Hx; inversion Hx; simpl;
      apply int32_small; lia. }
  split_and.
  - exact Hr.
  - intros m w Hd Hrange. destruct (recv_done dbg m w Hd) as (_ & -> & _).
    simpl. apply int32_small. lia.
  - intros w steps jerr Hj Hm. cbv zeta.
    assert (Hrange : 0 <= r_refc (job w) < 2 ^ 31) by (rewrite Hj, Hr; lia).
    assert (Hm' : done_markers steps <= r_refc (job w)) by (rewrite Hj, Hr; lia).
    destruct (walk_refc dbg steps jerr w Hrange Hm') as (I1 & I2 & I3).
    cbv zeta in I1, I2. rewrite Hj, Hr in I1, I2.
    split_and; [lia | exact I3 | exact I2 | intros K1 K2; rewrite (I2 K1); lia].
Qed.

(** A cluster of three targets: two done markers, a data record in between,
    in a debug build. *)
Lemma refc_counts_done_markers_witness :
  let steps := [Recv Sample.done_marker; Recv (Sample.data "o" 4 None);
                Recv Sample.done_marker] in
  r_refc (Sample.xact 3) = 2
  /\ r_refc (job (fst (walk true None steps (Sample.world 3)))) = 0.
Proof.
  intros steps.
  pose proof (refc_counts_done_markers true (Sample.factory "u1" ActBegin Sample.bckA)
                (Sample.started_factory 3) (Sample.started 3) None (Sample.xact 3)
                ltac:(simpl; lia) eq_refl eq_refl) as (H1 & _ & H3).
  split; [exact H1|].
  assert (Hm : done_markers steps <= si_CountTargets (Sample.started 3) - 1)
    by (vm_compute; discriminate).
  refine (proj2 (proj2 (proj2 (H3 (Sample.world 3) steps None eq_refl Hm))) _ eq_refl).
  vm_compute. discriminate.
Defined.

(** C3: the wait resolves into one of three outcomes (that it resolves is
    the contract of the quiescence wait, which lives in package xaction), and
    when neither the pipeline returned an error nor a receive error was
    stored, the outcome decides the terminal error: quiesced gives nil,
    aborted gives an error classified as aborted, timed out gives the
    quiesce-timeout error, which is neither nil nor aborted; the three are
    told apart by the error alone.  In each case [Run] returns, provided the
    data mover is there and both wait groups have a count to give, with the
    data mover closed and unregistered and the xaction finished. *)
Theorem Run_outcome_of_wait (dbg : bool) (jog : list step) (wait : list recv_in)
  (q : QuiRes) (w : World) (d : DataMover) (n : Z) :
  r_dm (job w) = Some d ->
  caller_wg w = Some n ->
  1 <= n ->
  1 <= r_wg (job w) ->
  no_assertion_fails dbg w (jog ++ map Recv wait) ->
  first_visit_error (job w) jog = None ->
  r_err (job w) = None ->
  first_recv_failure (recvs_of jog ++ wait) = None ->
  let w' := fst (Run dbg jog wait q w) in
  snd (Run dbg jog wait q w) = Some tt
  /\ finished_with (outcome_error (job w) q) (job w')
  /\ (exists pre, trace w' = pre ++ [EvClose (outcome_error (job w) q); EvUnregRecv;
                                     EvFinish (outcome_error (job w) q)])
  /\ match q with
     | Quiescent => outcome_error (job w) q = None
     | QuiAborted =>
         exists e, outcome_error (job w) q = Some e
                   /\ IsErrAborted e = true /\ IsErrQuiesceTimeout e = false
     | QuiTimeout =>
         exists e, outcome_error (job w) q = Some e
                   /\ IsErrQuiesceTimeout e = true /\ IsErrAborted e = false
     end
  /\ (forall q', outcome_error (job w) q' = outcome_error (job w) q -> q' = q).
Proof.
  intros Hd Hn Hn1 Hwg Hna Hjog He0 Hrecv. cbv zeta.
  destruct (Run_completes dbg jog wait q w d n Hd Hn Hn1 Hwg Hna) as (w' & HR).
  pose proof (Run_received _ _ _ _ _ _ HR) as Herr. rewrite He0, Hrecv in Herr.
  rewrite HR. simpl.
  destruct (Run_finish _ _ _ _ _ _ HR) as (Hfin & _ & (pre & err & Ht)).
  rewrite Hjog, Herr in Hfin.
  split_and.
  - reflexivity.
  - exact Hfin.
  - exists pre. destruct Hfin as (Hf & _). destruct Ht as (Ht & Hf').
    rewrite Hf in Hf'. inversion Hf'; subst err. exact Ht.
  - destruct q; simpl; eauto.
  - intros q'. destruct q, q'; simpl; intros H; try reflexivity; discriminate.
Qed.

(** Three targets, one peer answers, the wait times out. *)
Lemma Run_outcome_of_wait_witness :
  let w := Sample.world 3 in
  let jog := [Visit (Sample.obj "a" 10 10 None None)] in
  let w' := fst (Run true jog [Sample.done_marker] QuiTimeout w) in
  snd (Run true jog [Sample.done_marker] QuiTimeout w) = Some tt
  /\ finished_with (outcome_error (job w) QuiTimeout) (job w').
Proof.
  intros w jog w'.
  assert (Hna : no_assertion_fails true w (jog ++ map Recv [Sample.done_marker])).
  { right. vm_compute. intuition discriminate. }
  destruct (Run_outcome_of_wait true jog [Sample.done_marker] QuiTimeout w
              {| dm_trname := "transcpy_u1"; dm_sizePDU := 0; dm_registered := true;
                 dm_open := false; dm_closed := None |} 1
              eq_refl eq_refl ltac:(lia) ltac:(vm_compute; discriminate) Hna
              eq_refl eq_refl eq_refl) as (H1 & H2 & _).
  split; assumption.
Defined.

(** C4, as stated, fails: a receive error is stored first, a pipeline error
    comes second, and the job finishes with the pipeline error, not with the
    one stored first. *)
Lemma Run_reports_later_pipeline_error :
  let w := Sample.world 1 in
  let jog := [Recv (Sample.data "o" 4 (Some Sample.E1));
              Visit (Sample.obj "a" 10 10 (Some Sample.E2) None)] in
  let w' := fst (Run false jog [] Quiescent w) in
  r_err (job (fst (walk false None [Recv (Sample.data "o" 4 (Some Sample.E1))] w)))
    = Some Sample.E1
  /\ first_visit_error (job w) [Recv (Sample.data "o" 4 (Some Sample.E1))] = None
  /\ r_err (job w') = Some Sample.E1
  /\ xb_finished (job w') = Some (Some Sample.E2)
  /\ Sample.E1 <> Sample.E2.
Proof.
  vm_compute. split_and; try reflexivity. discriminate.
Qed.

(** C4, amended: the error of the pipeline wins whenever the pipeline returned
    one, whether a receive error was stored before it or after it.  Without a
    pipeline error the job finishes with the receive error stored first: the
    error of the first data record that failed, during the walk or during
    the wait (or what the slot held from the start); the slot keeps what it
    holds, and errors stored later are discarded.  With neither, the outcome
    of the wait decides.  [Run] returns, and finishes so, when the data mover
    is there, both wait groups have a count to give and no assertion
    fails. *)
Theorem terminal_error_precedence (dbg : bool) (jog : list step) (wait : list recv_in)
  (q : QuiRes) (w : World) (d : DataMover) (n : Z) :
  r_dm (job w) = Some d ->
  caller_wg w = Some n ->
  1 <= n ->
  1 <= r_wg (job w) ->
  no_assertion_fails dbg w (jog ++ map Recv wait) ->
  let w' := fst (Run dbg jog wait q w) in
  let received := match r_err (job w) with
                  | Some e => Some e
                  | None => first_recv_failure (recvs_of jog ++ wait)
                  end in
  snd (Run dbg jog wait q w) = Some tt
  /\ r_err (job w') = received
  /\ xb_finished (job w')
     = Some (match first_visit_error (job w) jog with
             | Some e => Some e
             | None =>
                 match received with
                 | Some e => Some e
                 | None => outcome_error (job w) q
                 end
             end)
  /\ (forall steps jerr w0 e,
        r_err (job w0) = Some e -> r_err (job (fst (walk dbg jerr steps w0))) = Some e)
  /\ (forall cell e e', ErrValue_Store (ErrValue_Store cell e) e' = ErrValue_Store cell e).
Proof.
  intros Hd Hn Hn1 Hwg Hna. cbv zeta.
  destruct (Run_completes dbg jog wait q w d n Hd Hn Hn1 Hwg Hna) as (w' & HR).
  pose proof (Run_received _ _ _ _ _ _ HR) as Herr.
  rewrite HR. simpl.
  destruct (Run_finish _ _ _ _ _ _ HR) as ((Hfin & _) & Hkept & _).
  rewrite Herr in Hfin.
  split_and; auto.
  - intros steps jerr w0 e. apply walk_err_kept.
  - intros [c|] e e'; reflexivity.
Qed.

(** A pipeline error after a stored receive error, a receive error after a
    pipeline error, and two receive errors without a pipeline error: the
    pipeline error is the terminal one in the first two runs, the receive
    error stored first in the third. *)
Lemma terminal_error_precedence_witness :
  let w := Sample.world 1 in
  let failing := Visit (Sample.obj "a" 10 10 (Some Sample.E2) None) in
  let bad_put := Recv (Sample.data "o" 4 (Some Sample.E1)) in
  let worse_put := Sample.data "p" 4 (Some (ErrOther "disk fault")) in
  xb_finished (job (fst (Run true [bad_put; failing] [] Quiescent w)))
    = Some (Some Sample.E2)
  /\ xb_finished (job (fst (Run true [failing; bad_put] [] Quiescent w)))
    = Some (Some Sample.E2)
  /\ xb_finished (job (fst (Run true [bad_put] [worse_put] Quiescent w)))
    = Some (Some Sample.E1).
Proof.
  intros w failing bad_put worse_put.
  pose (d := {| dm_trname := "transcpy_u1"%string; dm_sizePDU := 0; dm_registered := true;
                dm_open := false; dm_closed := None |}).
  assert (Hwg : 1 <= r_wg (job w)) by (vm_compute; discriminate).
  split_and.
  - assert (Hna : no_assertion_fails true w ([bad_put; failing] ++ map Recv [])).
    { right. vm_compute. intuition discriminate. }
    exact (proj1 (proj2 (proj2 (terminal_error_precedence true [bad_put; failing] []
                                  Quiescent w d 1 eq_refl eq_refl ltac:(lia) Hwg Hna)))).
  - assert (Hna : no_assertion_fails true w ([failing; bad_put] ++ map Recv [])).
    { right. vm_compute. intuition discriminate. }
    exact (proj1 (proj2 (proj2 (terminal_error_precedence true [failing; bad_put] []
                                  Quiescent w d 1 eq_refl eq_refl ltac:(lia) Hwg Hna)))).
  - assert (Hna : no_assertion_fails true w ([bad_put] ++ map Recv [worse_put])).
    { right. vm_compute. intuition discriminate. }
    exact (proj1 (proj2 (proj2 (terminal_error_precedence true [bad_put] [worse_put]
                                  Quiescent w d 1 eq_refl eq_refl ltac:(lia) Hwg Hna)))).
Defined.

(** C5: a successful copy adds one to the object counter and the copied size
    to the byte counter, the size of the object before the transformation
    when the copy reports the size as unknown.  With sizes that are not
    negative and counters that stay within 64 bits, neither counter ever
    goes down: not across a visit, not across a handler invocation, not
    along a walk, not over a whole run. *)
Theorem counters_count_copied_objects :
  (forall (v : visit) (w : World),
      v_copy_err v = None ->
      sane_sizes v ->
      0 <= xb_objects (job w) < 2 ^ 63 - 1 ->
      0 <= xb_bytes (job w) ->
      xb_bytes (job w) + visit_bytes v < 2 ^ 63 ->
      let w' := fst (copyObject v w) in
      xb_objects (job w') = xb_objects (job w) + 1
      /\ xb_bytes (job w')
         = xb_bytes (job w)
           + (if v_copy_size v =? ContentLengthUnknown
              then lom_SizeBytes (v_lom v) else v_copy_size v))
  /\ (forall (v : visit) (w : World) (e : error),
        v_copy_err v = Some e ->
        xb_objects (job (fst (copyObject v w))) = xb_objects (job w)
        /\ xb_bytes (job (fst (copyObject v w))) = xb_bytes (job w))
  /\ (forall (dbg : bool) (steps : list step) (jerr : option error) (w : World),
        Forall sane_sizes (visits_of steps) ->
        0 <= xb_objects (job w) ->
        xb_objects (job w) + Z.of_nat (List.length (visits_of steps)) < 2 ^ 63 ->
        0 <= xb_bytes (job w) ->
        xb_bytes (job w) + total_bytes (visits_of steps) < 2 ^ 63 ->
        xb_objects (job w) <= xb_objects (job (fst (walk dbg jerr steps w)))
        /\ xb_bytes (job w) <= xb_bytes (job (fst (walk dbg jerr steps w))))
  /\ (forall (dbg : bool) (jog : list step) (wait : list recv_in) (q : QuiRes)
             (w w' : World),
        Forall sane_sizes (visits_of jog) ->
        0 <= xb_objects (job w) ->
        xb_objects (job w) + Z.of_nat (List.length (visits_of jog)) < 2 ^ 63 ->
        0 <= xb_bytes (job w) ->
        xb_bytes (job w) + total_bytes (visits_of jog) < 2 ^ 63 ->
        Run dbg jog wait q w = (w', Some tt) ->
        xb_objects (job w) <= xb_objects (job w')
        /\ xb_bytes (job w) <= xb_bytes (job w')).
Proof.
  split_and.
  - intros v w Hok Hs Ho Hb1 Hb2. cbv zeta.
    destruct (copyObject_post v w) as (_ & -> & _).
    pose proof (visit_bytes_nonneg v Hs).
    unfold counted. rewrite Hok. simpl. fold (visit_bytes v).
    rewrite !int64_small; lia.
  - intros v w e He. destruct (copyObject_post v w) as (_ & -> & _).
    unfold counted. rewrite He. auto.
  - intros dbg steps jerr w Hs Ho1 Ho2 Hb1 Hb2.
    pose proof (walk_counters dbg steps jerr w Hs Ho1 Ho2 Hb1 Hb2) as H.
    cbv zeta in H. lia.
  - intros dbg jog wait q w w' Hs Ho1 Ho2 Hb1 Hb2 HR.
    destruct (Run_inv _ _ _ _ _ _ HR)
      as (w0 & w1 & jerr & w2 & Ho & Hw & Hr & Hc & (d & Hd) & (d2 & Hd2)).
    destruct (Run_wait_groups _ _ _ _ _ _ HR) as (n & Hn & Hn1 & Hwg).
    destruct (opening_post w d n Hd Hn Hn1 Hwg) as (w0' & Ho' & _ & _ & _ & _ & Eo & Eb & _).
    rewrite Ho in Ho'. inversion Ho'; subst w0'. clear Ho'.
    pose proof (walk_counters dbg jog None w0 Hs) as H1.
    rewrite Eo, Eb, Hw in H1. specialize (H1 Ho1 Ho2 Hb1 Hb2). cbv zeta in H1.
    simpl in H1.
    rewrite recvs_walk in Hr. inversion Hr as [[Hw2 Hs2]]. clear Hr.
    assert (H2 : xb_objects (job w2) = xb_objects (job w1)
                 /\ xb_bytes (job w2) = xb_bytes (job w1)).
    { rewrite <- Hw2.
      set (w1' := set_trace w1 (trace w1 ++ [EvBcast doneSendingOpcode])).
      change (job w1) with (job w1').
      generalize w1'. clear. induction wait as [|m ms IH]; intros w.
      - auto.
      - cbn [map]. rewrite walk_recv.
        destruct (recv_frame dbg m w) as (_ & _ & Eo & Eb & _).
        destruct (snd (recv dbg m w)); simpl; [|auto].
        destruct (IH (fst (recv dbg m w))) as [-> ->]. auto. }
    destruct (closing_post w2 d2 (final_err (job w2) jerr q) Hd2)
      as (w'' & Hc' & _ & _ & _ & _ & Eo3 & Eb3 & _).
    rewrite Hc in Hc'. inversion Hc'; subst w''.
    rewrite Eo3, Eb3. destruct H2 as [-> ->]. lia.
Qed.

(** Three objects of 10, 20 and 30 bytes, the second of unknown size after
    the transformation. *)
Lemma counters_count_copied_objects_witness :
  let w := Sample.world 1 in
  let jog := [Visit (Sample.obj "a" 10 10 None None);
              Visit (Sample.obj "b" 20 ContentLengthUnknown None None);
              Visit (Sample.obj "c" 30 30 None None)] in
  xb_objects (job (fst (copyObject (Sample.obj "b" 20 ContentLengthUnknown None None) w)))
    = xb_objects (job w) + 1
  /\ xb_bytes (job (fst (copyObject (Sample.obj "b" 20 ContentLengthUnknown None None) w)))
    = xb_bytes (job w) + 20
  /\ xb_objects (job w) <= xb_objects (job (fst (walk true None jog w)))
  /\ xb_bytes (job w) <= xb_bytes (job (fst (walk true None jog w)))
  /\ xb_objects (job w) <= xb_objects (job (fst (Run true jog [] Quiescent w)))
  /\ xb_bytes (job w) <= xb_bytes (job (fst (Run true jog [] Quiescent w))).
Proof.
  intros w jog.
  destruct counters_count_copied_objects as (H1 & _ & H3 & H4).
  assert (Hs : Forall sane_sizes (visits_of jog)).
  { repeat constructor; simpl; try lia; right; lia. }
  assert (Hv : sane_sizes (Sample.obj "b" 20 ContentLengthUnknown None None)).
  { split; simpl; [lia | now left]. }
  destruct (H1 (Sample.obj "b" 20 ContentLengthUnknown None None) w eq_refl Hv
              ltac:(simpl; lia) ltac:(simpl; lia) ltac:(vm_compute; reflexivity))
    as [K1 K2].
  destruct (H3 true jog None w Hs ltac:(simpl; lia) ltac:(vm_compute; reflexivity)
              ltac:(simpl; lia) ltac:(vm_compute; reflexivity)) as [K3 K4].
  destruct (H4 true jog [] Quiescent w (fst (Run true jog [] Quiescent w)) Hs
              ltac:(simpl; lia) ltac:(vm_compute; reflexivity)
              ltac:(simpl; lia) ltac:(vm_compute; reflexivity)
              ltac:(vm_compute; reflexivity)) as [K5 K6].
  split_and; assumption.
Defined.

(** C6: after a successful copy the capacity status is consulted, and an
    error it reports makes the visit return an error classified as aborted
    that wraps it.  An out-of-space error of the copy itself is wrapped the
    same way.  Any other error of the copy is returned as it is, and it is
    what the walk returns: no later visit or handler replaces it. *)
Theorem copyObject_classifies_errors (v : visit) (w : World) :
  (forall ce, v_copy_err v = None -> v_cap_err v = Some ce ->
     exists a, snd (copyObject v w) = Some (Some a)
               /\ a = ErrAborted (XactTCB_Name (job w)) "copy-obj" (Some ce)
               /\ IsErrAborted a = true /\ AbortedCause a = Some ce)
  /\ (v_copy_err v = None -> v_cap_err v = None -> snd (copyObject v w) = Some None)
  /\ (forall e, v_copy_err v = Some e -> IsErrOOS e = true ->
        exists a, snd (copyObject v w) = Some (Some a)
                  /\ a = ErrAborted (XactTCB_Name (job w)) "copy-obj" (Some e)
                  /\ IsErrAborted a = true /\ AbortedCause a = Some e)
  /\ (forall e, v_copy_err v = Some e -> IsErrOOS e = false ->
        snd (copyObject v w) = Some (Some e))
  /\ (forall e dbg rest res,
        snd (copyObject v w) = Some (Some e) ->
        snd (walk dbg None (Visit v :: rest) w) = Some res ->
        res = Some e).
Proof.
  destruct (copyObject_post v w) as (Hs & _).
  split_and.
  - intros ce H1 H2. rewrite Hs. unfold visit_error. rewrite H1, H2.
    eexists. split_and; reflexivity.
  - intros H1 H2. rewrite Hs. unfold visit_error. now rewrite H1, H2.
  - intros e H1 H2. rewrite Hs. unfold visit_error. rewrite H1, H2.
    eexists. split_and; reflexivity.
  - intros e H1 H2. rewrite Hs. unfold visit_error. now rewrite H1, H2.
  - intros e dbg rest res He Hw. rewrite walk_visit in Hw.
    apply walk_result in Hw. rewrite Hs in He. injection He as He'.
    rewrite He' in Hw. exact Hw.
Qed.

(** The capacity status reports an error after the second object. *)
Lemma copyObject_classifies_errors_witness :
  let v := Sample.obj "b" 20 20 None (Some (ErrOther "capacity")) in
  exists a, snd (copyObject v (Sample.world 1)) = Some (Some a)
            /\ IsErrAborted a = true /\ AbortedCause a = Some (ErrOther "capacity").
Proof.
  intros v.
  destruct (proj1 (copyObject_classifies_errors v (Sample.world 1))
              (ErrOther "capacity") eq_refl eq_refl) as (a & H1 & _ & H2 & H3).
  exists a. auto.
Defined.

(** C7: in every execution of [Run], whether it returns or panics on the
    way, the calls it makes split in two: no done marker goes out in the
    first part and no object is copied or sent in the second.  When [Run]
    returns, the second part starts with the broadcast of the done marker and
    the first part is all that happened up to the return of the jogger's
    walk, whether the walk returned an error or not. *)
Theorem marker_after_enumeration (dbg : bool) (jog : list step) (wait : list recv_in)
  (q : QuiRes) (w : World) :
  exists pre post,
    trace (fst (Run dbg jog wait q w)) = trace w ++ pre ++ post
    /\ forallb (fun ev => negb (is_marker ev)) pre = true
    /\ forallb (fun ev => negb (is_data ev)) post = true
    /\ (snd (Run dbg jog wait q w) = Some tt ->
        exists w0 w1 jerr post',
          opening w = (w0, Some tt)
          /\ walk dbg None jog w0 = (w1, Some jerr)
          /\ jerr = first_visit_error (job w) jog
          /\ trace w1 = trace w ++ pre
          /\ post = EvBcast doneSendingOpcode :: post').
Proof.
  remember (Run dbg jog wait q w) as res eqn:HR.
  rewrite Run_stages in HR. unfold bind at 1 in HR.
  destruct (r_dm (job w)) as [d|] eqn:Hd.
  2:{ exists nil, nil. revert HR. unfold opening. unfold_m. rewrite Hd. simpl.
      intros ->. simpl. rewrite app_nil_r. split_and; auto. discriminate. }
  destruct (opening_cases w d Hd) as [(n & w0 & Hn & Hn1 & Hwg & Ho)|(w0 & Ho & Ht0)].
  2:{ exists [EvSetXact; EvOpen], nil. rewrite Ho in HR. subst res. simpl.
      rewrite Ht0. split_and; try reflexivity. discriminate. }
  destruct (opening_post w d n Hd Hn Hn1 Hwg)
    as (w0' & Ho' & Hid0 & (d0 & Hd0) & _ & _ & _ & _ & _ & Ht0).
  rewrite Ho in Ho'. inversion Ho'; subst w0'. clear Ho'.
  rewrite Ho in HR. unfold bind at 1 in HR.
  destruct (walk_trace dbg jog None w0) as (evs & Ht1 & F1).
  destruct (walk_identity dbg jog None w0) as (_ & Hd1 & _).
  pose proof (walk_result dbg jog None w0) as Hres.
  destruct (walk dbg None jog w0) as [w1 [jerr|]] eqn:Hw; simpl in Ht1, Hd1, Hres.
  2:{ exists ([EvSetXact; EvOpen] ++ evs), nil. subst res. simpl.
      rewrite Ht1, Ht0, app_nil_r, <- app_assoc. simpl. rewrite F1.
      split_and; auto. discriminate. }
  rewrite Hd0 in Hd1.
  unfold bind at 1 in HR. rewrite (dm_Bcast_post w1 d0 _ Hd1) in HR.
  unfold Quiesce in HR. unfold bind at 1 in HR. unfold bind at 1 in HR.
  set (w1' := set_trace w1 (trace w1 ++ [EvBcast doneSendingOpcode])) in *.
  destruct (recvs_trace dbg wait w1') as (evs2 & Ht2 & F2).
  assert (F2' : forallb (fun ev => negb (is_data ev)) evs2 = true).
  { revert F2. apply forallb_weaken. intros [] H; simpl in *; auto; discriminate. }
  assert (Hd2 : r_dm (job (fst (recvs dbg wait w1'))) = Some d0).
  { rewrite recvs_walk. simpl.
    destruct (walk_identity dbg (map Recv wait) None w1') as (_ & H & _).
    rewrite H. exact Hd1. }
  destruct (recvs dbg wait w1') as [w2 [[]|]] eqn:Hr; simpl in Ht2, Hd2.
  2:{ exists ([EvSetXact; EvOpen] ++ evs), (EvBcast doneSendingOpcode :: evs2).
      subst res. simpl.
      rewrite Ht2. unfold w1'. simpl. rewrite Ht1, Ht0, <- !app_assoc. simpl.
      rewrite F1, F2'. split_and; auto. discriminate. }
  unfold ret in HR. unfold bind at 1 in HR. unfold get_job in HR.
  destruct (closing_post w2 d0 (final_err (job w2) jerr q) Hd2)
    as (w' & Hc & _ & _ & _ & _ & _ & _ & _ & Ht3).
  rewrite Hc in HR. subst res. simpl.
  exists ([EvSetXact; EvOpen] ++ evs),
         (EvBcast doneSendingOpcode
            :: evs2 ++ [EvClose (final_err (job w2) jerr q); EvUnregRecv;
                        EvFinish (final_err (job w2) jerr q)]).
  split_and.
  - rewrite Ht3, Ht2. unfold w1'. simpl. rewrite Ht1, Ht0, <- !app_assoc. reflexivity.
  - simpl. exact F1.
  - simpl. rewrite forallb_app, F2'. reflexivity.
  - intros _. exists w0, w1, jerr. eexists. split_and.
    + exact Ho.
    + exact Hw.
    + rewrite (Hres jerr eq_refl). now apply first_visit_error_identity.
    + rewrite Ht1, Ht0, <- app_assoc. reflexivity.
    + reflexivity.
Qed.

(** Two objects are copied and sent, then the marker goes out. *)
Lemma marker_after_enumeration_witness :
  trace (fst (Run true [Visit (Sample.obj "a" 10 10 None None);
                        Visit (Sample.obj "b" 20 20 None None)]
                [] Quiescent (Sample.world 1)))
  = [EvSetXact; EvOpen;
     EvCopyObject "a" (params_of (Sample.xact 1) (Sample.obj "a" 10 10 None None));
     EvSend "a";
     EvCopyObject "b" (params_of (Sample.xact 1) (Sample.obj "b" 20 20 None None));
     EvSend "b";
     EvBcast doneSendingOpcode; EvClose None; EvUnregRecv; EvFinish None]
  /\ exists pre post,
       trace (fst (Run true [Visit (Sample.obj "a" 10 10 None None);
                             Visit (Sample.obj "b" 20 20 None None)]
                     [] Quiescent (Sample.world 1)))
       = trace (Sample.world 1) ++ pre ++ post
       /\ forallb (fun ev => negb (is_marker ev)) pre = true
       /\ forallb (fun ev => negb (is_data ev)) post = true.
Proof.
  split; [vm_compute; reflexivity|].
  destruct (marker_after_enumeration true
              [Visit (Sample.obj "a" 10 10 None None);
               Visit (Sample.obj "b" 20 20 None None)]
              [] Quiescent (Sample.world 1)) as (pre & post & H1 & H2 & H3 & _).
  exists pre, post. auto.
Defined.

(** C8, as stated, fails: a record whose transport failed with five bytes
    of its payload unread leaves the handler released but not drained, and so
    does a record with the done-sending opcode that carries a payload.  The
    only call made on either stream is the release. *)
Lemma recv_early_exits_do_not_drain :
  let failed := Sample.broken "o" 5 in
  let marker :=
    {| m_hdr := Sample.hdr doneSendingOpcode "" 3;
       m_reader := {| rd_unread := 3; rd_freed := false; rd_calls := [] |};
       m_err := None; m_init_err := None; m_put_reads := 0; m_put_err := None |} in
  rx (fst (recv false failed (Sample.world 2)))
    = {| rd_unread := 5; rd_freed := true; rd_calls := [CallFreeRecv] |}
  /\ rx (fst (recv false marker (Sample.world 2)))
    = {| rd_unread := 3; rd_freed := true; rd_calls := [CallFreeRecv] |}
  /\ rd_unread (rx (fst (recv false failed (Sample.world 2)))) <> 0%nat.
Proof.
  vm_compute. split_and; try reflexivity. discriminate.
Qed.

(** C8, amended: on every exit path of the handler, a panic included, the
    stream is released, once and as the last call made on it.  On the paths
    of a data record (error already latched, local object not resolved,
    persist failure, success) the stream is drained first: the calls are the
    read of the put, if a put is attempted, then the drain, then the release,
    and nothing is left unread.  On the two early exits, a failed transport
    and a done marker, the release is the only call and what was unread stays
    unread. *)
Theorem recv_releases_stream (dbg : bool) (m : recv_in) (w : World) :
  let w' := fst (recv dbg m w) in
  let calls := rd_calls (m_reader m) in
  rd_freed (rx w') = true
  /\ (exists mid, rd_calls (rx w') = calls ++ mid ++ [CallFreeRecv]
                  /\ ~ In CallFreeRecv mid)
  /\ (is_payload m = true -> debug_Assert dbg (Opcode (m_hdr m) =? 0) = true ->
      rd_unread (rx w') = 0%nat
      /\ rd_calls (rx w')
         = calls
           ++ match r_err (job w), m_init_err m with
              | None, None => [CallRead (m_put_reads m)]
              | _, _ => []
              end
           ++ [CallDrainReader; CallFreeRecv])
  /\ (transport_failed (m_err m) = true ->
      rd_unread (rx w') = rd_unread (m_reader m)
      /\ rd_calls (rx w') = calls ++ [CallFreeRecv])
  /\ (is_done m = true ->
      rd_unread (rx w') = rd_unread (m_reader m)
      /\ rd_calls (rx w') = calls ++ [CallFreeRecv]).
Proof.
  cbv zeta. split_and.
  - now destruct (recv_frame dbg m w) as (_ & _ & _ & _ & _ & _ & _ & _ & H).
  - destruct (recv_kinds m) as [H|[H|H]].
    + destruct (recv_transport_failed dbg m w H) as (_ & _ & _ & _ & _ & ->).
      exists nil. simpl. auto.
    + destruct (recv_done dbg m w H) as (_ & _ & _ & _ & _ & _ & ->).
      exists nil. simpl. auto.
    + rewrite (recv_payload_stream dbg m w H).
      destruct (debug_Assert dbg (Opcode (m_hdr m) =? 0)); simpl.
      * destruct (r_err (job w)); [|destruct (m_init_err m)]; simpl.
        -- exists [CallDrainReader]. split; [reflexivity|].
           simpl. intros [K|[]]. discriminate.
        -- exists [CallDrainReader]. split; [reflexivity|].
           simpl. intros [K|[]]. discriminate.
        -- exists [CallRead (m_put_reads m); CallDrainReader]. split; [reflexivity|].
           simpl. intros [K|[K|[]]]; discriminate.
      * exists nil. simpl. auto.
  - intros H Ha. rewrite (recv_payload_stream dbg m w H), Ha. simpl. auto.
  - intros H. destruct (recv_transport_failed dbg m w H) as (_ & _ & _ & _ & _ & ->).
    simpl. auto.
  - intros H. destruct (recv_done dbg m w H) as (_ & _ & _ & _ & _ & _ & ->).
    simpl. auto.
Qed.

(** A data record whose persisting fails after two of its four bytes. *)
Lemma recv_releases_stream_witness :
  let m := {| m_hdr := Sample.hdr 0 "o" 4;
              m_reader := {| rd_unread := 4; rd_freed := false; rd_calls := [] |};
              m_err := Some io_EOF; m_init_err := None; m_put_reads := 2;
              m_put_err := Some Sample.E1 |} in
  rd_unread (rx (fst (recv true m (Sample.world 2)))) = 0%nat
  /\ rd_calls (rx (fst (recv true m (Sample.world 2))))
     = [CallRead 2; CallDrainReader; CallFreeRecv].
Proof.
  intros m.
  destruct (recv_releases_stream true m (Sample.world 2)) as (_ & _ & H & _).
  exact (H eq_refl eq_refl).
Defined.



(** C10: on a record with the done-sending opcode the handler takes one off
    the peer-ack counter and changes nothing else: the object counter, the
    byte counter and the error slot stay as they are, nothing is persisted
    and no call goes to the target.  On a transport error other than EOF no
    state of the job changes at all. *)
Theorem recv_frame_effect (dbg : bool) (m : recv_in) (w : World) :
  let w' := fst (recv dbg m w) in
  (is_done m = true ->
     job w' = set_refc (job w) (int32 (r_refc (job w) - 1))
     /\ (- 2 ^ 31 < r_refc (job w) < 2 ^ 31 -> r_refc (job w') = r_refc (job w) - 1)
     /\ xb_objects (job w') = xb_objects (job w)
     /\ xb_bytes (job w') = xb_bytes (job w)
     /\ r_err (job w') = r_err (job w)
     /\ stored w' = stored w
     /\ trace w' = trace w
     /\ cpObjPool w' = cpObjPool w)
  /\ (transport_failed (m_err m) = true ->
        job w' = job w
        /\ stored w' = stored w
        /\ trace w' = trace w
        /\ cpObjPool w' = cpObjPool w).
Proof.
  cbv zeta. split.
  - intros H. destruct (recv_done dbg m w H) as (_ & Hj & Hp & Hs & Ht & _).
    rewrite Hj, Hp, Hs, Ht. simpl. split_and; auto.
    intros Hr. apply int32_small. lia.
  - intros H. destruct (recv_transport_failed dbg m w H) as (_ & Hj & Hp & Hs & Ht & _).
    auto.
Qed.

(** A done marker in a cluster of three, and a record whose transport
    failed. *)
Lemma recv_frame_effect_witness :
  job (fst (recv true Sample.done_marker (Sample.world 3)))
    = set_refc (job (Sample.world 3)) 1
  /\ job (fst (recv true (Sample.broken "o" 5) (Sample.world 3))) = job (Sample.world 3).
Proof.
  destruct (recv_frame_effect true Sample.done_marker (Sample.world 3)) as (H1 & _).
  destruct (recv_frame_effect true (Sample.broken "o" 5) (Sample.world 3)) as (_ & H2).
  split.
  - exact (proj1 (H1 eq_refl)).
  - exact (proj1 (H2 eq_refl)).
Defined.

(** * Further properties *)

(** ** Lemmas *)

(** The walk asks the target for copies, sends and puts, and for nothing
    else. *)
Lemma walk_trace_kinds (dbg : bool) (steps : list step) (jerr : option error) (w : World) :
  exists evs, trace (fst (walk dbg jerr steps w)) = trace w ++ evs
              /\ forallb is_target_call evs = true.
Proof.
  apply (walk_preserves
           (fun a b => exists evs, trace b = trace a ++ evs
                                   /\ forallb is_target_call evs = true)).
  - intros w0. exists nil. now rewrite app_nil_r.
  - intros a b c (e1 & H1 & F1) (e2 & H2 & F2). exists (e1 ++ e2).
    rewrite H2, H1, app_assoc, forallb_app, F1, F2. auto.
  - intros v w0. destruct (copyObject_post v w0) as (_ & _ & _ & -> & _).
    eexists; split; [reflexivity|]. simpl.
    induction (v_copy_sent v); simpl; auto.
  - intros dbg0 m w0.
    destruct (recv_frame dbg0 m w0) as (_ & _ & _ & _ & _ & _ & _ & (evs & H & F) & _).
    exists evs. split; [exact H|].
    revert F. apply forallb_weaken. intros ev Hev. unfold is_target_call.
    rewrite Hev. apply orb_true_r.
Qed.

Lemma recv_wg (dbg : bool) (m : recv_in) (w : World) :
  r_wg (job (fst (recv dbg m w))) = r_wg (job w).
Proof.
  destruct (recv_kinds m) as [H|[H|H]].
  - now destruct (recv_transport_failed dbg m w H) as (_ & -> & _).
  - now destruct (recv_done dbg m w H) as (_ & -> & _).
  - revert H. unfold is_payload. rewrite andb_true_iff, !negb_true_iff. intros [H1 H2].
    unfold_m. rewrite H1, H2. simpl. split_tests; reflexivity.
Qed.

Lemma walk_wg (dbg : bool) (steps : list step) (jerr : option error) (w : World) :
  r_wg (job (fst (walk dbg jerr steps w))) = r_wg (job w).
Proof.
  apply (walk_preserves (fun a b => r_wg (job b) = r_wg (job a))).
  - auto.
  - intros; congruence.
  - intros v w0. destruct (copyObject_post v w0) as (_ & -> & _).
    unfold counted. destruct (v_copy_err v); reflexivity.
  - intros. apply recv_wg.
Qed.

Lemma recvs_cons (dbg : bool) (m : recv_in) (ms : list recv_in) (w : World) :
  recvs dbg (m :: ms) w
  = match recv dbg m w with
    | (w1, Some _) => recvs dbg ms w1
    | (w1, None) => (w1, None)
    end.
Proof. reflexivity. Qed.

(** ** The factory *)

(** X1: [Start] panics when no slab is to be had.  Otherwise it returns with
    the xaction created: a copy of the factory's arguments, the wait group at
    one, the peer-ack counter set, the counters at zero, two joggers per
    mountpath for a transform job.  The error it returns is the data mover's:
    nil when the data mover was created and registered, and then the data
    mover is attached, registered and not yet open, with a PDU size only for
    a transform job; else the first of the two errors, and the xaction is
    left without a data mover. *)
Theorem Start_attaches_data_mover (e : tcbFactory) (i : start_in) :
  (forall err0, si_slab_err i = Some err0 -> Start e i = Panicked)
  /\ (si_slab_err i = None ->
      exists r,
        Start e i
        = Returned ({| e_UUID := e_UUID e; e_Bck := e_Bck e; e_xact := Some r;
                       e_kind := e_kind e; e_phase := e_phase e; e_args := e_args e |},
                    match si_newdm_err i with
                    | Some err => Some err
                    | None => si_regrecv_err i
                    end)
        /\ (si_newdm_err i = None -> si_regrecv_err i = None ->
            r_dm r = Some {| dm_trname := ("transcpy_" ++ e_UUID e)%string;
                             dm_sizePDU := if String.eqb (e_kind e) ActETLBck
                                           then DefaultBufSize else 0;
                             dm_registered := true; dm_open := false;
                             dm_closed := None |})
        /\ ((si_newdm_err i <> None \/ si_regrecv_err i <> None) -> r_dm r = None)
        /\ r_wg r = 1
        /\ r_refc r = int32 (si_CountTargets i - 1)
        /\ r_args r = e_args e
        /\ r_err r = None
        /\ xb_objects r = 0 /\ xb_bytes r = 0 /\ xb_finished r = None
        /\ xb_id r = e_UUID e /\ xb_bck r = BckTo (e_args e)
        /\ xb_parallel r = if String.eqb (e_kind e) ActETLBck
                           then etlBucketParallelCnt else 0).
Proof.
  unfold Start, newDM. split.
  - intros err0 ->. reflexivity.
  - intros ->.
    destruct (si_newdm_err i) as [e1|]; [|destruct (si_regrecv_err i) as [e2|]];
      eexists; (split; [reflexivity|]); simpl; split_and; auto;
      try discriminate; try (intros [H|H]; congruence).
Qed.

(** Registering the receiver fails. *)
Lemma Start_attaches_data_mover_witness :
  let i := {| si_slab_err := None; si_name := "n"; si_str := "s"; si_CountTargets := 4;
              si_newdm_err := None; si_regrecv_err := Some (ErrOther "duplicate trname") |} in
  exists r,
    Start (Sample.factory "u1" ActBegin Sample.bckA) i
    = Returned ({| e_UUID := "u1"; e_Bck := Sample.bckB; e_xact := Some r;
                   e_kind := "copy-bck"; e_phase := ActBegin;
                   e_args := Sample.args ActBegin Sample.bckA |},
                Some (ErrOther "duplicate trname"))
    /\ r_dm r = None /\ r_wg r = 1 /\ r_refc r = 3.
Proof.
  intros i.
  destruct (proj2 (Start_attaches_data_mover (Sample.factory "u1" ActBegin Sample.bckA) i)
              eq_refl) as (r & H1 & _ & H3 & H4 & H5 & _).
  exists r.
  split_and; [exact H1 | apply H3; right; discriminate | exact H4 | rewrite H5; reflexivity].
Defined.

(** X2: the transition is written to the factory's arguments only.  The
    xaction took its own copy of the arguments when it was created, so after
    an accepted commit the running xaction still reports the phase it was
    started with, and the factory's own phase field still reads as before.
    A second commit for the same job therefore passes the same tests and is
    accepted again, leaving the running entry as the first one left it. *)
Theorem transition_stays_in_factory (dbg : bool) (e prev prev1 prev2 : tcbFactory)
  (i : start_in) (err : option error) :
  Start prev i = Returned (prev1, err) ->
  WhenPrevIsRunning dbg e prev1 = Returned (prev2, WprUse, None) ->
  (exists r, e_xact prev1 = Some r /\ e_xact prev2 = Some r
             /\ Phase (r_args r) = Phase (e_args prev))
  /\ Phase (e_args prev2) = ActCommit
  /\ e_phase prev2 = e_phase prev
  /\ WhenPrevIsRunning dbg e prev2 = Returned (prev2, WprUse, None).
Proof.
  intros HS HW.
  assert (Hstart : exists r,
             prev1 = {| e_UUID := e_UUID prev; e_Bck := e_Bck prev; e_xact := Some r;
                        e_kind := e_kind prev; e_phase := e_phase prev;
                        e_args := e_args prev |}
             /\ r_args r = e_args prev).
  { revert HS. unfold Start, newDM.
    destruct (si_slab_err i); [discriminate|].
    destruct (si_newdm_err i); [|destruct (si_regrecv_err i)];
      intros H; inversion H; eexists; split; reflexivity. }
  destruct Hstart as (r & -> & Hargs).
  revert HW. unfold WhenPrevIsRunning. simpl.
  destruct (negb (String.eqb (e_UUID e) (e_UUID prev))) eqn:Hid; [discriminate|].
  destruct (negb (debug_Assert dbg
                    (Bck_Equal (BckFrom (e_args prev)) (BckFrom (e_args e)) true true)))
    eqn:Hb; [discriminate|].
  destruct (negb (debug_Assert dbg
                    (String.eqb (e_phase prev) ActBegin && String.eqb (e_phase e) ActCommit)))
    eqn:Hp; [discriminate|].
  intros HW. inversion HW; subst prev2. simpl.
  rewrite Hid, Hb, Hp. split_and; auto.
  exists r. rewrite Hargs. auto.
Qed.

(** Begin, start, commit, commit again, in a debug build. *)
Lemma transition_stays_in_factory_witness :
  let prev := Sample.factory "u1" ActBegin Sample.bckA in
  let e := Sample.factory "u1" ActCommit Sample.bckA in
  let prev2 := transitioned (Sample.started_factory 3) in
  WhenPrevIsRunning true e prev2 = Returned (prev2, WprUse, None)
  /\ exists r, e_xact prev2 = Some r /\ Phase (r_args r) = ActBegin.
Proof.
  intros prev e prev2.
  destruct (transition_stays_in_factory true e prev (Sample.started_factory 3) prev2
              (Sample.started 3) None eq_refl eq_refl) as ((r & _ & H1 & H2) & _ & _ & H3).
  split; [exact H3|]. exists r. auto.
Defined.

(** ** The xaction *)

(** X3: [TxnAbort] finishes the xaction with an error classified as aborted
    and unregisters the receiver.  It closes the data mover, with that same
    error, only if the data mover is open: aborting between [Start] and [Run]
    closes nothing.  Counters, peer-ack counter, error slot and pool are left
    alone. *)
Theorem TxnAbort_finishes_aborted (w : World) (d : DataMover) :
  r_dm (job w) = Some d ->
  let err := ErrAborted (XactTCB_Name (job w)) "txn-abort" None in
  let w' := fst (TxnAbort w) in
  snd (TxnAbort w) = Some tt
  /\ xb_finished (job w') = Some (Some err)
  /\ IsErrAborted err = true
  /\ (exists d', r_dm (job w') = Some d' /\ dm_registered d' = false
                 /\ dm_open d' = false
                 /\ dm_closed d' = if dm_open d then Some (Some err) else dm_closed d)
  /\ trace w' = trace w ++ (if dm_open d then [EvClose (Some err)] else [])
                        ++ [EvUnregRecv; EvFinish (Some err)]
  /\ xb_objects (job w') = xb_objects (job w)
  /\ xb_bytes (job w') = xb_bytes (job w)
  /\ r_refc (job w') = r_refc (job w)
  /\ r_err (job w') = r_err (job w)
  /\ r_args (job w') = r_args (job w)
  /\ cpObjPool w' = cpObjPool w
  /\ stored w' = stored w.
Proof.
  intros Hd. cbv zeta. unfold TxnAbort. unfold_m. rewrite Hd.
  destruct (dm_open d) eqn:Ho; simpl; rewrite ?Hd; simpl.
  - rewrite <- !app_assoc. split_and; auto.
    eexists. split; [reflexivity|]. simpl. auto.
  - rewrite <- !app_assoc. split_and; auto.
    eexists. split; [reflexivity|]. simpl. auto.
Qed.

(** Aborting a started xaction that never ran. *)
Lemma TxnAbort_finishes_aborted_witness :
  let w := Sample.world 3 in
  trace (fst (TxnAbort w))
  = [EvUnregRecv; EvFinish (Some (ErrAborted (XactTCB_Name (job w)) "txn-abort" None))]
  /\ r_refc (job (fst (TxnAbort w))) = 2.
Proof.
  intros w.
  destruct (TxnAbort_finishes_aborted w
              {| dm_trname := "transcpy_u1"; dm_sizePDU := 0; dm_registered := true;
                 dm_open := false; dm_closed := None |} eq_refl)
    as (_ & _ & _ & _ & Ht & _ & _ & Hr & _).
  split; [exact Ht | exact Hr].
Defined.

(** X4: once the error slot holds an error, nothing that arrives is written:
    whatever visits and records follow, the store is left as it was, the
    target is asked for no put (only for the copies and sends of the local
    pipeline), and the slot keeps its error. *)
Theorem latched_error_stops_persisting (dbg : bool) (steps : list step)
  (jerr : option error) (w : World) (e : error) :
  r_err (job w) = Some e ->
  let w' := fst (walk dbg jerr steps w) in
  r_err (job w') = Some e
  /\ stored w' = stored w
  /\ (exists evs, trace w' = trace w ++ evs /\ forallb is_data evs = true)
  /\ (visits_of steps = [] -> trace w' = trace w).
Proof.
  intros He. cbv zeta.
  destruct (walk_latched dbg steps jerr w e He) as (H1 & H2 & H3).
  split_and; auto.
  clear H1 H2 H3. revert jerr w He.
  induction steps as [|[v|m] rest IH]; intros jerr w He Hv.
  - reflexivity.
  - discriminate.
  - rewrite walk_recv. destruct (recv_latched dbg m w e He) as (H1 & _ & H3).
    destruct (snd (recv dbg m w)); simpl; [|exact H3].
    rewrite (IH jerr _ H1 Hv). exact H3.
Qed.

(** A record fails to persist, two more follow. *)
Lemma latched_error_stops_persisting_witness :
  let w := fst (recv true (Sample.data "o1" 4 (Some Sample.E1)) (Sample.world 2)) in
  let steps := [Recv (Sample.data "o2" 8 None); Recv (Sample.data "o3" 2 None)] in
  stored (fst (walk true None steps w)) = []
  /\ trace (fst (walk true None steps w)) = trace w.
Proof.
  intros w steps.
  destruct (latched_error_stops_persisting true steps None w Sample.E1 eq_refl)
    as (_ & H2 & _ & H4).
  split; [exact H2 | exact (H4 eq_refl)].
Defined.

(** X5: starting with an empty error slot, a run of handler invocations
    that returns leaves in the slot the error of the first data record that
    failed (its local object was not resolved, or persisting it failed), and
    in the store exactly the data records that came before it, in the order
    of arrival and with the attributes of their headers.  Done markers and
    records with a failed transport store nothing. *)
Theorem first_receive_failure_latched (dbg : bool) (ms : list recv_in) (w : World) :
  r_err (job w) = None ->
  snd (recvs dbg ms w) = Some tt ->
  r_err (job (fst (recvs dbg ms w))) = first_recv_failure ms
  /\ stored (fst (recvs dbg ms w)) = stored w ++ persisted ms.
Proof.
  revert w. induction ms as [|m ms IH]; intros w He Hs.
  - simpl. rewrite app_nil_r. auto.
  - rewrite recvs_cons in Hs |- *.
    destruct (recv dbg m w) as [w1 [[]|]] eqn:Hr; [|discriminate].
    assert (Hw1 : w1 = fst (recv dbg m w)) by now rewrite Hr.
    assert (Hs1 : snd (recv dbg m w) = Some tt) by now rewrite Hr.
    destruct (recv_kinds m) as [H|[H|H]].
    + assert (Hp : is_payload m = false) by (unfold is_payload; now rewrite H).
      destruct (recv_transport_failed dbg m w H) as (_ & Hj & _ & Hst & _).
      rewrite <- Hw1 in Hj, Hst.
      destruct (IH w1 ltac:(now rewrite Hj) Hs) as [I1 I2].
      cbn [first_recv_failure persisted]. unfold recv_failure. rewrite Hp.
      rewrite I1, I2, Hst. auto.
    + assert (Hp : is_payload m = false).
      { unfold is_done, is_payload in *.
        destruct (transport_failed (m_err m)); simpl in *; [reflexivity|].
        now rewrite H. }
      destruct (recv_done dbg m w H) as (_ & Hj & _ & Hst & _).
      rewrite <- Hw1 in Hj, Hst.
      destruct (IH w1 ltac:(now rewrite Hj) Hs) as [I1 I2].
      cbn [first_recv_failure persisted]. unfold recv_failure. rewrite Hp.
      rewrite I1, I2, Hst. auto.
    + destruct (recv_payload dbg m w H) as (Hsnd & _).
      rewrite Hs1 in Hsnd.
      destruct (debug_Assert dbg (Opcode (m_hdr m) =? 0)) eqn:Ha; [|discriminate].
      destruct (recv_unlatched dbg m w He H Ha) as (Hj & Hst).
      rewrite <- Hw1 in Hj, Hst.
      cbn [first_recv_failure persisted].
      destruct (recv_failure m) as [e|] eqn:Hf.
      * rewrite recvs_walk. simpl.
        destruct (walk_latched dbg (map Recv ms) None w1 e Hj) as (L1 & L2 & _).
        rewrite L1, L2, Hst. auto.
      * destruct (IH w1 Hj Hs) as [I1 I2].
        rewrite H, I1, I2, Hst, <- app_assoc. auto.
Qed.

(** Three records: the second fails to persist. *)
Lemma first_receive_failure_latched_witness :
  let ms := [Sample.data "o1" 4 None; Sample.data "o2" 8 (Some Sample.E1);
             Sample.data "o3" 2 None] in
  r_err (job (fst (recvs true ms (Sample.world 2)))) = Some Sample.E1
  /\ stored (fst (recvs true ms (Sample.world 2)))
     = [put_record_of (Sample.data "o1" 4 None)].
Proof.
  intros ms.
  exact (first_receive_failure_latched true ms (Sample.world 2) eq_refl eq_refl).
Defined.

(** X6: a run that returns has driven the data mover through one fixed
    sequence: the owner is set and the data mover opened once, then come the
    copies, sends and puts of the walk, then the done marker is broadcast
    once, then only puts while waiting, and last the data mover is closed,
    the receiver unregistered and the xaction finished, each once and with
    one and the same error.  The starting wait group is released once. *)
Theorem Run_lifecycle (dbg : bool) (jog : list step) (wait : list recv_in) (q : QuiRes)
  (w w' : World) :
  Run dbg jog wait q w = (w', Some tt) ->
  exists evs1 evs2 err,
    trace w' = trace w ++ [EvSetXact; EvOpen] ++ evs1
                       ++ [EvBcast doneSendingOpcode] ++ evs2
                       ++ [EvClose err; EvUnregRecv; EvFinish err]
    /\ forallb is_target_call evs1 = true
    /\ forallb is_put evs2 = true
    /\ finished_with err (job w')
    /\ r_wg (job w') = r_wg (job w) - 1.
Proof.
  intros HR.
  destruct (Run_inv _ _ _ _ _ _ HR)
    as (w0 & w1 & jerr & w2 & Ho & Hw & Hr & Hc & (d & Hd) & (d2 & Hd2)).
  destruct (Run_wait_groups _ _ _ _ _ _ HR) as (n & Hn & Hn1 & Hwg).
  destruct (opening_post w d n Hd Hn Hn1 Hwg)
    as (w0' & Ho' & _ & _ & _ & _ & _ & _ & _ & Ht0).
  rewrite Ho in Ho'. inversion Ho'; subst w0'. clear Ho'.
  destruct (opening_wg w w0 d n Hd Hn Ho) as (Hwg0 & _).
  destruct (walk_trace_kinds dbg jog None w0) as (evs1 & Ht1 & F1).
  pose proof (walk_wg dbg jog None w0) as Hwg1.
  rewrite Hw in Ht1, Hwg1. simpl in Ht1, Hwg1.
  set (w1' := set_trace w1 (trace w1 ++ [EvBcast doneSendingOpcode])) in *.
  destruct (recvs_trace dbg wait w1') as (evs2 & Ht2 & F2).
  pose proof (walk_wg dbg (map Recv wait) None w1') as Hwg2.
  rewrite recvs_walk in Hr. inversion Hr as [[Hw2 Hs2]]. clear Hr.
  rewrite recvs_walk in Ht2. simpl in Ht2. rewrite Hw2 in Ht2, Hwg2.
  destruct (closing_post w2 d2 (final_err (job w2) jerr q) Hd2)
    as (w'' & Hc' & Hfin & _ & _ & _ & _ & _ & _ & Ht3).
  rewrite Hc in Hc'. inversion Hc'; subst w''. clear Hc'.
  assert (Hwg3 : r_wg (job w') = r_wg (job w2)).
  { revert Hc. unfold closing. unfold_m. rewrite Hd2. simpl.
    intros H. inversion H. reflexivity. }
  exists evs1, evs2, (final_err (job w2) jerr q).
  split_and; auto.
  - rewrite Ht3, Ht2. unfold w1'. simpl. rewrite Ht1, Ht0, <- !app_assoc. reflexivity.
  - rewrite Hwg3, Hwg2. unfold w1'. simpl. rewrite Hwg1, Hwg0. reflexivity.
Qed.

(** Start, then run: one object copied and sent, one received, and the wait
    group back at zero. *)
Lemma Run_lifecycle_witness :
  let jog := [Visit (Sample.obj "a" 10 10 None None); Recv (Sample.data "o" 4 None)] in
  let w' := fst (Run true jog [Sample.done_marker] Quiescent (Sample.world 2)) in
  r_wg (job (Sample.world 2)) = 1
  /\ exists evs1 evs2 err,
       trace w' = trace (Sample.world 2) ++ [EvSetXact; EvOpen] ++ evs1
                  ++ [EvBcast doneSendingOpcode] ++ evs2
                  ++ [EvClose err; EvUnregRecv; EvFinish err]
       /\ r_wg (job w') = 0.
Proof.
  intros jog w'. split; [reflexivity|].
  assert (HR : Run true jog [Sample.done_marker] Quiescent (Sample.world 2) = (w', Some tt))
    by (vm_compute; reflexivity).
  destruct (Run_lifecycle true jog [Sample.done_marker] Quiescent (Sample.world 2) w' HR)
    as (evs1 & evs2 & err & H1 & _ & _ & _ & H5).
  exists evs1, evs2, err. split; [exact H1 | rewrite H5; reflexivity].
Defined.

(** ** The certificate loader: lemmas *)

Lemma certloader_ini_cases (certFile : string) (i : CertLoader.do_in)
  (finfo : CertLoader.FileInfo) (x x' : CertLoader.xcert) (logged : list CertLoader.cl_log)
  (res : option CertLoader.cl_error) :
  CertLoader.ini certFile i finfo x = Returned (x', logged, res) ->
  match res with
  | Some (CertLoader.ErrParse f cause) =>
      logged = [] /\ f = certFile /\ CertLoader.Leaf (CertLoader.Certificate x) = None
      /\ CertLoader.ParseCertificate i = inr cause
  | Some (CertLoader.errExpired f t) =>
      logged = [] /\ f = certFile /\ t = CertLoader.notAfter x'
      /\ CertLoader.notAfter x' < CertLoader.Now i
  | Some _ => False
  | None => CertLoader.Now i <= CertLoader.notAfter x'
  end
  /\ (forall err, res = Some err -> logged = [])
  /\ (res = None ->
      CertLoader.Chain (CertLoader.Certificate x') = CertLoader.Chain (CertLoader.Certificate x)
      /\ CertLoader.modTime x' = CertLoader.fi_ModTime finfo
      /\ CertLoader.size x' = CertLoader.fi_Size finfo
      /\ CertLoader.Leaf (CertLoader.Certificate x')
         = Some {| CertLoader.NotBefore := CertLoader.notBefore x';
                   CertLoader.NotAfter := CertLoader.notAfter x' |}
      /\ (CertLoader.Leaf (CertLoader.Certificate x) = None ->
          CertLoader.Leaf (CertLoader.Certificate x')
          = match CertLoader.ParseCertificate i with
            | inl leaf => Some leaf
            | inr _ => None
            end)
      /\ (forall leaf, CertLoader.Leaf (CertLoader.Certificate x) = Some leaf ->
          CertLoader.Leaf (CertLoader.Certificate x') = Some leaf)).
Proof.
  unfold CertLoader.ini, CertLoader.Time_After, CertLoader.Time_Before. cbv zeta.
  assert (Hfilled : forall leaf : CertLoader.x509Certificate,
             {| CertLoader.NotBefore := CertLoader.NotBefore leaf;
                CertLoader.NotAfter := CertLoader.NotAfter leaf |} = leaf)
    by (intros []; reflexivity).
  destruct (CertLoader.Leaf (CertLoader.Certificate x)) as [leaf|] eqn:Hl; simpl.
  - destruct (Z.ltb_spec (CertLoader.NotAfter leaf) (CertLoader.Now i));
      [|destruct (Z.ltb_spec (CertLoader.Now i) (CertLoader.NotBefore leaf))];
      intros Hini; inversion Hini; subst; simpl; rewrite ?Hfilled;
      split_and; intros; split_and; intros; auto; try discriminate; try lia; congruence.
  - destruct (CertLoader.Chain (CertLoader.Certificate x)) eqn:Hc; [discriminate|].
    destruct (CertLoader.ParseCertificate i) as [leaf|cause] eqn:Hp; simpl.
    + destruct (Z.ltb_spec (CertLoader.NotAfter leaf) (CertLoader.Now i));
        [|destruct (Z.ltb_spec (CertLoader.Now i) (CertLoader.NotBefore leaf))];
        intros Hini; inversion Hini; subst; simpl; rewrite ?Hfilled;
        split_and; intros; split_and; intros; auto; try discriminate; try lia; congruence.
    + intros Hini; inversion Hini; subst; simpl.
      split_and; intros; split_and; auto; discriminate.
Qed.

Lemma certloader_Time_Sub_cases (t u : Z) :
  (CertLoader.Time_Sub t u = t - u)
  \/ (CertLoader.Time_Sub t u = 2 ^ 63 - 1 /\ 2 ^ 63 - 1 < t - u)
  \/ (CertLoader.Time_Sub t u = - 2 ^ 63 /\ t - u < - 2 ^ 63).
Proof.
  unfold CertLoader.Time_Sub, CertLoader.maxDuration, CertLoader.minDuration.
  destruct (Z.gtb_spec (t - u) (2 ^ 63 - 1)); [right; left; split; [reflexivity | lia]|].
  destruct (Z.ltb_spec (t - u) (- 2 ^ 63)); [right; right; split; [reflexivity | lia]|].
  now left.
Qed.

(** Saturating the remaining lifetime does not change the interval. *)
Lemma certloader_interval_saturated (t u : Z) :
  hk_interval (CertLoader.Time_Sub t u) = hk_interval (t - u)
  /\ (CertLoader.Time_Sub t u >? 10 * CertLoader.Minute) = (t - u >? 10 * CertLoader.Minute)
  /\ (CertLoader.Time_Sub t u >? 0) = (t - u >? 0).
Proof.
  unfold hk_interval, CertLoader.dfltTimeInvalid, CertLoader.Hour, CertLoader.Minute,
    CertLoader.Second.
  destruct (certloader_Time_Sub_cases t u) as [->|[[-> H]|[-> H]]]; [auto| |];
    change (2 ^ 63) with 9223372036854775808 in *;
    repeat match goal with
           | |- context [?a >? ?b] => destruct (Z.gtb_spec a b); try lia
           end; auto.
Qed.

(** [hktime] without an alert: the interval is decided by the lifetime left;
    an alert is raised exactly when none is left. *)
Lemma certloader_hktime_valid (cl : CertLoader.certLoader) (x : CertLoader.xcert) (now : Z) :
  no_alert cl ->
  CertLoader.cl_xcert cl = Some x ->
  let rem := CertLoader.notAfter x - now in
  exists cl',
    CertLoader.hktime cl now = Returned (cl', hk_interval rem)
    /\ CertLoader.cl_xcert cl' = Some x
    /\ CertLoader.cl_certFile cl' = CertLoader.cl_certFile cl
    /\ CertLoader.cl_keyFile cl' = CertLoader.cl_keyFile cl
    /\ (0 < rem -> CertLoader.cl_tstats cl' = CertLoader.cl_tstats cl)
    /\ (rem <= 0 -> cl' = CertLoader.SetFlag_Expired cl).
Proof.
  intros Ha Hx rem. unfold CertLoader.hktime, CertLoader.time_Until.
  rewrite Ha, Hx. simpl.
  unfold hk_interval, CertLoader.dfltTimeInvalid, CertLoader.Hour, CertLoader.Minute,
    CertLoader.Second.
  destruct (certloader_Time_Sub_cases (CertLoader.notAfter x) now) as [->|[[-> H]|[-> H]]];
    subst rem;
    change (2 ^ 63) with 9223372036854775808 in *;
    repeat match goal with
           | |- context [?a >? ?b] => destruct (Z.gtb_spec a b); try lia
           end;
    eexists; split_and; try reflexivity; intros; try lia; try reflexivity;
    simpl; try exact Ha; try exact Hx.
Qed.

(** The file is the one the loader holds. *)
Lemma certloader_same_file (finfo : CertLoader.FileInfo) (x : CertLoader.xcert) :
  (CertLoader.fi_ModTime finfo =? CertLoader.modTime x)
  && (CertLoader.fi_Size finfo =? CertLoader.size x) = false
  <-> file_changed finfo x.
Proof.
  unfold file_changed. rewrite andb_false_iff, !Z.eqb_neq. tauto.
Qed.

Lemma certloader_do_reload_cases (cl cl' : CertLoader.certLoader) (i : CertLoader.do_in)
  (finfo : CertLoader.FileInfo) (res : option CertLoader.cl_error) :
  CertLoader.do_reload cl i finfo = Returned (cl', res) ->
  match res with
  | Some err =>
      cl' = cl
      /\ match err with
         | CertLoader.ErrFstat _ _ => False
         | _ => certloader_error_cause cl i err
         end
  | None =>
      exists c x logged,
        CertLoader.LoadX509KeyPair i = inl c
        /\ CertLoader.ini (CertLoader.cl_certFile cl) i finfo
             {| CertLoader.Certificate := c; CertLoader.modTime := 0;
                CertLoader.notBefore := 0; CertLoader.notAfter := 0;
                CertLoader.size := 0 |}
           = Returned (x, logged, None)
        /\ cl' = certloader_stored cl logged x
  end.
Proof.
  unfold CertLoader.do_reload.
  destruct (CertLoader.LoadX509KeyPair i) as [c|cause] eqn:Hld.
  2:{ intros H; inversion H; subst. simpl. auto. }
  cbv zeta.
  destruct (CertLoader.ini _ _ _ _) as [[[x logged] [err|]]|] eqn:Hini;
    [| |discriminate].
  - intros H; inversion H; subst.
    pose proof (certloader_ini_cases _ _ _ _ _ _ _ Hini) as (Hc & Hl & _).
    rewrite (Hl err eq_refl).
    assert (Hn : CertLoader.nlog cl [] = cl).
    { destruct cl. unfold CertLoader.nlog. simpl. now rewrite app_nil_r. }
    rewrite Hn. split; [reflexivity|].
    destruct err; try contradiction; simpl.
    + destruct Hc as (_ & -> & _ & Hp). auto.
    + destruct Hc as (_ & -> & -> & Hlt). auto.
  - intros H; inversion H; subst. exists c, x, logged. auto.
Qed.

(** The ways [do] returns: with an error and the loader untouched, without
    an error and without a reload (the file is the one held), or with the
    new certificate stored and the alerts cleared. *)
Lemma certloader_do_cases (cl cl' : CertLoader.certLoader) (compare : bool)
  (i : CertLoader.do_in) (res : option CertLoader.cl_error) :
  CertLoader.do cl compare i = Returned (cl', res) ->
  match res with
  | Some err => cl' = cl /\ certloader_error_cause cl i err
  | None =>
      exists finfo, CertLoader.os_Stat i = inl finfo
      /\ ((compare = true /\ cl' = cl
           /\ exists old, CertLoader.cl_xcert cl = Some old /\ ~ file_changed finfo old)
          \/ (exists c x logged,
                CertLoader.LoadX509KeyPair i = inl c
                /\ CertLoader.ini (CertLoader.cl_certFile cl) i finfo
                     {| CertLoader.Certificate := c; CertLoader.modTime := 0;
                        CertLoader.notBefore := 0; CertLoader.notAfter := 0;
                        CertLoader.size := 0 |}
                   = Returned (x, logged, None)
                /\ cl' = certloader_stored cl logged x
                /\ (compare = true ->
                    exists old, CertLoader.cl_xcert cl = Some old /\ file_changed finfo old)))
  end.
Proof.
  unfold CertLoader.do.
  destruct (CertLoader.os_Stat i) as [finfo|cause] eqn:Hst.
  2:{ intros H; inversion H; subst. simpl. rewrite Hst. auto. }
  assert (Hreload :
    CertLoader.do_reload cl i finfo = Returned (cl', res) ->
    (compare = true ->
     exists old, CertLoader.cl_xcert cl = Some old /\ file_changed finfo old) ->
    match res with
    | Some err => cl' = cl /\ certloader_error_cause cl i err
    | None =>
        exists finfo0, @inl _ string finfo = inl finfo0
        /\ ((compare = true /\ cl' = cl
             /\ exists old, CertLoader.cl_xcert cl = Some old /\ ~ file_changed finfo0 old)
            \/ (exists c x logged,
                  CertLoader.LoadX509KeyPair i = inl c
                  /\ CertLoader.ini (CertLoader.cl_certFile cl) i finfo0
                       {| CertLoader.Certificate := c; CertLoader.modTime := 0;
                          CertLoader.notBefore := 0; CertLoader.notAfter := 0;
                          CertLoader.size := 0 |}
                     = Returned (x, logged, None)
                  /\ cl' = certloader_stored cl logged x
                  /\ (compare = true ->
                      exists old, CertLoader.cl_xcert cl = Some old
                                  /\ file_changed finfo0 old)))
    end).
  { intros H Hcmp. apply certloader_do_reload_cases in H.
    destruct res as [err|].
    - destruct H as [-> H]. split; [reflexivity|].
      destruct err; simpl in *; auto; contradiction.
    - destruct H as (c & x & logged & H1 & H2 & H3).
      exists finfo. split; [reflexivity|]. right. exists c, x, logged. auto. }
  destruct compare.
  - destruct (CertLoader.cl_xcert cl) as [old|] eqn:Hx; [|discriminate].
    destruct ((CertLoader.fi_ModTime finfo =? CertLoader.modTime old)
              && (CertLoader.fi_Size finfo =? CertLoader.size old)) eqn:Hsame.
    + intros H; inversion H; subst. exists finfo. split; [reflexivity|]. left.
      split_and; auto. exists old. split; [reflexivity|].
      rewrite <- certloader_same_file. congruence.
    + intros H. apply Hreload; [exact H|]. intros _. exists old. split; [reflexivity|].
      now apply certloader_same_file.
  - intros H. apply Hreload; [exact H | discriminate].
Qed.

(** [hktime] never touches the certificate, the file names or the invalid
    flag, never lowers the expired flag, and asks for an interval between a
    minute and six hours. *)
Lemma certloader_hktime_frame (cl cl' : CertLoader.certLoader) (now d : Z) :
  CertLoader.hktime cl now = Returned (cl', d) ->
  CertLoader.cl_xcert cl' = CertLoader.cl_xcert cl
  /\ CertLoader.cl_certFile cl' = CertLoader.cl_certFile cl
  /\ CertLoader.cl_keyFile cl' = CertLoader.cl_keyFile cl
  /\ CertLoader.CertificateInvalid (CertLoader.cl_tstats cl')
     = CertLoader.CertificateInvalid (CertLoader.cl_tstats cl)
  /\ (CertLoader.CertificateExpired (CertLoader.cl_tstats cl) = true ->
      CertLoader.CertificateExpired (CertLoader.cl_tstats cl') = true)
  /\ CertLoader.Minute <= d <= 6 * CertLoader.Hour.
Proof.
  unfold CertLoader.hktime, CertLoader.dfltTimeInvalid, CertLoader.Hour, CertLoader.Minute,
    CertLoader.Second.
  destruct (CertLoader.CertificateExpired (CertLoader.cl_tstats cl)
            || CertLoader.CertificateInvalid (CertLoader.cl_tstats cl)) eqn:Hf.
  { intros H; inversion H; subst. split_and; auto; lia. }
  destruct (CertLoader.cl_xcert cl) as [x|] eqn:Hx; [|discriminate].
  repeat match goal with
         | |- context [if ?c then _ else _] => destruct c
         end;
    intros H; inversion H; subst; simpl; split_and; auto; try lia; congruence.
Qed.

Lemma certloader_GetCert_no_alert (cl : CertLoader.certLoader) :
  no_alert cl ->
  CertLoader.GetCert (Some cl) = Returned (Some CertLoader.bound_hello, None)
  /\ CertLoader.GetClientCert (Some cl) = Returned (Some CertLoader.bound_info, None).
Proof.
  unfold no_alert, CertLoader.GetCert, CertLoader.GetClientCert, CertLoader.errorf.
  intros ->. auto.
Qed.

(** A successful reload, field by field. *)
Lemma certloader_stored_fields (cl : CertLoader.certLoader) (i : CertLoader.do_in)
  (finfo : CertLoader.FileInfo) (c : CertLoader.tlsCertificate) (x : CertLoader.xcert)
  (logged : list CertLoader.cl_log) :
  CertLoader.ini (CertLoader.cl_certFile cl) i finfo
    {| CertLoader.Certificate := c; CertLoader.modTime := 0; CertLoader.notBefore := 0;
       CertLoader.notAfter := 0; CertLoader.size := 0 |}
  = Returned (x, logged, None) ->
  let cl' := certloader_stored cl logged x in
  CertLoader.cl_xcert cl' = Some x
  /\ no_alert cl'
  /\ CertLoader.cl_certFile cl' = CertLoader.cl_certFile cl
  /\ CertLoader.cl_keyFile cl' = CertLoader.cl_keyFile cl
  /\ CertLoader.Chain (CertLoader.Certificate x) = CertLoader.Chain c
  /\ CertLoader.modTime x = CertLoader.fi_ModTime finfo
  /\ CertLoader.size x = CertLoader.fi_Size finfo
  /\ CertLoader.Leaf (CertLoader.Certificate x)
     = Some {| CertLoader.NotBefore := CertLoader.notBefore x;
               CertLoader.NotAfter := CertLoader.notAfter x |}
  /\ CertLoader.Now i <= CertLoader.notAfter x
  /\ (forall leaf, CertLoader.Leaf c = Some leaf ->
      CertLoader.Leaf (CertLoader.Certificate x) = Some leaf)
  /\ CertLoader._hello cl' = Returned (CertLoader.Certificate x, None)
  /\ CertLoader._info cl' = Returned (CertLoader.Certificate x, None).
Proof.
  intros Hini. pose proof (certloader_ini_cases _ _ _ _ _ _ _ Hini) as (Hc & _ & Hf).
  destruct (Hf eq_refl) as (H1 & H2 & H3 & H4 & _ & H6). simpl in *.
  cbv zeta. unfold certloader_stored, no_alert, CertLoader._hello, CertLoader._info,
    CertLoader._get. simpl. split_and; auto.
Qed.

(** [ini] on a certificate whose leaf is at hand and not past its NotAfter. *)
Lemma certloader_ini_ok (certFile : string) (i : CertLoader.do_in)
  (finfo : CertLoader.FileInfo) (c : CertLoader.tlsCertificate)
  (leaf : CertLoader.x509Certificate) :
  leaf_of i c = Some leaf ->
  CertLoader.Now i <= CertLoader.NotAfter leaf ->
  exists logged,
    CertLoader.ini certFile i finfo
      {| CertLoader.Certificate := c; CertLoader.modTime := 0; CertLoader.notBefore := 0;
         CertLoader.notAfter := 0; CertLoader.size := 0 |}
    = Returned
        ({| CertLoader.Certificate :=
              {| CertLoader.Chain := CertLoader.Chain c; CertLoader.Leaf := Some leaf |};
            CertLoader.modTime := CertLoader.fi_ModTime finfo;
            CertLoader.notBefore := CertLoader.NotBefore leaf;
            CertLoader.notAfter := CertLoader.NotAfter leaf;
            CertLoader.size := CertLoader.fi_Size finfo |},
         logged, None).
Proof.
  intros Hleaf Hna. revert Hleaf.
  unfold leaf_of, CertLoader.ini, CertLoader.Time_After, CertLoader.Time_Before. simpl.
  assert (Hexp : (CertLoader.NotAfter leaf <? CertLoader.Now i) = false)
    by (apply Z.ltb_ge; lia).
  destruct (CertLoader.Leaf c) as [l0|].
  - intros H; inversion H; subst l0. rewrite Hexp.
    destruct (CertLoader.Now i <? CertLoader.NotBefore leaf); eexists; reflexivity.
  - destruct (CertLoader.Chain c) as [|der ders]; [discriminate|].
    destruct (CertLoader.ParseCertificate i) as [l0|cause]; [|discriminate].
    intros H; inversion H; subst l0. simpl. rewrite Hexp.
    destruct (CertLoader.Now i <? CertLoader.NotBefore leaf); eexists; reflexivity.
Qed.

(** [ini] on a certificate past its NotAfter. *)
Lemma certloader_ini_expired (certFile : string) (i : CertLoader.do_in)
  (finfo : CertLoader.FileInfo) (c : CertLoader.tlsCertificate)
  (leaf : CertLoader.x509Certificate) :
  leaf_of i c = Some leaf ->
  CertLoader.NotAfter leaf < CertLoader.Now i ->
  exists x,
    CertLoader.ini certFile i finfo
      {| CertLoader.Certificate := c; CertLoader.modTime := 0; CertLoader.notBefore := 0;
         CertLoader.notAfter := 0; CertLoader.size := 0 |}
    = Returned (x, [], Some (CertLoader.errExpired certFile (CertLoader.NotAfter leaf))).
Proof.
  intros Hleaf Hna. revert Hleaf.
  unfold leaf_of, CertLoader.ini, CertLoader.Time_After, CertLoader.Time_Before. simpl.
  assert (Hexp : (CertLoader.NotAfter leaf <? CertLoader.Now i) = true)
    by (apply Z.ltb_lt; lia).
  destruct (CertLoader.Leaf c) as [l0|].
  - intros H; inversion H; subst l0. rewrite Hexp. eexists; reflexivity.
  - destruct (CertLoader.Chain c) as [|der ders]; [discriminate|].
    destruct (CertLoader.ParseCertificate i) as [l0|cause]; [|discriminate].
    intros H; inversion H; subst l0. simpl. rewrite Hexp. eexists; reflexivity.
Qed.

(** The ways [Load] returns. *)
Lemma certloader_Load_cases (gcl gcl' : CertLoader.certLoader) (i : CertLoader.do_in)
  (res : option CertLoader.cl_error) :
  CertLoader.Load gcl i = Returned (gcl', res) ->
  match res with
  | None =>
      no_alert gcl'
      /\ CertLoader.cl_certFile gcl' = CertLoader.cl_certFile gcl
      /\ CertLoader.cl_keyFile gcl' = CertLoader.cl_keyFile gcl
      /\ exists x, CertLoader.cl_xcert gcl' = Some x
                   /\ CertLoader.Now i <= CertLoader.notAfter x
  | Some err =>
      certloader_error_cause gcl i err
      /\ gcl' = (if CertLoader.isExpired err then CertLoader.SetFlag_Expired gcl
                 else CertLoader.SetFlag_Invalid gcl)
  end.
Proof.
  unfold CertLoader.Load.
  destruct (CertLoader.do gcl false i) as [[cl1 [err|]]|] eqn:Hdo; [| |discriminate].
  - pose proof (certloader_do_cases _ _ _ _ _ Hdo) as [-> Hc].
    destruct (CertLoader.isExpired err) eqn:He; intros H; inversion H; subst;
      rewrite He; auto.
  - pose proof (certloader_do_cases _ _ _ _ _ Hdo) as (finfo & Hst & Hcase).
    intros H; inversion H; subst.
    destruct Hcase as [(Hcmp & _)|(c & x & logged & Hld & Hini & -> & _)]; [discriminate|].
    destruct (certloader_stored_fields gcl i finfo c x logged Hini)
      as (H1 & H2 & H3 & H4 & _ & _ & _ & _ & H9 & _).
    split_and; auto. exists x. auto.
Qed.

(** With an alert raised [GetCert] hands out no callback. *)
Lemma certloader_GetCert_alert (cl : CertLoader.certLoader) (cb : CertLoader.callback) :
  CertLoader.CertificateExpired (CertLoader.cl_tstats cl) = true
  \/ CertLoader.CertificateInvalid (CertLoader.cl_tstats cl) = true ->
  CertLoader.GetCert (Some cl) <> Returned (Some cb, None)
  /\ CertLoader.GetClientCert (Some cl) <> Returned (Some cb, None).
Proof.
  unfold CertLoader.GetCert, CertLoader.GetClientCert, CertLoader.errorf.
  intros [H|H]; rewrite H;
    destruct (CertLoader.CertificateInvalid (CertLoader.cl_tstats cl));
    destruct (CertLoader.CertificateExpired (CertLoader.cl_tstats cl));
    try discriminate; destruct (CertLoader.cl_xcert cl); split; discriminate.
Qed.

(** ** The certificate loader *)

(** X7: a reload that fails changes nothing.  Whatever goes wrong ([os.Stat]
    fails, the pair is not read, the leaf is not parsed, the certificate is
    past its NotAfter), [do] returns the error with the loader as it was:
    the certificate held, the alerts and the log are untouched, so the
    callbacks keep serving the previous certificate.  The error names the
    step that failed, and it is the expired error only when the clock is past
    NotAfter.  The housekeeping callback logs such an error and goes on with
    the certificate it had; it never raises the invalid flag. *)
Theorem certloader_failed_reload_keeps_certificate (cl cl' : CertLoader.certLoader)
  (compare : bool) (i : CertLoader.do_in) (err : CertLoader.cl_error) :
  CertLoader.do cl compare i = Returned (cl', Some err) ->
  cl' = cl
  /\ certloader_error_cause cl i err
  /\ (CertLoader.isExpired err = true ->
      exists t, err = CertLoader.errExpired (CertLoader.cl_certFile cl) t
                /\ t < CertLoader.Now i)
  /\ (forall now cl'' d,
        compare = true ->
        CertLoader.hk cl i now = Returned (cl'', d) ->
        CertLoader.cl_xcert cl'' = CertLoader.cl_xcert cl
        /\ CertLoader.CertificateInvalid (CertLoader.cl_tstats cl'')
           = CertLoader.CertificateInvalid (CertLoader.cl_tstats cl)
        /\ exists tail, CertLoader.cl_nlog cl''
                        = CertLoader.cl_nlog cl ++ CertLoader.Errorln err :: tail).
Proof.
  intros Hdo. pose proof (certloader_do_cases _ _ _ _ _ Hdo) as [-> Hc].
  split_and; auto.
  - destruct err; simpl; try discriminate. intros _. destruct Hc as [-> Hlt]. eauto.
  - intros now cl'' d -> Hhk. unfold CertLoader.hk in Hhk. rewrite Hdo in Hhk.
    pose proof (certloader_hktime_frame _ _ _ _ Hhk) as (H1 & _ & _ & H4 & _).
    simpl in H1, H4. split_and; auto.
    revert Hhk. unfold CertLoader.hktime.
    repeat match goal with
           | |- context [match ?c with _ => _ end] => destruct c
           end;
      intros H; inversion H; subst; simpl;
      try (exists nil; reflexivity);
      rewrite <- app_assoc; eexists; reflexivity.
Qed.

(** The file has gone: the loaded certificate stays. *)
Lemma certloader_failed_reload_keeps_certificate_witness :
  certloader_error_cause CertSample.loaded (CertSample.missing 5000)
    (CertLoader.ErrFstat "server.crt" "no such file").
Proof.
  exact (proj1 (proj2 (certloader_failed_reload_keeps_certificate CertSample.loaded
                         CertSample.loaded true (CertSample.missing 5000)
                         (CertLoader.ErrFstat "server.crt" "no such file") eq_refl))).
Defined.

(** X8: when [do] returns without an error, either it was asked to compare
    and the file has the modification time and the size of the certificate
    held, and then nothing was read and nothing changed, alerts included; or
    the pair was read and stored: the loader holds the new chain with its
    leaf, the validity bounds of the leaf, the modification time and size of
    the file, both alerts are cleared, [GetCert] and [GetClientCert] hand out
    their callbacks, and the callbacks serve the certificate just stored.  A
    housekeeping check that finds the same file afterwards reads nothing. *)
Theorem certloader_reload_serves_new_certificate (cl cl' : CertLoader.certLoader)
  (compare : bool) (i : CertLoader.do_in) :
  CertLoader.do cl compare i = Returned (cl', None) ->
  exists finfo,
    CertLoader.os_Stat i = inl finfo
    /\ ((compare = true /\ cl' = cl
         /\ exists old, CertLoader.cl_xcert cl = Some old /\ ~ file_changed finfo old)
        \/ (exists c x,
              CertLoader.LoadX509KeyPair i = inl c
              /\ (compare = true ->
                  exists old, CertLoader.cl_xcert cl = Some old /\ file_changed finfo old)
              /\ CertLoader.cl_xcert cl' = Some x
              /\ CertLoader.Chain (CertLoader.Certificate x) = CertLoader.Chain c
              /\ CertLoader.Leaf (CertLoader.Certificate x)
                 = Some {| CertLoader.NotBefore := CertLoader.notBefore x;
                           CertLoader.NotAfter := CertLoader.notAfter x |}
              /\ CertLoader.modTime x = CertLoader.fi_ModTime finfo
              /\ CertLoader.size x = CertLoader.fi_Size finfo
              /\ CertLoader.Now i <= CertLoader.notAfter x
              /\ no_alert cl'
              /\ CertLoader.GetCert (Some cl')
                 = Returned (Some CertLoader.bound_hello, None)
              /\ CertLoader.GetClientCert (Some cl')
                 = Returned (Some CertLoader.bound_info, None)
              /\ CertLoader._hello cl' = Returned (CertLoader.Certificate x, None)
              /\ CertLoader._info cl' = Returned (CertLoader.Certificate x, None)
              /\ (forall i', CertLoader.os_Stat i' = inl finfo ->
                  CertLoader.do cl' true i' = Returned (cl', None)))).
Proof.
  intros Hdo. pose proof (certloader_do_cases _ _ _ _ _ Hdo) as (finfo & Hst & H).
  exists finfo. split; [exact Hst|].
  destruct H as [H|(c & x & logged & Hld & Hini & -> & Hcmp)]; [left; exact H|right].
  destruct (certloader_stored_fields cl i finfo c x logged Hini)
    as (H1 & H2 & H3 & H4 & H5 & H6 & H7 & H8 & H9 & H10 & H11 & H12).
  destruct (certloader_GetCert_no_alert _ H2) as [G1 G2].
  exists c, x. split_and; auto.
  intros i' Hst'. unfold CertLoader.do. rewrite Hst', H1, H6, H7, !Z.eqb_refl. reflexivity.
Qed.

(** The first load, then a housekeeping check of the same file. *)
Lemma certloader_reload_serves_new_certificate_witness :
  CertLoader._hello CertSample.loaded
  = Returned ({| CertLoader.Chain := ["leaf.der"%string];
                 CertLoader.Leaf := Some CertSample.leaf |}, None)
  /\ CertLoader.do CertSample.loaded true (CertSample.disk 500 9000)
     = Returned (CertSample.loaded, None).
Proof.
  destruct (certloader_reload_serves_new_certificate CertSample.fresh CertSample.loaded
              false (CertSample.disk 500 2000) eq_refl)
    as (finfo & Hst & [(H & _)|(c & x & _ & _ & Hx & _ & _ & _ & _ & _ & _ & _ & _ & Hh & _ & Hd)]).
  - discriminate.
  - split; [reflexivity|]. apply Hd. simpl in Hst |- *. exact Hst.
Defined.

(** X9: a certificate that is not valid yet is not refused.  When the clock
    is before NotBefore (and not past NotAfter), [do] stores the certificate
    like any other, clears the alerts and lets [GetCert] hand out its
    callback; all that marks the case is a warning in the log. *)
Theorem certloader_accepts_not_yet_valid (cl : CertLoader.certLoader)
  (i : CertLoader.do_in) (finfo : CertLoader.FileInfo) (c : CertLoader.tlsCertificate)
  (leaf : CertLoader.x509Certificate) :
  CertLoader.os_Stat i = inl finfo ->
  CertLoader.LoadX509KeyPair i = inl c ->
  leaf_of i c = Some leaf ->
  CertLoader.Now i < CertLoader.NotBefore leaf ->
  CertLoader.NotBefore leaf <= CertLoader.NotAfter leaf ->
  exists cl' x,
    CertLoader.do cl false i = Returned (cl', None)
    /\ CertLoader.cl_xcert cl' = Some x
    /\ CertLoader.notBefore x = CertLoader.NotBefore leaf
    /\ CertLoader.notAfter x = CertLoader.NotAfter leaf
    /\ no_alert cl'
    /\ CertLoader.GetCert (Some cl') = Returned (Some CertLoader.bound_hello, None)
    /\ CertLoader.cl_nlog cl'
       = CertLoader.cl_nlog cl
         ++ [CertLoader.Warningln_not_yet (CertLoader.cl_certFile cl)
               (CertLoader.NotBefore leaf) (CertLoader.NotAfter leaf);
             CertLoader.Infoln x].
Proof.
  intros Hst Hld Hleaf Hnb Hna.
  assert (Hini : CertLoader.ini (CertLoader.cl_certFile cl) i finfo
                   {| CertLoader.Certificate := c; CertLoader.modTime := 0;
                      CertLoader.notBefore := 0; CertLoader.notAfter := 0;
                      CertLoader.size := 0 |}
                 = Returned
                     ({| CertLoader.Certificate :=
                           {| CertLoader.Chain := CertLoader.Chain c;
                              CertLoader.Leaf := Some leaf |};
                         CertLoader.modTime := CertLoader.fi_ModTime finfo;
                         CertLoader.notBefore := CertLoader.NotBefore leaf;
                         CertLoader.notAfter := CertLoader.NotAfter leaf;
                         CertLoader.size := CertLoader.fi_Size finfo |},
                      [CertLoader.Warningln_not_yet (CertLoader.cl_certFile cl)
                         (CertLoader.NotBefore leaf) (CertLoader.NotAfter leaf)],
                      None)).
  { revert Hleaf. unfold leaf_of, CertLoader.ini, CertLoader.Time_After,
      CertLoader.Time_Before. simpl.
    assert (Hexp : (CertLoader.NotAfter leaf <? CertLoader.Now i) = false)
      by (apply Z.ltb_ge; lia).
    assert (Hnot : (CertLoader.Now i <? CertLoader.NotBefore leaf) = true)
      by (apply Z.ltb_lt; lia).
    destruct (CertLoader.Leaf c) as [l0|].
    - intros H; inversion H; subst l0. now rewrite Hexp, Hnot.
    - destruct (CertLoader.Chain c) as [|der ders]; [discriminate|].
      destruct (CertLoader.ParseCertificate i) as [l0|cause]; [|discriminate].
      intros H; inversion H; subst l0. simpl. now rewrite Hexp, Hnot. }
  unfold CertLoader.do, CertLoader.do_reload.
  rewrite Hst, Hld. cbv zeta. rewrite Hini.
  eexists. eexists. split; [reflexivity|]. unfold no_alert. simpl.
  rewrite <- app_assoc. split_and; auto.
Qed.

(** A certificate whose validity starts later than the clock reads. *)
Lemma certloader_accepts_not_yet_valid_witness :
  exists cl', CertLoader.do CertSample.fresh false (CertSample.disk 500 10)
              = Returned (cl', None)
              /\ no_alert cl'.
Proof.
  destruct (certloader_accepts_not_yet_valid CertSample.fresh (CertSample.disk 500 10)
              {| CertLoader.fi_ModTime := 500; CertLoader.fi_Size := 1200 |}
              CertSample.pair CertSample.leaf eq_refl eq_refl eq_refl
              ltac:(simpl; lia) ltac:(vm_compute; discriminate))
    as (cl' & x & H1 & _ & _ & _ & H5 & _).
  exists cl'. split; assumption.
Defined.

(** X10: [Load] reads the pair without comparing.  When it returns nil the
    certificate is stored, both alerts are cleared and [GetCert] hands out
    its callback.  When it returns an error the certificate held is kept and
    one alert is raised: the expired flag when the error is the expired
    error (the clock is past NotAfter), the invalid flag for every other
    error; the other flag stays as it was, and [GetCert] and [GetClientCert]
    hand out no callback. *)
Theorem certloader_Load_raises_alert (gcl gcl' : CertLoader.certLoader)
  (i : CertLoader.do_in) (res : option CertLoader.cl_error) :
  CertLoader.Load gcl i = Returned (gcl', res) ->
  match res with
  | None =>
      no_alert gcl'
      /\ (exists x, CertLoader.cl_xcert gcl' = Some x
                    /\ CertLoader.Now i <= CertLoader.notAfter x)
      /\ CertLoader.GetCert (Some gcl') = Returned (Some CertLoader.bound_hello, None)
  | Some err =>
      CertLoader.cl_xcert gcl' = CertLoader.cl_xcert gcl
      /\ CertLoader.cl_nlog gcl' = CertLoader.cl_nlog gcl
      /\ certloader_error_cause gcl i err
      /\ (CertLoader.isExpired err = true ->
          CertLoader.CertificateExpired (CertLoader.cl_tstats gcl') = true
          /\ CertLoader.CertificateInvalid (CertLoader.cl_tstats gcl')
             = CertLoader.CertificateInvalid (CertLoader.cl_tstats gcl))
      /\ (CertLoader.isExpired err = false ->
          CertLoader.CertificateInvalid (CertLoader.cl_tstats gcl') = true
          /\ CertLoader.CertificateExpired (CertLoader.cl_tstats gcl')
             = CertLoader.CertificateExpired (CertLoader.cl_tstats gcl))
      /\ (forall cb, CertLoader.GetCert (Some gcl') <> Returned (Some cb, None)
                     /\ CertLoader.GetClientCert (Some gcl') <> Returned (Some cb, None))
  end.
Proof.
  intros HL. pose proof (certloader_Load_cases _ _ _ _ HL) as H.
  destruct res as [err|].
  - destruct H as [Hc ->].
    destruct (CertLoader.isExpired err) eqn:He; split_and;
      try (intros cb; apply certloader_GetCert_alert; simpl; auto; fail);
      simpl; auto; discriminate.
  - destruct H as (Ha & _ & _ & Hx). split_and; auto.
    now apply certloader_GetCert_no_alert.
Qed.

(** The key file cannot be read: the invalid flag goes up. *)
Lemma certloader_Load_raises_alert_witness :
  let i := {| CertLoader.os_Stat := inl {| CertLoader.fi_ModTime := 600;
                                           CertLoader.fi_Size := 1200 |};
              CertLoader.LoadX509KeyPair := inr "bad key"%string;
              CertLoader.ParseCertificate := inr "unused"%string;
              CertLoader.Now := 3000 |} in
  CertLoader.cl_xcert (CertLoader.SetFlag_Invalid CertSample.loaded)
    = CertLoader.cl_xcert CertSample.loaded
  /\ forall cb, CertLoader.GetCert (Some (CertLoader.SetFlag_Invalid CertSample.loaded))
                <> Returned (Some cb, None).
Proof.
  intros i.
  pose proof (certloader_Load_raises_alert CertSample.loaded
                (CertLoader.SetFlag_Invalid CertSample.loaded) i
                (Some (CertLoader.ErrLoad "server.crt" "server.key" "bad key")) eq_refl)
    as (H1 & _ & _ & _ & _ & H6).
  split; [exact H1|]. intros cb. exact (proj1 (H6 cb)).
Defined.

(** X11: while no alert is raised and the certificate has more than a minute
    left, the interval the housekeeper asks for is shorter than the lifetime
    left: the next check comes before the certificate expires.  The interval
    lies between one minute and six hours, with more than ten minutes left
    it is less than a quarter of what is left, and the call raises no
    alert. *)
Theorem certloader_housekeeper_wakes_before_expiry (cl : CertLoader.certLoader)
  (x : CertLoader.xcert) (now : Z) :
  no_alert cl ->
  CertLoader.cl_xcert cl = Some x ->
  CertLoader.Minute < CertLoader.notAfter x - now ->
  exists cl' d,
    CertLoader.hktime cl now = Returned (cl', d)
    /\ CertLoader.Minute <= d <= 6 * CertLoader.Hour
    /\ d < CertLoader.notAfter x - now
    /\ (10 * CertLoader.Minute < CertLoader.notAfter x - now ->
        4 * d < CertLoader.notAfter x - now)
    /\ no_alert cl'
    /\ CertLoader.cl_xcert cl' = Some x.
Proof.
  intros Ha Hx Hrem.
  destruct (certloader_hktime_valid cl x now Ha Hx) as (cl' & Hh & Hx' & _ & _ & Ht & _).
  exists cl', (hk_interval (CertLoader.notAfter x - now)).
  assert (Hpos : 0 < CertLoader.notAfter x - now).
  { unfold CertLoader.Minute, CertLoader.Second in Hrem. lia. }
  split; [exact Hh|].
  unfold no_alert. rewrite (Ht Hpos).
  revert Hrem. unfold hk_interval, CertLoader.dfltTimeInvalid, CertLoader.Hour,
    CertLoader.Minute, CertLoader.Second. intros Hrem.
  repeat match goal with
         | |- context [?a >? ?b] => destruct (Z.gtb_spec a b); try lia
         end;
    split_and; auto; try lia.
Qed.

(** Thirty hours left: the next check is in six. *)
Lemma certloader_housekeeper_wakes_before_expiry_witness :
  exists cl', CertLoader.hktime CertSample.loaded (1000 + 18 * CertLoader.Hour)
              = Returned (cl', 6 * CertLoader.Hour).
Proof.
  destruct (certloader_housekeeper_wakes_before_expiry CertSample.loaded
              {| CertLoader.Certificate :=
                   {| CertLoader.Chain := ["leaf.der"%string];
                      CertLoader.Leaf := Some CertSample.leaf |};
                 CertLoader.modTime := 500; CertLoader.notBefore := 1000;
                 CertLoader.notAfter := 1000 + 48 * CertLoader.Hour;
                 CertLoader.size := 1200 |}
              (1000 + 18 * CertLoader.Hour) eq_refl eq_refl
              ltac:(vm_compute; reflexivity)) as (cl' & d & H & _).
  exists cl'. rewrite H. vm_compute in H. inversion H. reflexivity.
Defined.

(** X12: among valid certificates the interval follows the lifetime left:
    a certificate with less time left is never checked less often than one
    with more. *)
Theorem certloader_interval_follows_lifetime (cl1 cl2 cl1' cl2' : CertLoader.certLoader)
  (x1 x2 : CertLoader.xcert) (now1 now2 d1 d2 : Z) :
  no_alert cl1 -> no_alert cl2 ->
  CertLoader.cl_xcert cl1 = Some x1 ->
  CertLoader.cl_xcert cl2 = Some x2 ->
  0 < CertLoader.notAfter x1 - now1 ->
  CertLoader.notAfter x1 - now1 <= CertLoader.notAfter x2 - now2 ->
  CertLoader.hktime cl1 now1 = Returned (cl1', d1) ->
  CertLoader.hktime cl2 now2 = Returned (cl2', d2) ->
  d1 <= d2.
Proof.
  intros Ha1 Ha2 Hx1 Hx2 Hpos Hle H1 H2.
  destruct (certloader_hktime_valid cl1 x1 now1 Ha1 Hx1) as (c1 & E1 & _).
  destruct (certloader_hktime_valid cl2 x2 now2 Ha2 Hx2) as (c2 & E2 & _).
  rewrite E1 in H1. rewrite E2 in H2. inversion H1. inversion H2.
  unfold hk_interval, CertLoader.dfltTimeInvalid, CertLoader.Hour, CertLoader.Minute,
    CertLoader.Second.
  repeat match goal with
         | |- context [?a >? ?b] => destruct (Z.gtb_spec a b); try lia
         end.
Qed.

(** Five hours left against thirty. *)
Lemma certloader_interval_follows_lifetime_witness :
  10 * CertLoader.Minute <= 6 * CertLoader.Hour.
Proof.
  pose (x := {| CertLoader.Certificate :=
                  {| CertLoader.Chain := ["leaf.der"%string];
                     CertLoader.Leaf := Some CertSample.leaf |};
                CertLoader.modTime := 500; CertLoader.notBefore := 1000;
                CertLoader.notAfter := 1000 + 48 * CertLoader.Hour;
                CertLoader.size := 1200 |}).
  exact (certloader_interval_follows_lifetime CertSample.loaded CertSample.loaded
           CertSample.loaded CertSample.loaded x x
           (1000 + 43 * CertLoader.Hour) (1000 + 18 * CertLoader.Hour)
           (10 * CertLoader.Minute) (6 * CertLoader.Hour)
           eq_refl eq_refl eq_refl eq_refl
           ltac:(vm_compute; reflexivity) ltac:(vm_compute; discriminate)
           ltac:(vm_compute; reflexivity) ltac:(vm_compute; reflexivity)).
Defined.

(** X13: the housekeeper finds out that the certificate it holds has
    expired.  With no alert raised and the clock at or past NotAfter,
    [hktime] raises the expired flag and asks to be called again in an hour.
    From then on [GetCert] and [GetClientCert] return the expired error,
    which names the certificate file and its NotAfter, and hand out no
    callback; [hktime] keeps answering one hour without looking at the
    clock, and a housekeeping check that finds the same file on disk changes
    nothing. *)
Theorem certloader_expiry_raises_alert (cl : CertLoader.certLoader) (x : CertLoader.xcert)
  (now : Z) :
  no_alert cl ->
  CertLoader.cl_xcert cl = Some x ->
  CertLoader.notAfter x <= now ->
  let expired := CertLoader.SetFlag_Expired cl in
  let err := CertLoader.errExpired (CertLoader.cl_certFile cl) (CertLoader.notAfter x) in
  CertLoader.hktime cl now = Returned (expired, CertLoader.Hour)
  /\ CertLoader.GetCert (Some expired) = Returned (None, Some err)
  /\ CertLoader.GetClientCert (Some expired) = Returned (None, Some err)
  /\ CertLoader.isExpired err = true
  /\ (forall now', CertLoader.hktime expired now' = Returned (expired, CertLoader.Hour))
  /\ (forall i now' finfo,
        CertLoader.os_Stat i = inl finfo -> ~ file_changed finfo x ->
        CertLoader.hk expired i now' = Returned (expired, CertLoader.Hour)).
Proof.
  intros Ha Hx Hexp. cbv zeta.
  destruct (certloader_hktime_valid cl x now Ha Hx) as (cl' & Hh & _ & _ & _ & _ & He).
  rewrite (He ltac:(lia)) in Hh.
  assert (Hi : hk_interval (CertLoader.notAfter x - now) = CertLoader.Hour).
  { unfold hk_interval, CertLoader.dfltTimeInvalid, CertLoader.Hour, CertLoader.Minute,
      CertLoader.Second.
    repeat match goal with
           | |- context [?a >? ?b] => destruct (Z.gtb_spec a b); try lia
           end. }
  rewrite Hi in Hh.
  assert (Hk : forall now', CertLoader.hktime (CertLoader.SetFlag_Expired cl) now'
                            = Returned (CertLoader.SetFlag_Expired cl, CertLoader.Hour)).
  { intros now'. reflexivity. }
  unfold CertLoader.GetCert, CertLoader.GetClientCert, CertLoader.errorf. simpl.
  rewrite Ha, Hx. simpl. split_and; auto.
  intros i now' finfo Hst Hsame. unfold CertLoader.hk, CertLoader.do. rewrite Hst. simpl.
  rewrite Hx.
  destruct ((CertLoader.fi_ModTime finfo =? CertLoader.modTime x)
            && (CertLoader.fi_Size finfo =? CertLoader.size x)) eqn:E.
  - apply Hk.
  - apply certloader_same_file in E. contradiction.
Qed.

(** The loaded certificate, an hour after its NotAfter. *)
Lemma certloader_expiry_raises_alert_witness :
  CertLoader.hktime CertSample.loaded (1000 + 49 * CertLoader.Hour)
  = Returned (CertLoader.SetFlag_Expired CertSample.loaded, CertLoader.Hour)
  /\ CertLoader.GetCert (Some (CertLoader.SetFlag_Expired CertSample.loaded))
     = Returned (None, Some (CertLoader.errExpired "server.crt"
                               (1000 + 48 * CertLoader.Hour))).
Proof.
  pose (x := {| CertLoader.Certificate :=
                  {| CertLoader.Chain := ["leaf.der"%string];
                     CertLoader.Leaf := Some CertSample.leaf |};
                CertLoader.modTime := 500; CertLoader.notBefore := 1000;
                CertLoader.notAfter := 1000 + 48 * CertLoader.Hour;
                CertLoader.size := 1200 |}).
  destruct (certloader_expiry_raises_alert CertSample.loaded x
              (1000 + 49 * CertLoader.Hour) eq_refl eq_refl
              ltac:(vm_compute; discriminate)) as (H1 & H2 & _).
  split; [exact H1 | exact H2].
Defined.

(** X14: a new file brings the loader back.  Whatever alerts are raised,
    when the housekeeping check finds that the file on disk differs from the
    one held in modification time or size, and the pair it reads is not past
    its NotAfter and still has time left, the certificate is replaced, both
    alerts are cleared, [GetCert] hands out its callback again, the callback
    serves the new certificate, and the interval asked for is the one of the
    new certificate. *)
Theorem certloader_new_file_clears_alerts (cl : CertLoader.certLoader)
  (old : CertLoader.xcert) (i : CertLoader.do_in) (finfo : CertLoader.FileInfo)
  (c : CertLoader.tlsCertificate) (leaf : CertLoader.x509Certificate) (now : Z) :
  CertLoader.cl_xcert cl = Some old ->
  CertLoader.os_Stat i = inl finfo ->
  file_changed finfo old ->
  CertLoader.LoadX509KeyPair i = inl c ->
  leaf_of i c = Some leaf ->
  CertLoader.Now i <= CertLoader.NotAfter leaf ->
  0 < CertLoader.NotAfter leaf - now ->
  exists cl',
    CertLoader.hk cl i now = Returned (cl', hk_interval (CertLoader.NotAfter leaf - now))
    /\ no_alert cl'
    /\ CertLoader.GetCert (Some cl') = Returned (Some CertLoader.bound_hello, None)
    /\ CertLoader._hello cl'
       = Returned ({| CertLoader.Chain := CertLoader.Chain c;
                      CertLoader.Leaf := Some leaf |}, None)
    /\ exists x, CertLoader.cl_xcert cl' = Some x
                 /\ CertLoader.modTime x = CertLoader.fi_ModTime finfo
                 /\ CertLoader.size x = CertLoader.fi_Size finfo
                 /\ CertLoader.notBefore x = CertLoader.NotBefore leaf
                 /\ CertLoader.notAfter x = CertLoader.NotAfter leaf.
Proof.
  intros Hx Hst Hch Hld Hleaf Hna Hrem.
  destruct (certloader_ini_ok (CertLoader.cl_certFile cl) i finfo c leaf Hleaf Hna)
    as (logged & Hini).
  set (x := {| CertLoader.Certificate :=
                 {| CertLoader.Chain := CertLoader.Chain c; CertLoader.Leaf := Some leaf |};
               CertLoader.modTime := CertLoader.fi_ModTime finfo;
               CertLoader.notBefore := CertLoader.NotBefore leaf;
               CertLoader.notAfter := CertLoader.NotAfter leaf;
               CertLoader.size := CertLoader.fi_Size finfo |}) in *.
  assert (Hdo : CertLoader.do cl true i = Returned (certloader_stored cl logged x, None)).
  { unfold CertLoader.do, CertLoader.do_reload. rewrite Hst, Hx.
    apply certloader_same_file in Hch. rewrite Hch, Hld. cbv zeta. rewrite Hini.
    reflexivity. }
  destruct (certloader_stored_fields cl i finfo c x logged Hini)
    as (H1 & H2 & _ & _ & _ & _ & _ & _ & _ & _ & H11 & _).
  destruct (certloader_hktime_valid _ x now H2 H1) as (cl' & Hh & Hx' & _ & _ & Ht & _).
  exists cl'. unfold CertLoader.hk. rewrite Hdo.
  assert (Ha' : no_alert cl') by (unfold no_alert; rewrite (Ht Hrem); exact H2).
  split_and; auto.
  - now apply certloader_GetCert_no_alert.
  - unfold CertLoader._hello, CertLoader._get. rewrite Hx'. reflexivity.
  - exists x. auto.
Qed.

(** The expired certificate is replaced by a file written at 900. *)
Lemma certloader_new_file_clears_alerts_witness :
  exists cl',
    CertLoader.hk (CertLoader.SetFlag_Expired CertSample.loaded) (CertSample.disk 900 3000)
      3000
    = Returned (cl', 6 * CertLoader.Hour)
    /\ no_alert cl'.
Proof.
  pose (old := {| CertLoader.Certificate :=
                    {| CertLoader.Chain := ["leaf.der"%string];
                       CertLoader.Leaf := Some CertSample.leaf |};
                  CertLoader.modTime := 500; CertLoader.notBefore := 1000;
                  CertLoader.notAfter := 1000 + 48 * CertLoader.Hour;
                  CertLoader.size := 1200 |}).
  destruct (certloader_new_file_clears_alerts
              (CertLoader.SetFlag_Expired CertSample.loaded) old (CertSample.disk 900 3000)
              {| CertLoader.fi_ModTime := 900; CertLoader.fi_Size := 1200 |}
              CertSample.pair CertSample.leaf 3000
              eq_refl eq_refl ltac:(left; simpl; lia) eq_refl eq_refl
              ltac:(vm_compute; discriminate) ltac:(vm_compute; reflexivity))
    as (cl' & H1 & H2 & _).
  exists cl'. split; [|exact H2]. rewrite H1. reflexivity.
Defined.

(** X15: [Init] with both file names empty does nothing.  Otherwise it
    creates the package's loader for the two files and loads the pair.  When
    that works the housekeeper is registered, with an interval between one
    minute and six hours, and the loader holds the certificate.  When it
    fails the error is returned, nothing is registered, the loader holds no
    certificate and has an alert raised, [GetCert] hands out no callback,
    and if the failure is an expired certificate (and the invalid flag is
    not raised) [GetCert] does not even return: formatting the expired error
    reads the certificate that was never stored, and the call panics. *)
Theorem certloader_Init_outcome (dbg : bool) (certFile keyFile : string)
  (tstats : CertLoader.alerts) (i : CertLoader.do_in) (now : Z) :
  (forall gcl, CertLoader.Init dbg gcl "" "" tstats i now = Returned (gcl, None, None))
  /\ (String.eqb certFile "" && String.eqb keyFile "" = false ->
      forall gcl' err reg,
        CertLoader.Init dbg None certFile keyFile tstats i now = Returned (gcl', err, reg) ->
        exists cl,
          gcl' = Some cl
          /\ CertLoader.cl_certFile cl = certFile
          /\ CertLoader.cl_keyFile cl = keyFile
          /\ match err with
             | None =>
                 exists x d, CertLoader.cl_xcert cl = Some x /\ reg = Some d
                             /\ CertLoader.Minute <= d <= 6 * CertLoader.Hour
                             /\ CertLoader.CertificateInvalid (CertLoader.cl_tstats cl)
                                = false
             | Some e =>
                 reg = None
                 /\ CertLoader.cl_xcert cl = None
                 /\ (CertLoader.CertificateExpired (CertLoader.cl_tstats cl) = true
                     \/ CertLoader.CertificateInvalid (CertLoader.cl_tstats cl) = true)
                 /\ (forall cb, CertLoader.GetCert (Some cl) <> Returned (Some cb, None))
                 /\ (CertLoader.isExpired e = true ->
                     CertLoader.CertificateInvalid tstats = false ->
                     CertLoader.GetCert (Some cl) = Panicked)
             end).
Proof.
  split; [reflexivity|].
  intros Hnames gcl' err reg. unfold CertLoader.Init. rewrite Hnames.
  unfold debug_Assert. rewrite orb_true_r. simpl.
  set (gcl := {| CertLoader.cl_tstats := tstats; CertLoader.cl_certFile := certFile;
                 CertLoader.cl_keyFile := keyFile; CertLoader.cl_xcert := None;
                 CertLoader.cl_nlog := [] |}).
  destruct (CertLoader.Load gcl i) as [[cl1 [e|]]|] eqn:HL; [| |discriminate].
  - intros H; inversion H; subst. clear H.
    pose proof (certloader_Load_cases _ _ _ _ HL) as [_ ->].
    eexists. split; [reflexivity|].
    destruct (CertLoader.isExpired e) eqn:He; simpl; split_and; auto;
      try (intros cb; apply certloader_GetCert_alert; simpl; auto; fail);
      try discriminate.
    intros _ Hinv. unfold CertLoader.GetCert, CertLoader.errorf. simpl.
    rewrite Hinv. reflexivity.
  - pose proof (certloader_Load_cases _ _ _ _ HL) as (Ha & Hc & Hk & x & Hx & _).
    destruct (CertLoader.hktime cl1 now) as [[cl2 d]|] eqn:Hh; [|discriminate].
    intros H; inversion H; subst. clear H.
    pose proof (certloader_hktime_frame _ _ _ _ Hh) as (F1 & F2 & F3 & F4 & _ & F6).
    unfold gcl in Hc, Hk. simpl in Hc, Hk.
    eexists. split; [reflexivity|].
    split_and; [rewrite F2; exact Hc | rewrite F3; exact Hk |].
    exists x, d. split_and; [congruence | reflexivity | | | rewrite F4, Ha; reflexivity].
    + apply F6.
    + revert F6. unfold CertLoader.Hour, CertLoader.Minute, CertLoader.Second. lia.
Qed.

(** The certificate on disk had expired before the node started. *)
Lemma certloader_Init_outcome_witness :
  exists cl,
    CertLoader.Init true None "server.crt" "server.key"
      {| CertLoader.CertificateExpired := false; CertLoader.CertificateInvalid := false |}
      (CertSample.disk 500 (2000 + 48 * CertLoader.Hour)) (2000 + 48 * CertLoader.Hour)
    = Returned (Some cl,
                Some (CertLoader.errExpired "server.crt" (1000 + 48 * CertLoader.Hour)),
                None)
    /\ CertLoader.GetCert (Some cl) = Panicked.
Proof.
  destruct (proj2 (certloader_Init_outcome true "server.crt" "server.key"
                     {| CertLoader.CertificateExpired := false;
                        CertLoader.CertificateInvalid := false |}
                     (CertSample.disk 500 (2000 + 48 * CertLoader.Hour))
                     (2000 + 48 * CertLoader.Hour)) eq_refl
              (Some (CertLoader.nlog (CertLoader.SetFlag_Expired CertSample.fresh)
                       [CertLoader.Errorln_fatal
                          (CertLoader.errExpired "server.crt"
                             (1000 + 48 * CertLoader.Hour))]))
              (Some (CertLoader.errExpired "server.crt" (1000 + 48 * CertLoader.Hour)))
              None ltac:(vm_compute; reflexivity))
    as (cl & Hcl & _ & _ & _ & _ & _ & _ & Hp).
  exists cl. split.
  - rewrite <- Hcl. vm_compute. reflexivity.
  - exact (Hp eq_refl eq_refl).
Defined.
